(** * Loss-landscape surface cruncher: a shallow embedding

    The development follows [loss_landscape/plot_surface.py] and
    [loss_landscape/plot_hessian_eigen.py].  Floating point numbers are
    IEEE binary64 values ([PrimFloat]), HDF5 files are finite maps from
    dataset names to datasets, Python dictionaries are finite maps, and the
    imperative code runs in a state-and-exception monad over a world made of
    the file system, the live network, the pending contributions of the MPI
    peers and a log of the externally visible calls.  The progress output
    ([print], [clear_output]) and the timing of the loops are left out. *)

From Stdlib Require Import PrimFloat FloatOps SpecFloat Uint63 ZArith Ascii.
From stdpp Require Import gmap strings list pretty.

(** ** Numbers and arrays *)

(** [PrimFloat.of_uint63] on a natural number (array indices are small). *)
Definition float_of_nat (n : nat) : float :=
  PrimFloat.of_uint63 (Uint63.of_Z (Z.of_nat n)).

Definition float_of_Z (z : Z) : float :=
  if (z <? 0)%Z then PrimFloat.opp (PrimFloat.of_uint63 (Uint63.of_Z (- z)))
  else PrimFloat.of_uint63 (Uint63.of_Z z).

(** Python truthiness of a float: everything but [0.0] and [-0.0]. *)
Definition truthy (v : float) : bool := negb (PrimFloat.eqb v 0%float).

(** Python [int(v)] on a float: truncation toward zero; [None] stands for
    the [OverflowError] / [ValueError] raised on infinities and NaN. *)
Definition py_int (v : float) : option Z :=
  match Prim2SF v with
  | S754_zero _ => Some 0%Z
  | S754_finite s m e =>
      let a := match e with
               | Z0 => Z.pos m
               | Zpos p => (Z.pos m * 2 ^ Z.pos p)%Z
               | Zneg p => (Z.pos m / 2 ^ Z.pos p)%Z
               end in
      Some (if s then (- a)%Z else a)
  | S754_infinity _ | S754_nan => None
  end.

(** A NumPy array of doubles: its shape and its entries in C order. *)
Record ndarray := NdArray { shape : list nat; data : list float }.

Definition size (a : ndarray) : nat := length (data a).

(** [np.ones(shape=shape)] *)
Definition np_ones (shp : list nat) : ndarray :=
  NdArray shp (replicate (foldr Nat.mul 1 shp) 1%float).

(** unary minus on an array *)
Definition np_neg (a : ndarray) : ndarray :=
  NdArray (shape a) (PrimFloat.opp <$> data a).

Definition fmax (a b : float) : float := if PrimFloat.ltb a b then b else a.
Definition fmin (a b : float) : float := if PrimFloat.ltb b a then b else a.

(** A grid coordinate: one scalar on a 1-D grid, two on a 2-D grid. *)
Inductive Coord := Coord1 (x : float) | Coord2 (x y : float).

(** ** Exceptions, files and events *)

Inductive Exn :=
| AssertionError
| KeyError (key : string)
| IndexError
| TypeError
| ValueError
| FileNotFound (path : string)
| NoWriteIntent (path key : string)
| NameExists (path key : string)
| NameError
| Blocked
| Exception (msg : string).

Inductive Res (A : Type) := Ok (a : A) | Raise (e : Exn).
Arguments Ok {A} a.
Arguments Raise {A} e.

Definition is_Ok {A} (r : Res A) : bool :=
  match r with Ok _ => true | Raise _ => false end.

(** What an HDF5 file holds under a name. *)
Inductive Dataset := DArr (a : ndarray) | DStr (s : string).

(** h5py file modes used by the code: ['r'], ['r+'] and ['a']. *)
Inductive Mode := ModeR | ModeRW | ModeA.

Record Handle := MkHandle { h_path : string; h_mode : Mode }.

Inductive ReduceOp := OpMax | OpMin.

Definition Comm_info : Type := nat * nat.

(** The communicator: [None] when MPI is off, else this process' rank and
    the number of processes. *)
Definition Comm : Type := option Comm_info.

Definition comm_rank (comm : Comm) : nat :=
  match comm with None => 0 | Some (r, _) => r end.
Definition comm_size (comm : Comm) : nat :=
  match comm with None => 1 | Some (_, p) => p end.

(** The parsed command line ([args]).  The resolution fields are unset
    ([None]) until the resolution strings have been checked. *)
Record Args := MkArgs {
  a_x : string;
  a_y : option string;
  a_xmin : option float;
  a_xmax : option float;
  a_xnum : option Z;
  a_ymin : option float;
  a_ymax : option float;
  a_ynum : option Z;
  a_dir_type : string;
  a_mpi : bool;
  a_cuda : bool;
  a_plot : bool;
  a_model_file : string;
  a_surf_file : string;
  a_raw_data : bool;
  a_data_split : Z;
  a_split_idx : Z;
}.

(** Python truthiness of an optional string: [None] and [''] are false. *)
Definition str_truthy (o : option string) : bool :=
  match o with
  | None => false
  | Some s => negb (String.eqb s "")
  end.

Definition set_x_resolution (args : Args) (xmin xmax : float) (xnum : Z) : Args :=
  MkArgs (a_x args) (a_y args) (Some xmin) (Some xmax) (Some xnum) None None None
    (a_dir_type args) (a_mpi args) (a_cuda args) (a_plot args) (a_model_file args)
    (a_surf_file args) (a_raw_data args) (a_data_split args) (a_split_idx args).

Definition set_y_resolution (args : Args) (ymin ymax : float) (ynum : Z) : Args :=
  MkArgs (a_x args) (a_y args) (a_xmin args) (a_xmax args) (a_xnum args)
    (Some ymin) (Some ymax) (Some ynum)
    (a_dir_type args) (a_mpi args) (a_cuda args) (a_plot args) (a_model_file args)
    (a_surf_file args) (a_raw_data args) (a_data_split args) (a_split_idx args).

(** Python's [s.split(sep)] for a separator of one character. *)
Fixpoint py_split (sep : Ascii.ascii) (s : string) : list string :=
  match s with
  | EmptyString => [EmptyString]
  | String c s' =>
      if Ascii.eqb c sep then EmptyString :: py_split sep s'
      else match py_split sep s' with
           | x :: r => String c x :: r
           | [] => [String c EmptyString]
           end
  end.

(** ** The collaborators of the cruncher

    The network, its perturbation, the evaluators, the job scheduler and
    Python's [float] conversion live outside the two modules; the code is
    verified for every implementation of them. *)
Class Collaborators := {
  Net : Type;
  Dataloader : Type;
  Weights : Type;
  States : Type;
  Directions : Type;
  (** [net_plotter.set_weights(net, w, d, coord)]: the network it leaves *)
  set_weights : Net → Weights → Directions → Coord → Net;
  (** [net_plotter.set_states(net, s, d, coord)] *)
  set_states : Net → States → Directions → Coord → Net;
  (** [evaluator(net, dataloader)]: loss and accuracy *)
  evaluator : Net → Dataloader → float * float;
  (** [min_max_hessian_eigs(net, dataloader, ...)]: maxeig, mineig, iterations *)
  min_max_hessian_eigs : Net → Dataloader → float * float * nat;
  (** [scheduler.get_job_indices(vals, xcoordinates, ycoordinates, comm)] *)
  get_job_indices :
    ndarray → ndarray → option ndarray → Comm → list nat * list Coord * list nat;
  (** Python's [float(s)]; [None] is its [ValueError] *)
  py_float : string → option float;
  (** Python's [str(v)] on a float *)
  py_str : float → string;
  (** [model_loader.load(module_class, model_file)] *)
  load : string → Net;
  (** [net_plotter.get_weights(net)] and [copy.deepcopy(net.state_dict())] *)
  get_weights : Net → Weights;
  state_dict : Net → States;
  (** [net_plotter.name_direction_file(args)] *)
  name_direction_file : Args → string;
  (** [net_plotter.load_directions(dir_file)] *)
  load_directions : string → Directions;
  (** [torch.cuda.is_available()] on this machine *)
  cuda_is_available : bool;
  (** rank and size of the communicator that [setup_MPI()] returns *)
  setup_MPI : Comm_info;
}.

Section Cruncher.
Context `{C : Collaborators}.

(** The calls that leave the process. *)
Inductive Event :=
| EvSeed
| EvSetupMPI
| EvSetDevice
| EvMakedirs (path : string)
| EvOpen (path : string) (mode : Mode)
| EvCreate (path key : string)
| EvCommit (path key : string)
| EvFlush (path : string)
| EvClose (path : string)
| EvSetWeights (coord : Coord)
| EvSetStates (coord : Coord)
| EvEval (net : Net) (dl : Dataloader)
| EvHessian (net : Net) (dl : Dataloader)
| EvReduce (op : ReduceOp)
| EvBarrier
| EvLoadModel (path : string)
| EvSetupDirection (path : string)
| EvLoadDirections (path : string)
| EvPlot (path : string).

Record World := MkWorld {
  w_fs : gmap string (gmap string Dataset);
  w_net : Net;
  w_peers : list ndarray;
  w_trace : list Event;
}.

(** ** The monad *)

Definition M (A : Type) : Type := World → Res A * World.

#[export] Instance M_ret : MRet M := λ A a w, (Ok a, w).
#[export] Instance M_bind : MBind M := λ A B f m w,
  match m w with
  | (Ok a, w') => f a w'
  | (Raise e, w') => (Raise e, w')
  end.

Definition raise {A} (e : Exn) : M A := λ w, (Raise e, w).

Definition log (e : Event) : M unit := λ w,
  (Ok tt, MkWorld (w_fs w) (w_net w) (w_peers w) (w_trace w ++ [e])).

Definition get_world : M World := λ w, (Ok w, w).

Definition put_fs (fs : gmap string (gmap string Dataset)) : M unit := λ w,
  (Ok tt, MkWorld fs (w_net w) (w_peers w) (w_trace w)).

Definition put_net (n : Net) : M unit := λ w,
  (Ok tt, MkWorld (w_fs w) n (w_peers w) (w_trace w)).

Definition put_peers (ps : list ndarray) : M unit := λ w,
  (Ok tt, MkWorld (w_fs w) (w_net w) ps (w_trace w)).

(** [assert b] *)
Definition py_assert (b : bool) : M unit :=
  if b then mret tt else raise AssertionError.

(** [try: body except: raise Exception(msg)] with a bare [except]. *)
Definition try_except_raise {A} (body : M A) (msg : string) : M A := λ w,
  match body w with
  | (Ok a, w') => (Ok a, w')
  | (Raise _, w') => (Raise (Exception msg), w')
  end.

(** A [for] loop over a list threading the variables it rebinds. *)
Fixpoint for_each {X S : Type} (body : S → X → M S) (l : list X) (s : S) : M S :=
  match l with
  | [] => mret s
  | x :: l' => s' ← body s x; for_each body l' s'
  end.

(** [enumerate(l)] *)
Definition enumerate {X} (l : list X) : list (nat * X) := imap (λ i x, (i, x)) l.

Definition of_option {A} (o : option A) (e : Exn) : M A :=
  match o with Some a => mret a | None => raise e end.

(** ** h5py *)

Definition lookup_dataset (w : World) (path key : string) : option Dataset :=
  w_fs w !! path ≫= λ file, file !! key.

(** [h5py.File(path, mode)] *)
Definition h5_open (path : string) (mode : Mode) : M Handle :=
  w ← get_world;
  match w_fs w !! path, mode with
  | Some _, _ => log (EvOpen path mode);; mret (MkHandle path mode)
  | None, ModeA =>
      put_fs (<[path := ∅]> (w_fs w));; log (EvOpen path mode);;
      mret (MkHandle path mode)
  | None, _ => raise (FileNotFound path)
  end.

(** [key in f.keys()] *)
Definition h5_contains (f : Handle) (key : string) : M bool :=
  w ← get_world;
  mret (bool_decide (is_Some (lookup_dataset w (h_path f) key))).

(** [f[key]] *)
Definition h5_get (f : Handle) (key : string) : M Dataset :=
  w ← get_world;
  of_option (lookup_dataset w (h_path f) key) (KeyError key).

(** [f[key][:]] *)
Definition h5_read (f : Handle) (key : string) : M ndarray :=
  ds ← h5_get f key;
  match ds with
  | DArr a => mret a
  | DStr _ => raise TypeError
  end.

(** [f[key] = value]: creates a dataset; h5py refuses it on a file opened
    read-only and on a name that is taken. *)
Definition h5_create (f : Handle) (key : string) (ds : Dataset) : M unit :=
  match h_mode f with
  | ModeR => raise (NoWriteIntent (h_path f) key)
  | _ =>
      w ← get_world;
      match lookup_dataset w (h_path f) key with
      | Some _ => raise (NameExists (h_path f) key)
      | None =>
          put_fs (<[h_path f := <[key := ds]> (default ∅ (w_fs w !! h_path f))]> (w_fs w));;
          log (EvCreate (h_path f) key)
      end
  end.

(** [f[key][:] = arr]: overwrites the entries of an existing dataset. *)
Definition h5_assign (f : Handle) (key : string) (arr : ndarray) : M unit :=
  ds ← h5_get f key;
  match ds with
  | DStr _ => raise TypeError
  | DArr old =>
      match h_mode f with
      | ModeR => raise (NoWriteIntent (h_path f) key)
      | _ =>
          if bool_decide (shape old = shape arr) && Nat.eqb (size old) (size arr) then
            w ← get_world;
            put_fs (<[h_path f := <[key := DArr arr]> (default ∅ (w_fs w !! h_path f))]> (w_fs w));;
            log (EvCommit (h_path f) key)
          else raise TypeError
      end
  end.

Definition h5_flush (f : Handle) : M unit := log (EvFlush (h_path f)).
Definition h5_close (f : Handle) : M unit := log (EvClose (h_path f)).

(** ** NumPy *)

(** The array that [np.linspace(start, stop, num=num)] returns for
    [num >= 0] (with the default [endpoint=True]): [arange(0, num)] scaled
    by the step and shifted by [start], the last entry set to [stop]. *)
Definition linspace_array (start stop : float) (num : Z) : ndarray :=
  let n := Z.to_nat num in
  let div := (num - 1)%Z in
  let delta := PrimFloat.sub stop start in
  let y := float_of_nat <$> seq 0 n in
  let y :=
    if (0 <? div)%Z then
      let step := PrimFloat.div delta (float_of_Z div) in
      if PrimFloat.eqb step 0%float
      then (λ v, PrimFloat.mul (PrimFloat.div v (float_of_Z div)) delta) <$> y
      else (λ v, PrimFloat.mul v step) <$> y
    else (λ v, PrimFloat.mul v delta) <$> y in
  let y := (λ v, PrimFloat.add v start) <$> y in
  let y := if (1 <? num)%Z then <[n - 1 := stop]> y else y in
  NdArray [n] y.

(** [np.linspace(start, stop, num=num)]: a negative [num] is a
    [ValueError]. *)
Definition np_linspace (start stop : float) (num : Z) : M ndarray :=
  if (num <? 0)%Z then raise ValueError else mret (linspace_array start stop num).

(** [a.ravel()[ind] = v] *)
Definition ravel_set (a : ndarray) (ind : nat) (v : float) : M ndarray :=
  if Nat.ltb ind (size a) then mret (NdArray (shape a) (<[ind := v]> (data a)))
  else raise IndexError.

(** [np.array(np.meshgrid(xs, ys)).T.reshape(-1, 2)]: row [i * len(ys) + j]
    is [(xs[i], ys[j])]. *)
Definition meshgrid_pairs (xs ys : ndarray) : list Coord :=
  x ← data xs; (λ y, Coord2 x y) <$> data ys.

(** [max(l)] on a list of integers *)
Definition py_max (l : list nat) : M nat :=
  match l with
  | [] => raise ValueError
  | x :: l' => mret (foldr Nat.max x l')
  end.

(** [len(a)]: the first dimension *)
Definition np_len (a : ndarray) : M nat :=
  match shape a with
  | [] => raise TypeError
  | n :: _ => mret n
  end.

(** ** MPI *)

(** Modelled from the spec: [reduce_max] and [reduce_min] of [mpi4pytorch],
    the collective element-wise maximum (minimum) of the workers' copies of
    an array.  Without a communicator the array comes back as it is.  With
    one, the call blocks until the peers have entered the same collective:
    the world holds what the peers contribute to the collectives they still
    enter, and a call that no peer answers never returns ([Blocked]). *)
Definition reduce (op : ReduceOp) (comm : Comm) (arr : ndarray) : M ndarray :=
  match comm with
  | None => mret arr
  | Some _ =>
      log (EvReduce op);;
      w ← get_world;
      match w_peers w with
      | [] => raise Blocked
      | p :: ps =>
          put_peers ps;;
          mret (NdArray (shape arr)
                  (zip_with (match op with OpMax => fmax | OpMin => fmin end)
                     (data arr) (data p)))
      end
  end.

Definition reduce_max : Comm → ndarray → M ndarray := reduce OpMax.
Definition reduce_min : Comm → ndarray → M ndarray := reduce OpMin.

(** [barrier(comm)] *)
Definition barrier (comm : Comm) : M unit :=
  match comm with
  | None => mret tt
  | Some _ => log EvBarrier
  end.

(** ** plot_surface.py *)

(** Lines 57-62 of [setup_surface_file]: is the surface file set up
    already? *)
Definition already_set_up (args : Args) (surf_file : string) : M bool :=
  w ← get_world;
  if bool_decide (is_Some (w_fs w !! surf_file)) then
    f ← h5_open surf_file ModeR;
    has_y ← h5_contains f "ycoordinates";
    has_x ← h5_contains f "xcoordinates";
    if (str_truthy (a_y args) && has_y) || has_x
    then h5_close f;; mret true
    else mret false
  else mret false.

(** Lines 64-76 of [setup_surface_file]: write the back-reference to the
    direction file and the coordinate axes. *)
Definition write_axes (args : Args) (surf_file dir_file : string) : M (option string) :=
  f ← h5_open surf_file ModeA;
  h5_create f "dir_file" (DStr dir_file);;
  xmin ← of_option (a_xmin args) TypeError;
  xmax ← of_option (a_xmax args) TypeError;
  xnum ← of_option (a_xnum args) TypeError;
  xcoordinates ← np_linspace xmin xmax xnum;
  h5_create f "xcoordinates" (DArr xcoordinates);;
  (if str_truthy (a_y args) then
     ymin ← of_option (a_ymin args) TypeError;
     ymax ← of_option (a_ymax args) TypeError;
     ynum ← of_option (a_ynum args) TypeError;
     ycoordinates ← np_linspace ymin ymax ynum;
     h5_create f "ycoordinates" (DArr ycoordinates)
   else mret tt);;
  h5_close f;;
  mret (Some surf_file).

(** [setup_surface_file(args, surf_file, dir_file)]; [Ok None] is the early
    [return] of line 62, [Ok (Some surf_file)] the one of line 76. *)
Definition setup_surface_file (args : Args) (surf_file dir_file : string)
  : M (option string) :=
  already ← already_set_up args surf_file;
  if already : bool then mret None else write_axes args surf_file dir_file.

(** Lines 89-92: the coordinate axes of the file and the grid shape. *)
Definition read_grid (f : Handle) : M (ndarray * option ndarray) :=
  xcoordinates ← h5_read f "xcoordinates";
  has_y ← h5_contains f "ycoordinates";
  if has_y : bool then
    ycoordinates ← h5_read f "ycoordinates";
    mret (xcoordinates, Some ycoordinates)
  else mret (xcoordinates, None).

Definition grid_shape (xcoordinates : ndarray) (ycoordinates : option ndarray)
  : M (list nat) :=
  match ycoordinates with
  | None => mret (shape xcoordinates)
  | Some ys => nx ← np_len xcoordinates; ny ← np_len ys; mret [nx; ny]
  end.

(** Lines 94-101 (and 187-194): one round of the loop that creates or
    loads the two fields of a dataloader. *)
Definition load_field_pair (f : Handle) (shp : list nat)
    (st : gmap string ndarray * gmap string ndarray) (keys : string * string)
  : M (gmap string ndarray * gmap string ndarray) :=
  let '(losses, accuracies) := st in
  let '(loss_key, acc_key) := keys in
  present ← h5_contains f loss_key;
  if negb present then
    let l := np_neg (np_ones shp) in
    let a := np_neg (np_ones shp) in
    h5_create f loss_key (DArr l);;
    h5_create f acc_key (DArr a);;
    mret (<[loss_key := l]> losses, <[acc_key := a]> accuracies)
  else
    l ← h5_read f loss_key;
    a ← h5_read f acc_key;
    mret (<[loss_key := l]> losses, <[acc_key := a]> accuracies).

(** Lines 118-121: load the weights of a coordinate into the net. *)
Definition load_weights (args : Args) (w0 : Weights) (s : States)
    (d : Directions) (coord : Coord) : M unit :=
  if String.eqb (a_dir_type args) "weights" then
    w ← get_world;
    put_net (set_weights (w_net w) w0 d coord);;
    log (EvSetWeights coord)
  else if String.eqb (a_dir_type args) "states" then
    w ← get_world;
    put_net (set_states (w_net w) s d coord);;
    log (EvSetStates coord)
  else mret tt.

(** [evaluator(net, dataloader)] on the live net *)
Definition call_evaluator (dl : Dataloader) : M (float * float) :=
  w ← get_world;
  log (EvEval (w_net w) dl);;
  mret (evaluator (w_net w) dl).

(** Lines 133-134: record the result in the local arrays. *)
Definition record_result (ind : nat) (loss acc : float) (loss_key acc_key : string)
    (st : gmap string ndarray * gmap string ndarray)
  : M (gmap string ndarray * gmap string ndarray) :=
  let '(losses, accuracies) := st in
  la ← of_option (losses !! loss_key) (KeyError loss_key);
  la ← ravel_set la ind loss;
  aa ← of_option (accuracies !! acc_key) (KeyError acc_key);
  aa ← ravel_set aa ind acc;
  mret (<[loss_key := la]> losses, <[acc_key := aa]> accuracies).

(** Lines 127-134 (and 217-224): evaluate the net on a dataloader and
    record the result at index [ind]. *)
Definition evaluate_and_record (ind : nat)
    (st : gmap string ndarray * gmap string ndarray)
    (job : Dataloader * (string * string))
  : M (gmap string ndarray * gmap string ndarray) :=
  let '(dataloader, (loss_key, acc_key)) := job in
  result ← call_evaluator dataloader;
  record_result ind result.1 result.2 loss_key acc_key st.

(** Lines 139-140 (and 164-165): merge the two arrays of a dataloader. *)
Definition reduce_pair (comm : Comm) (loss_key acc_key : string)
    (st : gmap string ndarray * gmap string ndarray)
  : M (gmap string ndarray * gmap string ndarray) :=
  let '(losses, accuracies) := st in
  la ← of_option (losses !! loss_key) (KeyError loss_key);
  la ← reduce_max comm la;
  aa ← of_option (accuracies !! acc_key) (KeyError acc_key);
  aa ← reduce_max comm aa;
  mret (<[loss_key := la]> losses, <[acc_key := aa]> accuracies).

(** Lines 149-150 (and 236-237): write the two arrays of a dataloader. *)
Definition commit_pair (f : Handle)
    (st : gmap string ndarray * gmap string ndarray) (keys : string * string)
  : M (gmap string ndarray * gmap string ndarray) :=
  let '(losses, accuracies) := st in
  let '(loss_key, acc_key) := keys in
  la ← of_option (losses !! loss_key) (KeyError loss_key);
  h5_assign f loss_key la;;
  aa ← of_option (accuracies !! acc_key) (KeyError acc_key);
  h5_assign f acc_key aa;;
  mret st.

(** Lines 85-101 (and 178-194): open the surface file, read the grid and
    create or load the fields of every dataloader. *)
Definition open_fields (surf_file : string) (dataloaders : list Dataloader)
    (loss_keys acc_keys : list string) (rank : nat)
  : M (Handle * ndarray * option ndarray
       * (gmap string ndarray * gmap string ndarray)) :=
  py_assert (Nat.eqb (length dataloaders) (length loss_keys)
             && Nat.eqb (length loss_keys) (length acc_keys));;
  f ← h5_open surf_file (if Nat.eqb rank 0 then ModeRW else ModeR);
  '(xcoordinates, ycoordinates) ← read_grid f;
  shp ← grid_shape xcoordinates ycoordinates;
  st ← for_each (load_field_pair f shp) (zip loss_keys acc_keys) (∅, ∅);
  mret (f, xcoordinates, ycoordinates, st).

(** Lines 113-151: the body of the loop of [crunch] over its indices. *)
Definition crunch_cell (f : Handle) (w0 : Weights) (s : States) (d : Directions)
    (dataloaders : list Dataloader) (loss_keys acc_keys : list string)
    (comm : Comm) (rank : nat) (args : Args) (coords : list Coord)
    (st : gmap string ndarray * gmap string ndarray) (ci : nat * nat)
  : M (gmap string ndarray * gmap string ndarray) :=
  let '(count, ind) := ci in
  coord ← of_option (coords !! count) IndexError;
  load_weights args w0 s d coord;;
  st ← for_each (λ st job,
          st ← evaluate_and_record ind st job;
          reduce_pair comm job.2.1 job.2.2 st)
        (zip dataloaders (zip loss_keys acc_keys)) st;
  (if Nat.eqb rank 0 then
     st ← for_each (commit_pair f) (zip loss_keys acc_keys) st;
     h5_flush f
   else mret tt);;
  mret st.

(** Lines 163-165: a worker with less work keeps calling reduce, on the
    keys that the loops above left in [loss_key] and [acc_key]. *)
Definition keep_reducing (comm : Comm) (loss_keys acc_keys : list string)
    (st : gmap string ndarray * gmap string ndarray) (i : nat)
  : M (gmap string ndarray * gmap string ndarray) :=
  '(loss_key, acc_key) ← of_option (last (zip loss_keys acc_keys)) NameError;
  reduce_pair comm loss_key acc_key st.

(** [crunch]: the synchronized variant. *)
Definition crunch (surf_file : string) (w0 : Weights) (s : States) (d : Directions)
    (dataloaders : list Dataloader) (loss_keys acc_keys : list string)
    (comm : Comm) (rank : nat) (args : Args) : M unit :=
  opened ← open_fields surf_file dataloaders loss_keys acc_keys rank;
  let '(f, xcoordinates, ycoordinates, st) :=
    opened : Handle * ndarray * option ndarray
             * (gmap string ndarray * gmap string ndarray) in
  key0 ← of_option (loss_keys !! 0) IndexError;
  vals ← of_option (st.1 !! key0) (KeyError key0);
  let '(inds, coords, inds_nums) :=
    get_job_indices vals xcoordinates ycoordinates comm in
  st ← for_each (crunch_cell f w0 s d dataloaders loss_keys acc_keys comm rank
                   args coords) (enumerate inds) st;
  most ← py_max inds_nums;
  st ← for_each (keep_reducing comm loss_keys acc_keys)
         (seq 0 (most - length inds)) st;
  h5_close f.

(** Lines 196-197: the coordinates of all the cells, in index order. *)
Definition all_coords (xcoordinates : ndarray) (ycoordinates : option ndarray)
  : list Coord :=
  match ycoordinates with
  | None => Coord1 <$> data xcoordinates
  | Some ys => meshgrid_pairs xcoordinates ys
  end.

(** Lines 205-224: the body of the loop of [crunch_2]. *)
Definition crunch_2_cell (w0 : Weights) (s : States) (d : Directions)
    (dataloaders : list Dataloader) (loss_keys acc_keys : list string)
    (args : Args) (coords : list Coord)
    (st : gmap string ndarray * gmap string ndarray) (ci : nat * nat)
  : M (gmap string ndarray * gmap string ndarray) :=
  let '(count, ind) := ci in
  coord ← of_option (coords !! count) IndexError;
  load_weights args w0 s d coord;;
  for_each (evaluate_and_record ind) (zip dataloaders (zip loss_keys acc_keys)) st.

(** [crunch_2]: the variant without synchronization. *)
Definition crunch_2 (surf_file : string) (w0 : Weights) (s : States) (d : Directions)
    (dataloaders : list Dataloader) (loss_keys acc_keys : list string)
    (comm : Comm) (rank : nat) (args : Args) : M unit :=
  opened ← open_fields surf_file dataloaders loss_keys acc_keys rank;
  let '(f, xcoordinates, ycoordinates, st) :=
    opened : Handle * ndarray * option ndarray
             * (gmap string ndarray * gmap string ndarray) in
  let coords := all_coords xcoordinates ycoordinates in
  key0 ← of_option (loss_keys !! 0) IndexError;
  vals ← of_option (st.1 !! key0) (KeyError key0);
  let inds := seq 0 (size vals) in
  st ← for_each (crunch_2_cell w0 s d dataloaders loss_keys acc_keys args coords)
         (enumerate inds) st;
  st ← for_each (commit_pair f) (zip loss_keys acc_keys) st;
  h5_flush f;;
  h5_close f.

(** Lines 256-268: MPI and device setup. *)
Definition environment_setup (args : Args) : M (Comm * nat) :=
  cr ← (if a_mpi args then log EvSetupMPI;; mret (Some setup_MPI, setup_MPI.1)
        else mret (None, 0));
  (if a_cuda args then
     if negb cuda_is_available then
       raise (Exception
         "User selected cuda option, but cuda is not available on this machine")
     else log EvSetDevice
   else mret tt);;
  mret cr.

(** [[float(a) for a in s.split(':')]] unpacked into three names. *)
Definition parse_triple (str : string) : M (float * float * float) :=
  parts ← for_each (λ acc a, v ← of_option (py_float a) ValueError; mret (acc ++ [v])%list)
            (py_split ":"%char str) [];
  match parts with
  | [a; b; c] => mret (a, b, c)
  | _ => raise ValueError
  end.

(** Lines 274-280: the body of the [try] that checks the resolution. *)
Definition check_resolution_body (args : Args) : M Args :=
  '(xmin, xmax, xnum) ← parse_triple (a_x args);
  xnum ← of_option (py_int xnum) ValueError;
  let args := set_x_resolution args xmin xmax xnum in
  if str_truthy (a_y args) then
    '(ymin, ymax, ynum) ← parse_triple (default "" (a_y args));
    py_assert (truthy ymin && truthy ymax && truthy ynum);;
    ynum ← of_option (py_int ynum) ValueError;
    mret (set_y_resolution args ymin ymax ynum)
  else mret args.

(** Lines 273-282: check the plotting resolution. *)
Definition check_resolution (args : Args) : M Args :=
  try_except_raise (check_resolution_body args)
    "Improper format for x- or y-coordinates. Try something like -1:1:51".

(** [init_plot_surface(args)] *)
Definition init_plot_surface (args : Args) : M (Args * Comm * nat) :=
  log EvSeed;;
  '(comm, rank) ← environment_setup args;
  args ← check_resolution args;
  mret (args, comm, rank).

(** [name_surface_file(args, dir_file)] *)
Definition name_surface_file (args : Args) (dir_file : string) : M string :=
  if negb (String.eqb (a_surf_file args) "") then mret (a_surf_file args) else
  let str_opt o := match o with Some v => py_str v | None => "None" end in
  xnum ← of_option (a_xnum args) TypeError;
  let surf_file :=
    dir_file +:+ "_[" +:+ str_opt (a_xmin args) +:+ "," +:+ str_opt (a_xmax args)
             +:+ "," +:+ pretty xnum +:+ "]" in
  surf_file ←
    (if str_truthy (a_y args) then
       ynum ← of_option (a_ynum args) TypeError;
       mret (surf_file +:+ "x[" +:+ str_opt (a_ymin args) +:+ ","
               +:+ str_opt (a_ymax args) +:+ "," +:+ pretty ynum +:+ "]")
     else mret surf_file);
  let surf_file := if a_raw_data args then surf_file +:+ "_rawdata" else surf_file in
  let surf_file :=
    if (1 <? a_data_split args)%Z then
      surf_file +:+ "_datasplit=" +:+ pretty (a_data_split args)
                +:+ "_splitidx=" +:+ pretty (a_split_idx args)
    else surf_file in
  mret (surf_file +:+ ".h5").

(** [get_net(lightning_module_class, model_file, ngpu)] *)
Definition get_net (model_file : string) : M (Weights * States) :=
  log (EvLoadModel model_file);;
  put_net (load model_file);;
  mret (get_weights (load model_file), state_dict (load model_file)).

(** [setup_dir_file(args, rank, net, comm)] *)
Definition setup_dir_file (args : Args) (rank : nat) (comm : Comm)
  : M (string * string * Directions) :=
  let dir_file := name_direction_file args in
  (if Nat.eqb rank 0 then log (EvSetupDirection dir_file) else mret tt);;
  surf_file ← name_surface_file args dir_file;
  (if Nat.eqb rank 0 then _ ← setup_surface_file args surf_file dir_file; mret tt
   else mret tt);;
  barrier comm;;
  log (EvLoadDirections dir_file);;
  barrier comm;;
  mret (dir_file, surf_file, load_directions dir_file).

(** [plot_surface(args, ..., train_dataloader, test_dataloader, save_to)] *)
Definition plot_surface (args : Args) (train_dataloader test_dataloader : option Dataloader)
    (save_to : option string) : M (string * string) :=
  py_assert (bool_decide (is_Some train_dataloader)
             || bool_decide (is_Some test_dataloader));;
  log EvSeed;;
  (if str_truthy save_to then log (EvMakedirs (default "" save_to)) else mret tt);;
  init ← init_plot_surface args;
  let '(args, comm, rank) := init : Args * Comm * nat in
  net ← get_net (a_model_file args);
  let '(w0, s) := net : Weights * States in
  files ← setup_dir_file args rank comm;
  let '(dir_file, surf_file, d) := files : string * string * Directions in
  let crunch_function := if a_mpi args then crunch else crunch_2 in
  let '(dataloaders, loss_keys, acc_keys) :=
    match train_dataloader with
    | Some dl => ([dl], ["train_loss"], ["train_acc"])
    | None => ([], [], [])
    end in
  let '(dataloaders, loss_keys, acc_keys) :=
    match test_dataloader with
    | Some dl =>
        ((dataloaders ++ [dl])%list, (loss_keys ++ ["test_loss"])%list,
         (acc_keys ++ ["test_acc"])%list)
    | None => (dataloaders, loss_keys, acc_keys)
    end in
  crunch_function surf_file w0 s d dataloaders loss_keys acc_keys comm rank args;;
  (if a_plot args && Nat.eqb rank 0 then log (EvPlot surf_file) else mret tt);;
  mret (dir_file, surf_file).

(** ** plot_hessian_eigen.py *)

(** [min_max_hessian_eigs(net, dataloader, evaluator, data_size, ...)] on the
    live net *)
Definition call_min_max_hessian_eigs (dl : Dataloader) : M (float * float * nat) :=
  w ← get_world;
  log (EvHessian (w_net w) dl);;
  mret (min_max_hessian_eigs (w_net w) dl).

(** Lines 52-61 (and 134-143): create or load the two eigenvalue fields;
    the result is [(min_eig, max_eig)]. *)
Definition load_eig_fields (f : Handle) (rank : nat)
    (xcoordinates : ndarray) (ycoordinates : option ndarray)
  : M (ndarray * ndarray) :=
  present ← h5_contains f "min_eig";
  if negb present then
    shp ← grid_shape xcoordinates ycoordinates;
    let max_eig := np_neg (np_ones shp) in
    let min_eig := np_ones shp in
    (if Nat.eqb rank 0 then
       h5_create f "min_eig" (DArr min_eig);;
       h5_create f "max_eig" (DArr max_eig)
     else mret tt);;
    mret (min_eig, max_eig)
  else
    min_eig ← h5_read f "min_eig";
    max_eig ← h5_read f "max_eig";
    mret (min_eig, max_eig).

(** Lines 47-61 (and 129-143): open the surface file, read the grid and
    create or load the two eigenvalue fields. *)
Definition open_eig_fields (surf_file : string) (rank : nat)
  : M (Handle * ndarray * option ndarray * (ndarray * ndarray)) :=
  f ← h5_open surf_file (if Nat.eqb rank 0 then ModeRW else ModeR);
  '(xcoordinates, ycoordinates) ← read_grid f;
  st ← load_eig_fields f rank xcoordinates ycoordinates;
  mret (f, xcoordinates, ycoordinates, st).

(** Lines 82-90 (and 163-171): compute the eigenvalues of the Hessian of
    the net and record them at index [ind]. *)
Definition eigs_and_record (dataloader : Dataloader) (ind : nat)
    (st : ndarray * ndarray) : M (ndarray * ndarray) :=
  let '(min_eig, max_eig) := st in
  result ← call_min_max_hessian_eigs dataloader;
  max_eig ← ravel_set max_eig ind result.1.1;
  min_eig ← ravel_set min_eig ind result.1.2;
  mret (min_eig, max_eig).

(** Lines 72-103: the body of the loop of [crunch_hessian_eigs]; the state
    is [(min_eig, max_eig)]. *)
Definition crunch_hessian_cell (f : Handle) (w0 : Weights) (s : States)
    (d : Directions) (dataloader : Dataloader) (comm : Comm) (rank : nat)
    (args : Args) (coords : list Coord) (st : ndarray * ndarray) (ci : nat * nat)
  : M (ndarray * ndarray) :=
  let '(count, ind) := ci in
  coord ← of_option (coords !! count) IndexError;
  load_weights args w0 s d coord;;
  st ← eigs_and_record dataloader ind st;
  let '(min_eig, max_eig) := st : ndarray * ndarray in
  max_eig ← reduce_max comm max_eig;
  min_eig ← reduce_min comm min_eig;
  (if Nat.eqb rank 0 then
     h5_assign f "max_eig" max_eig;;
     h5_assign f "min_eig" min_eig
   else mret tt);;
  mret (min_eig, max_eig).

(** Lines 115-117 *)
Definition keep_reducing_eigs (comm : Comm) (st : ndarray * ndarray) (i : nat)
  : M (ndarray * ndarray) :=
  let '(min_eig, max_eig) := st in
  max_eig ← reduce_max comm max_eig;
  min_eig ← reduce_min comm min_eig;
  mret (min_eig, max_eig).

(** [crunch_hessian_eigs]: the synchronized variant. *)
Definition crunch_hessian_eigs (surf_file : string) (w0 : Weights) (s : States)
    (d : Directions) (dataloader : Dataloader) (comm : Comm) (rank : nat)
    (args : Args) : M unit :=
  opened ← open_eig_fields surf_file rank;
  let '(f, xcoordinates, ycoordinates, st) :=
    opened : Handle * ndarray * option ndarray * (ndarray * ndarray) in
  let '(inds, coords, inds_nums) :=
    get_job_indices st.2 xcoordinates ycoordinates comm in
  st ← for_each (crunch_hessian_cell f w0 s d dataloader comm rank args coords)
         (enumerate inds) st;
  most ← py_max inds_nums;
  st ← for_each (keep_reducing_eigs comm) (seq 0 (most - length inds)) st;
  h5_close f.

(** Lines 153-171: the body of the loop of [crunch_hessian_eigs_2]. *)
Definition crunch_hessian_2_cell (w0 : Weights) (s : States) (d : Directions)
    (dataloader : Dataloader) (args : Args) (coords : list Coord)
    (st : ndarray * ndarray) (ci : nat * nat) : M (ndarray * ndarray) :=
  let '(count, ind) := ci in
  coord ← of_option (coords !! count) IndexError;
  load_weights args w0 s d coord;;
  eigs_and_record dataloader ind st.

(** [crunch_hessian_eigs_2]: the variant without synchronization. *)
Definition crunch_hessian_eigs_2 (surf_file : string) (w0 : Weights) (s : States)
    (d : Directions) (dataloader : Dataloader) (comm : Comm) (rank : nat)
    (args : Args) : M unit :=
  opened ← open_eig_fields surf_file rank;
  let '(f, xcoordinates, ycoordinates, st) :=
    opened : Handle * ndarray * option ndarray * (ndarray * ndarray) in
  let coords := all_coords xcoordinates ycoordinates in
  let inds := seq 0 (size st.2) in
  st ← for_each (crunch_hessian_2_cell w0 s d dataloader args coords)
         (enumerate inds) st;
  h5_assign f "max_eig" st.2;;
  h5_assign f "min_eig" st.1;;
  h5_close f.

(** [plot_hessian_eigen(args, lightning_module_class, dataloader, ...)] *)
Definition plot_hessian_eigen (args : Args) (dataloader : Dataloader)
  : M (string * string) :=
  log EvSeed;;
  env ← environment_setup args;
  let '(comm, rank) := env : Comm * nat in
  args ← check_resolution args;
  net ← get_net (a_model_file args);
  let '(w0, s) := net : Weights * States in
  files ← setup_dir_file args rank comm;
  let '(dir_file, surf_file, d) := files : string * string * Directions in
  let crunch_function :=
    if a_mpi args then crunch_hessian_eigs else crunch_hessian_eigs_2 in
  crunch_function surf_file w0 s d dataloader comm rank args;;
  (if a_plot args && Nat.eqb rank 0 then log (EvPlot surf_file) else mret tt);;
  mret (dir_file, surf_file).

(** ** Specification vocabulary *)

(** A triple for the monad: from a world satisfying [P], a normal return
    with [a] leaves a world satisfying [Q a], an exception [e] one
    satisfying [E e]. *)
Definition hoare {A} (P : World → Prop) (m : M A)
    (Q : A → World → Prop) (E : Exn → World → Prop) : Prop :=
  ∀ w, P w → match m w with (Ok a, w') => Q a w' | (Raise e, w') => E e w' end.

(** [J] holds after [m], however [m] ends, if it held before. *)
Definition preserves {A} (J : World → Prop) (m : M A) : Prop :=
  hoare J m (λ _, J) (λ _, J).

(** Calls of the evaluator (loss/accuracy or Hessian eigenvalues). *)
Definition is_eval (e : Event) : bool :=
  match e with EvEval _ _ | EvHessian _ _ => true | _ => false end.


Definition is_commit (e : Event) : bool :=
  match e with EvCommit _ _ => true | _ => false end.

Definition is_reduce (e : Event) : bool :=
  match e with EvReduce _ => true | _ => false end.

(** Perturbations of the live net. *)
Definition is_perturb (e : Event) : bool :=
  match e with EvSetWeights _ | EvSetStates _ => true | _ => false end.

(** I/O on the surface store or on the direction file. *)
Definition is_store_io (e : Event) : bool :=
  match e with
  | EvOpen _ _ | EvCreate _ _ | EvCommit _ _ | EvFlush _ | EvClose _
  | EvSetupDirection _ | EvLoadDirections _ | EvPlot _ => true
  | _ => false
  end.

Definition count_events (p : Event → bool) (t : list Event) : nat :=
  length (filter (λ e, p e = true) t).

(** The events that a run from [w] added to the log. *)
Definition emitted {A} (m : M A) (w : World) : list Event :=
  drop (length (w_trace w)) (w_trace (m w).2).

End Cruncher.

(** ** The job scheduler *)

(** The entries of [l] at the positions [r], [r + P], [r + 2 P], ... *)
Definition every_nth {A} (P r : nat) (l : list A) : list A :=
  snd <$> filter (λ ix : nat * A, ix.1 `mod` P = r) (enumerate l).

(** Modelled from the spec: [get_job_indices] of [scheduler.py] (the Grid &
    Job Partitioner).  The unfilled indices are the flat indices whose value
    still is the sentinel -1; worker [r] of [P] receives every [P]-th unfilled
    index starting at offset [r], with the coordinate of each index; the
    third component lists how many indices each worker received (the code
    takes its maximum). *)
Definition get_job_indices_spec (vals xcoordinates : ndarray)
    (ycoordinates : option ndarray) (comm : Comm)
  : list nat * list Coord * list nat :=
  let unfilled :=
    filter (λ i, default false ((λ v, PrimFloat.eqb v (-1)%float) <$> data vals !! i) = true)
      (seq 0 (size vals)) in
  let inds := every_nth (comm_size comm) (comm_rank comm) unfilled in
  let coords :=
    (λ i, default (Coord1 0%float) (all_coords xcoordinates ycoordinates !! i)) <$> inds in
  let inds_nums :=
    (λ r, length (every_nth (comm_size comm) r unfilled)) <$> seq 0 (comm_size comm) in
  (inds, coords, inds_nums).

(** ** A small instance for running the code

    A network with a single weight; the dataloader is the target value of
    the weight.  The loss is 1 on target and 2 off target, the accuracy 1
    or 0. *)
Definition toy_float (s : string) : option float :=
  if String.eqb s "-1" then Some (-1)%float
  else if String.eqb s "-0.5" then Some (-0.5)%float
  else if String.eqb s "0" then Some 0%float
  else if String.eqb s "0.5" then Some 0.5%float
  else if String.eqb s "1" then Some 1%float
  else if String.eqb s "2" then Some 2%float
  else if String.eqb s "3" then Some 3%float
  else if String.eqb s "5" then Some 5%float
  else if String.eqb s "51" then Some 51%float
  else None.

Definition toy_perturb (base : float) (d : list float) (coord : Coord) : float :=
  match coord with
  | Coord1 x => PrimFloat.add base (PrimFloat.mul x (default 0%float (d !! 0)))
  | Coord2 x y =>
      PrimFloat.add (PrimFloat.add base (PrimFloat.mul x (default 0%float (d !! 0))))
        (PrimFloat.mul y (default 0%float (d !! 1)))
  end.

Definition toy_evaluator (net target : float) : float * float :=
  if PrimFloat.eqb net target then (1%float, 1%float) else (2%float, 0%float).

#[export] Instance toy : Collaborators := {|
  Net := float;
  Dataloader := float;
  Weights := float;
  States := float;
  Directions := list float;
  set_weights net w d coord := toy_perturb w d coord;
  set_states net s d coord := toy_perturb s d coord;
  evaluator := toy_evaluator;
  min_max_hessian_eigs net target :=
    if PrimFloat.eqb net target then (2%float, 0.5%float, 1) else (3%float, 0.25%float, 2);
  get_job_indices := get_job_indices_spec;
  py_float := toy_float;
  py_str v := "?";
  load path := 0%float;
  get_weights net := net;
  state_dict net := net;
  name_direction_file args := a_model_file args +:+ "_dir.h5";
  load_directions path := [1%float; 1%float];
  cuda_is_available := false;
  setup_MPI := (0, 1);
|}.

Definition toy_args (x : string) (y : option string) (dir_type : string) (mpi : bool) : Args :=
  MkArgs x y None None None None None None dir_type mpi false false "model.ckpt" "surf.h5"
    false 0 0.

Definition toy_world (fs : gmap string (gmap string Dataset)) (peers : list ndarray) : World :=
  MkWorld fs 0%float peers [].

(** ** Sample stores *)

(** Every entry of the array is [v]. *)
Definition filled_with (v : float) (a : ndarray) : Prop :=
  data a = replicate (size a) v.

(** No entry of the array is (IEEE-)equal to [v]. *)
Definition free_of (v : float) (a : ndarray) : Prop :=
  Forall (λ x, PrimFloat.eqb x v = false) (data a).

Definition axis3 : ndarray := NdArray [3] [(-1)%float; 0%float; 1%float].

(** A surface file that holds the x axis and nothing else. *)
Definition fs_x_only : gmap string (gmap string Dataset) :=
  {[ "surf.h5" := {[ "xcoordinates" := DArr axis3 ]} ]}.

Section Vocabulary.
Context `{C : Collaborators}.

(** The world after dataset [key] of file [path] has been created. *)
Definition created (w : World) (path key : string) (ds : Dataset) : World :=
  MkWorld (<[path := <[key := ds]> (default ∅ (w_fs w !! path))]> (w_fs w))
    (w_net w) (w_peers w) (w_trace w ++ [EvCreate path key]).

End Vocabulary.

Section Vocabulary_files.
Context `{C : Collaborators}.

(** The world after event [e] has been logged. *)
Definition logged (w : World) (e : Event) : World :=
  MkWorld (w_fs w) (w_net w) (w_peers w) (w_trace w ++ [e]).

Definition has_dataset (w : World) (path key : string) : bool :=
  bool_decide (is_Some (lookup_dataset w path key)).

(** The test of line 59 of [setup_surface_file]. *)
Definition counts_as_set_up (args : Args) (w : World) (surf_file : string) : bool :=
  (str_truthy (a_y args) && has_dataset w surf_file "ycoordinates")
  || has_dataset w surf_file "xcoordinates".

(** The axes that the requested grid needs: [xcoordinates] for a 1-D grid,
    [xcoordinates] and [ycoordinates] for a 2-D grid. *)
Definition required_axes_present (args : Args) (w : World) (surf_file : string) : bool :=
  has_dataset w surf_file "xcoordinates"
  && (negb (str_truthy (a_y args)) || has_dataset w surf_file "ycoordinates").

End Vocabulary_files.

(** The arguments of a 2-D grid after the resolution check. *)
Definition args_2d : Args :=
  set_y_resolution
    (set_x_resolution (toy_args "-1:1:3" (Some "-1:1:3") "weights" false) (-1)%float 1%float 3)
    (-1)%float 1%float 3.

(** The arguments of the 1-D grid [-1:1:5] after the resolution check. *)
Definition args_1d : Args :=
  set_x_resolution (toy_args "-1:1:5" None "weights" false) (-1)%float 1%float 5.

Section Vocabulary_effects.
Context `{C : Collaborators}.

(** [m] leaves the world as it found it. *)
Definition read_only {A} (m : M A) : Prop := ∀ w, (m w).2 = w.

End Vocabulary_effects.

Section Vocabulary_resolution.
Context `{C : Collaborators}.

(** The three numbers of a resolution string of the form [min:max:num]:
    exactly three fields between colons, each one accepted by [float]. *)
Definition parsed_triple (str : string) : option (float * float * float) :=
  match mapM py_float (py_split ":"%char str) with
  | Some [a; b; c] => Some (a, b, c)
  | _ => None
  end.

Definition well_formed (str : string) : bool :=
  bool_decide (is_Some (parsed_triple str)).

Definition improper_format : string :=
  "Improper format for x- or y-coordinates. Try something like -1:1:51".

Definition cuda_not_available : string :=
  "User selected cuda option, but cuda is not available on this machine".

(** From [w] on, the files are untouched and only events outside the
    surface store and the direction file have been logged. *)
Definition no_store_io_since (w0 w : World) : Prop :=
  w_fs w = w_fs w0
  ∧ ∃ t, w_trace w = w_trace w0 ++ t ∧ Forall (λ e, is_store_io e = false) t.

End Vocabulary_resolution.

Section Vocabulary_perturbation.
Context `{C : Collaborators}.



End Vocabulary_perturbation.

Section Vocabulary_counting.
Context `{C : Collaborators}.

(** From [w0] on, exactly [k] events that satisfy [p] have been logged. *)
Definition counted_since (p : Event → bool) (w0 : World) (k : nat) (w : World) : Prop :=
  ∃ t, w_trace w = w_trace w0 ++ t ∧ count_events p t = k.

(** The dataset that the file system [fs] holds under [key] in file [path]. *)
Definition fs_dataset (fs : gmap string (gmap string Dataset)) (path key : string)
  : option Dataset :=
  fs !! path ≫= λ file, file !! key.

End Vocabulary_counting.

(** A surface file of a finished 1-D run: every field is filled. *)
Definition fs_complete : gmap string (gmap string Dataset) :=
  {[ "surf.h5" :=
       {[ "xcoordinates" := DArr axis3;
          "train_loss" := DArr (NdArray [3] [2%float; 1%float; 2%float]);
          "train_acc" := DArr (NdArray [3] [0%float; 1%float; 0%float]);
          "max_eig" := DArr (NdArray [3] [3%float; 2%float; 3%float]);
          "min_eig" := DArr (NdArray [3] [0.25%float; 0.5%float; 0.25%float]) ]} ]}.

(** The commits of lines 235-237 of [crunch_2]: both arrays of every
    dataloader, in order. *)
Definition final_commits `{C : Collaborators} (surf_file : string)
    (loss_keys acc_keys : list string) : list Event :=
  p ← zip loss_keys acc_keys; [EvCommit surf_file p.1; EvCommit surf_file p.2].

(** The arguments of the 1-D grid [-1:1:5] after the resolution check,
    for a given direction type. *)
Definition args_example (dir_type : string) : Args :=
  set_x_resolution (toy_args "-1:1:5" None dir_type false) (-1)%float 1%float 5.

(** A surface file on which nothing has been computed yet: the fields of
    two dataloaders exist and every cell is at the sentinel. *)
Definition unfilled3 : ndarray := NdArray [3] [(-1)%float; (-1)%float; (-1)%float].

Definition fs_fresh : gmap string (gmap string Dataset) :=
  {[ "surf.h5" :=
       {[ "xcoordinates" := DArr axis3;
          "train_loss" := DArr unfilled3;
          "train_acc" := DArr unfilled3;
          "test_loss" := DArr unfilled3;
          "test_acc" := DArr unfilled3 ]} ]}.

(** What a peer that has computed nothing contributes to [n] collective
    calls. *)
Definition idle_peer (n : nat) : list ndarray := replicate n unfilled3.

(** ** More of the two modules, and more vocabulary *)


(** A surface file that was created but holds no axis. *)
Definition fs_no_axes : gmap string (gmap string Dataset) :=
  {[ "surf.h5" := {[ "dir_file" := DStr "dir.h5" ]} ]}.

Section Vocabulary_grid.
Context `{C : Collaborators}.

(** The surface file [sf] holds the x axis [xs] and, for a 2-D grid, the y
    axis [ys]. *)
Definition stored_grid (w : World) (sf : string) (xs : ndarray) (ys : option ndarray)
  : Prop :=
  lookup_dataset w sf "xcoordinates" = Some (DArr xs)
  ∧ lookup_dataset w sf "ycoordinates" = DArr <$> ys.

End Vocabulary_grid.

(** A surface file with the eigenvalue fields on which nothing has been
    computed yet. *)
Definition fs_fresh_eigs : gmap string (gmap string Dataset) :=
  {[ "surf.h5" :=
       {[ "xcoordinates" := DArr axis3;
          "min_eig" := DArr (NdArray [3] [1%float; 1%float; 1%float]);
          "max_eig" := DArr unfilled3 ]} ]}.

Section Vocabulary_follower.
Context `{C : Collaborators}.

(** The files are those of [fs0]. *)
Definition files_are (fs0 : gmap string (gmap string Dataset)) (w : World) : Prop :=
  w_fs w = fs0.

End Vocabulary_follower.

(** A second process of a run over two processes: the collaborators of the
    small instance, with the communicator of rank 1. *)
Definition toy_follower : Collaborators := {|
  Net := float;
  Dataloader := float;
  Weights := float;
  States := float;
  Directions := list float;
  set_weights net w d coord := toy_perturb w d coord;
  set_states net s d coord := toy_perturb s d coord;
  evaluator := toy_evaluator;
  min_max_hessian_eigs net target :=
    if PrimFloat.eqb net target then (2%float, 0.5%float, 1) else (3%float, 0.25%float, 2);
  get_job_indices := get_job_indices_spec;
  py_float := toy_float;
  py_str v := "?";
  load path := 0%float;
  get_weights net := net;
  state_dict net := net;
  name_direction_file args := a_model_file args +:+ "_dir.h5";
  load_directions path := [1%float; 1%float];
  cuda_is_available := false;
  setup_MPI := (1, 2);
|}.

Section Vocabulary_frame.
Context `{C : Collaborators}.

(** Between [w0] and [w] nothing but the datasets [keys] of the file [sf]
    has changed in the file system. *)
Definition only_touched (sf : string) (keys : list string) (w0 w : World) : Prop :=
  (∀ path, path ≠ sf → w_fs w !! path = w_fs w0 !! path)
  ∧ (is_Some (w_fs w !! sf) ↔ is_Some (w_fs w0 !! sf))
  ∧ (∀ k, k ∉ keys → lookup_dataset w sf k = lookup_dataset w0 sf k).

End Vocabulary_frame.

Section Vocabulary_flush.
Context `{C : Collaborators}.

Definition is_flush (e : Event) : bool :=
  match e with EvFlush _ => true | _ => false end.

End Vocabulary_flush.

Section Vocabulary_surface.
Context `{C : Collaborators}.

(** The net that lines 118-121 leave when they load the weights of
    [coord] into [net]. *)
Definition perturbed (args : Args) (wt : Weights) (s : States) (d : Directions)
    (net : Net) (coord : Coord) : Net :=
  if String.eqb (a_dir_type args) "weights" then set_weights net wt d coord
  else if String.eqb (a_dir_type args) "states" then set_states net s d coord
  else net.

(** The net on which cell [i] is evaluated when the cells are visited in
    the order of [coords], starting with the net [net0]. *)
Definition net_at (args : Args) (wt : Weights) (s : States) (d : Directions)
    (net0 : Net) (coords : list Coord) (i : nat) : Net :=
  foldl (perturbed args wt s d) net0 (take (S i) coords).

End Vocabulary_surface.

(** Python's [l[i]] on a list: a negative index counts from the end;
    [None] is the [IndexError]. *)
Definition py_index {A} (l : list A) (i : Z) : option A :=
  if (0 <=? i)%Z then l !! Z.to_nat i
  else if (- Z.of_nat (length l) <=? i)%Z then l !! Z.to_nat (Z.of_nat (length l) + i)
  else None.

(** How lines 423-429 of [plot_surface_list] end for an epoch: with the two
    model files chosen, in the [IndexError] of a list access, or in
    [RuntimeError("Wrong direction!")]. *)
Inductive Selection :=
| Selected (model_file model_file2 : string)
| SelectionIndexError
| WrongDirection.

(** Lines 423-429 of [plot_surface_list]: the model file of the epoch and
    the second model file that fixes the direction. *)
Definition select_model_files (direction : string) (model_files : list string)
    (epoch : Z) : Selection :=
  match py_index model_files epoch with
  | None => SelectionIndexError
  | Some model_file =>
      let second (o : option string) :=
        match o with
        | Some model_file2 => Selected model_file model_file2
        | None => SelectionIndexError
        end in
      if String.eqb direction "random" then Selected model_file ""
      else if String.eqb direction "from_init" then second (py_index model_files 0)
      else if String.eqb direction "i-1" then second (py_index model_files (epoch - 1))
      else if String.eqb direction "i+1" then second (py_index model_files (epoch + 1))
      else if String.eqb direction "until_end" then second (py_index model_files (-1))
      else WrongDirection
  end.

Section Plot_list.
Context `{C : Collaborators}.

(** [get_data_from_file(surf_file, plot_type)].  For a plot type other than
    ["1d"] the name [data] is never bound and the [return] raises
    [UnboundLocalError], a [NameError]. *)
Definition get_data_from_file (surf_file plot_type : string) : M (gmap string ndarray) :=
  f ← h5_open surf_file ModeR;
  data ← (if String.eqb plot_type "1d" then
            has_train ← h5_contains f "train_loss";
            py_assert has_train;;
            xcoordinates ← h5_read f "xcoordinates";
            train_loss ← h5_read f "train_loss";
            train_acc ← h5_read f "train_acc";
            let data : gmap string ndarray :=
              <["train_acc" := train_acc]>
                (<["train_loss" := train_loss]> {[ "xcoordinates" := xcoordinates ]}) in
            has_test ← h5_contains f "test_loss";
            if has_test : bool then
              test_loss ← h5_read f "test_loss";
              test_acc ← h5_read f "test_acc";
              mret (Some (<["test_acc" := test_acc]> (<["test_loss" := test_loss]> data)))
            else mret (Some data)
          else mret None);
  h5_close f;;
  of_option data NameError.



End Plot_list.

(** * Properties *)

Section Reasoning.
Context `{C : Collaborators}.

Lemma run_bind {A B} (m : M A) (f : A → M B) w :
  (m ≫= f) w = match m w with
               | (Ok a, w') => f a w'
               | (Raise e, w') => (Raise e, w')
               end.
Proof. reflexivity. Qed.

Lemma run_ret {A} (a : A) w : (mret a : M A) w = (Ok a, w).
Proof. reflexivity. Qed.

Lemma hoare_ret {A} (P : World → Prop) (a : A) Q E :
  (∀ w, P w → Q a w) → hoare P (mret a) Q E.
Proof. intros H w Hw. cbn. auto. Qed.

Lemma hoare_raise {A} (P : World → Prop) e (Q : A → World → Prop) E :
  (∀ w, P w → E e w) → hoare P (raise e) Q E.
Proof. intros H w Hw. cbn. auto. Qed.

Lemma hoare_bind {A B} P (m : M A) (f : A → M B) R Q E :
  hoare P m R E → (∀ a, hoare (R a) (f a) Q E) → hoare P (m ≫= f) Q E.
Proof.
  intros Hm Hf w Hw. rewrite run_bind. specialize (Hm w Hw).
  destruct (m w) as [[a|e] w']; [by apply Hf | done].
Qed.

Lemma hoare_conseq {A} (P P' : World → Prop) (m : M A) (Q Q' : A → World → Prop)
    (E E' : Exn → World → Prop) :
  hoare P' m Q' E' → (∀ w, P w → P' w) → (∀ a w, Q' a w → Q a w) →
  (∀ e w, E' e w → E e w) → hoare P m Q E.
Proof.
  intros H HP HQ HE w Hw. specialize (H w (HP w Hw)).
  destruct (m w) as [[a|e] w']; auto.
Qed.

Lemma hoare_conj {A} P P' (m : M A) Q Q' E E' :
  hoare P m Q E → hoare P' m Q' E' →
  hoare (λ w, P w ∧ P' w) m (λ a w, Q a w ∧ Q' a w) (λ e w, E e w ∧ E' e w).
Proof.
  intros H H' w [Hw Hw']. specialize (H w Hw). specialize (H' w Hw').
  destruct (m w) as [[a|e] w']; auto.
Qed.

Lemma hoare_for_each {X S} (body : S → X → M S) (I : S → World → Prop) E l s :
  (∀ s x, x ∈ l → hoare (I s) (body s x) I E) →
  hoare (I s) (for_each body l s) I E.
Proof.
  revert s. induction l as [|x l IH]; intros s Hbody; cbn [for_each].
  - by apply hoare_ret.
  - eapply hoare_bind.
    + apply Hbody. left.
    + intros s'. apply IH. intros s'' y Hy. apply Hbody. by right.
Qed.

Lemma hoare_get_world (P : World → Prop) E :
  hoare P get_world (λ w0 w, w0 = w ∧ P w) E.
Proof. intros w Hw. cbn. auto. Qed.

Lemma hoare_of_option {A} (P : World → Prop) (o : option A) e E :
  (∀ w, P w → E e w) → hoare P (of_option o e) (λ a w, o = Some a ∧ P w) E.
Proof. intros HE w Hw. destruct o; cbn; auto. Qed.

Lemma hoare_assert (P : World → Prop) b E :
  (∀ w, P w → E AssertionError w) → hoare P (py_assert b) (λ _ w, b = true ∧ P w) E.
Proof. intros HE w Hw. destruct b; cbn; auto. Qed.

(** ** What the h5py operations do *)

Lemma h5_contains_run f k w :
  h5_contains f k w = (Ok (bool_decide (is_Some (lookup_dataset w (h_path f) k))), w).
Proof. reflexivity. Qed.

Lemma h5_create_Ok f k ds w r w' :
  h5_create f k ds w = (Ok r, w') →
  h_mode f ≠ ModeR ∧ lookup_dataset w (h_path f) k = None
  ∧ w' = created w (h_path f) k ds.
Proof.
  unfold h5_create. intros H.
  destruct (h_mode f); [done| |];
    rewrite run_bind in H; cbn in H;
    destruct (lookup_dataset w (h_path f) k); [done| |done|];
    cbn in H; injection H as _ <-; done.
Qed.

Lemma lookup_dataset_created w path key ds k :
  lookup_dataset (created w path key ds) path k =
  if decide (key = k) then Some ds else lookup_dataset w path k.
Proof.
  unfold lookup_dataset, created. cbn. rewrite lookup_insert_eq. cbn.
  rewrite lookup_insert. destruct (decide (key = k)); [done|].
  destruct (w_fs w !! path); cbn; [done|]. by rewrite lookup_empty.
Qed.

Lemma filled_with_neg_ones shp : filled_with (-1)%float (np_neg (np_ones shp)).
Proof.
  unfold filled_with, np_neg, np_ones, size. cbn.
  rewrite length_fmap, length_replicate, fmap_replicate. reflexivity.
Qed.

Lemma filled_with_ones shp : filled_with 1%float (np_ones shp).
Proof.
  unfold filled_with, np_ones, size. cbn. by rewrite length_replicate.
Qed.

(** ** C1: the sentinels of created fields *)

(** C1 (as amended): a field that is created because it is absent from the
    surface file is filled with its sentinel, which is -1 for every loss
    and accuracy field and for the max-eigenvalue field, and +1 for the
    min-eigenvalue field.  The first part is a round of the loop of
    [crunch] and [crunch_2] that takes the creating branch, the second the
    creating branch of [crunch_hessian_eigs] and [crunch_hessian_eigs_2]. *)
Theorem C1_created_fields_hold_sentinel :
  (∀ f shp losses accs lk ak w st w',
     lookup_dataset w (h_path f) lk = None →
     load_field_pair f shp (losses, accs) (lk, ak) w = (Ok st, w') →
     ∃ l a, st.1 !! lk = Some l ∧ st.2 !! ak = Some a
       ∧ filled_with (-1)%float l ∧ filled_with (-1)%float a
       ∧ shape l = shp ∧ shape a = shp
       ∧ lookup_dataset w' (h_path f) lk = Some (DArr l)
       ∧ lookup_dataset w' (h_path f) ak = Some (DArr a))
  ∧ (∀ f rank xs ys w min_eig max_eig w',
     lookup_dataset w (h_path f) "min_eig" = None →
     load_eig_fields f rank xs ys w = (Ok (min_eig, max_eig), w') →
     filled_with (-1)%float max_eig ∧ filled_with 1%float min_eig
     ∧ shape max_eig = shape min_eig
     ∧ (rank = 0 →
        lookup_dataset w' (h_path f) "max_eig" = Some (DArr max_eig)
        ∧ lookup_dataset w' (h_path f) "min_eig" = Some (DArr min_eig))).
Proof.
  split.
  - intros f shp losses accs lk ak w st w' Habs H.
    unfold load_field_pair in H. rewrite run_bind, h5_contains_run, Habs in H.
    rewrite bool_decide_eq_false_2 in H by (by intros [? ?]).
    cbn [negb] in H. rewrite run_bind in H.
    destruct (h5_create f lk _ w) as [[[]|e] w1] eqn:H1; [|done].
    apply h5_create_Ok in H1 as (_ & _ & ->).
    rewrite run_bind in H.
    destruct (h5_create f ak _ _) as [[[]|e] w2] eqn:H2; [|done].
    apply h5_create_Ok in H2 as (_ & Hak & ->).
    rewrite lookup_dataset_created in Hak. destruct (decide (lk = ak)) as [|Hne]; [done|].
    cbn in H. injection H as <- <-.
    eexists _, _. cbn. rewrite !lookup_insert_eq.
    repeat split; try apply filled_with_neg_ones.
    + rewrite !lookup_dataset_created. rewrite decide_False by done.
      by rewrite decide_True.
    + rewrite lookup_dataset_created. by rewrite decide_True.
  - intros f rank xs ys w min_eig max_eig w' Habs H.
    unfold load_eig_fields in H. rewrite run_bind, h5_contains_run, Habs in H.
    rewrite bool_decide_eq_false_2 in H by (by intros [? ?]).
    cbn [negb] in H. rewrite run_bind in H.
    destruct (grid_shape xs ys w) as [[shp|e] w1] eqn:Hs; [|done].
    rewrite run_bind in H.
    destruct (Nat.eqb rank 0) eqn:Hr.
    + rewrite run_bind in H.
      destruct (h5_create f "min_eig" _ w1) as [[[]|e] w2] eqn:H1; [|done].
      apply h5_create_Ok in H1 as (_ & _ & ->).
      destruct (h5_create f "max_eig" _ _) as [[[]|e] w3] eqn:H2; [|done].
      apply h5_create_Ok in H2 as (_ & _ & ->).
      cbn in H. injection H as <- <- <-.
      repeat split; try apply filled_with_neg_ones; try apply filled_with_ones.
      * rewrite lookup_dataset_created. by rewrite decide_True.
      * rewrite !lookup_dataset_created. rewrite decide_False by done.
        by rewrite decide_True.
    + cbn in H. injection H as <- <- <-.
      repeat split; try apply filled_with_neg_ones; try apply filled_with_ones.
      all: subst rank; done.
Qed.

(** ** C5: setting up the surface file *)

Lemma hoare_trivial {A} (P : World → Prop) (m : M A) :
  hoare P m (λ _ _, True) (λ _ _, True).
Proof. intros w _. by destruct (m w) as [[|] ?]. Qed.

Lemma log_run e w : log e w = (Ok tt, logged w e).
Proof. reflexivity. Qed.

Lemma h5_create_run f k ds w :
  h_mode f ≠ ModeR → lookup_dataset w (h_path f) k = None →
  h5_create f k ds w = (Ok tt, created w (h_path f) k ds).
Proof.
  intros Hm Hk. unfold h5_create.
  destruct (h_mode f); [done| |]; rewrite run_bind; cbn; rewrite Hk; reflexivity.
Qed.

Lemma of_option_Some {A} (a : A) e w : of_option (Some a) e w = (Ok a, w).
Proof. reflexivity. Qed.

Lemma np_linspace_run start stop num w :
  (0 ≤ num)%Z → np_linspace start stop num w = (Ok (linspace_array start stop num), w).
Proof. intros H. unfold np_linspace. by rewrite (proj2 (Z.ltb_ge _ _)). Qed.

Lemma h5_open_new path w :
  w_fs w !! path = None →
  h5_open path ModeA w =
  (Ok (MkHandle path ModeA),
   logged (MkWorld (<[path := ∅]> (w_fs w)) (w_net w) (w_peers w) (w_trace w))
     (EvOpen path ModeA)).
Proof. intros H. unfold h5_open. rewrite run_bind. cbn [get_world]. by rewrite H. Qed.

Lemma already_set_up_run args sf w :
  already_set_up args sf w =
  match w_fs w !! sf with
  | Some _ =>
      if counts_as_set_up args w sf
      then (Ok true, logged (logged w (EvOpen sf ModeR)) (EvClose sf))
      else (Ok false, logged w (EvOpen sf ModeR))
  | None => (Ok false, w)
  end.
Proof.
  unfold already_set_up. rewrite run_bind. cbn [get_world].
  destruct (w_fs w !! sf) as [file|] eqn:Hf.
  - rewrite bool_decide_eq_true_2 by eauto.
    unfold h5_open. rewrite !run_bind. cbn [get_world]. rewrite Hf.
    rewrite run_bind, log_run. cbn [mret M_ret].
    rewrite run_bind, h5_contains_run, run_bind, h5_contains_run. cbn [h_path].
    change (lookup_dataset (logged w (EvOpen sf ModeR))) with (lookup_dataset w).
    fold (has_dataset w sf "ycoordinates"). fold (has_dataset w sf "xcoordinates").
    fold (counts_as_set_up args w sf).
    destruct (counts_as_set_up args w sf); reflexivity.
  - rewrite bool_decide_eq_false_2 by (by intros [? ?]). reflexivity.
Qed.

Lemma write_axes_not_None args sf df w : (write_axes args sf df w).1 ≠ Ok None.
Proof.
  assert (H : hoare (λ _, True) (write_axes args sf df) (λ r _, r = Some sf) (λ _ _, True)).
  { unfold write_axes.
    repeat (eapply hoare_bind; [apply hoare_trivial|intros]).
    by apply hoare_ret. }
  specialize (H w I). destruct (write_axes args sf df w) as [[r|e] w']; cbn; congruence.
Qed.

(** On a path without a file, [write_axes] creates the file with the
    back-reference and the axes. *)
Lemma write_axes_creates args sf df w xmin xmax xnum :
  w_fs w !! sf = None →
  a_xmin args = Some xmin → a_xmax args = Some xmax → a_xnum args = Some xnum →
  (0 ≤ xnum)%Z →
  (if str_truthy (a_y args)
   then ∃ ymin ymax ynum, a_ymin args = Some ymin ∧ a_ymax args = Some ymax
                          ∧ a_ynum args = Some ynum ∧ (0 ≤ ynum)%Z
   else True) →
  ∃ w', write_axes args sf df w = (Ok (Some sf), w')
    ∧ lookup_dataset w' sf "dir_file" = Some (DStr df)
    ∧ lookup_dataset w' sf "xcoordinates" = Some (DArr (linspace_array xmin xmax xnum))
    ∧ lookup_dataset w' sf "ycoordinates" =
        (if str_truthy (a_y args)
         then ymin ← a_ymin args; ymax ← a_ymax args; ynum ← a_ynum args;
              Some (DArr (linspace_array ymin ymax ynum))
         else None).
Proof.
  intros Hf Hxmin Hxmax Hxnum Hx Hy.
  unfold write_axes. rewrite run_bind, (h5_open_new _ _ Hf).
  set (w1 := logged _ _).
  assert (Hw1 : ∀ k, lookup_dataset w1 sf k = None).
  { intros k. unfold lookup_dataset, w1. cbn. rewrite lookup_insert_eq. cbn.
    apply lookup_empty. }
  rewrite run_bind, h5_create_run by (try done; apply Hw1). cbn [h_path].
  set (w2 := created w1 sf "dir_file" _).
  rewrite Hxmin, Hxmax, Hxnum.
  do 3 rewrite run_bind, of_option_Some.
  rewrite run_bind, np_linspace_run by done.
  rewrite run_bind, h5_create_run; cbn [h_path]; try done.
  2:{ unfold w2. rewrite lookup_dataset_created. rewrite decide_False by done. apply Hw1. }
  set (w3 := created w2 sf "xcoordinates" _).
  assert (H3 : lookup_dataset w3 sf "ycoordinates" = None).
  { unfold w3, w2. rewrite !lookup_dataset_created. rewrite !decide_False by done. apply Hw1. }
  destruct (str_truthy (a_y args)).
  - destruct Hy as (ymin & ymax & ynum & -> & -> & -> & Hyn).
    rewrite run_bind. do 3 rewrite run_bind, of_option_Some.
    rewrite run_bind, np_linspace_run by done.
    rewrite h5_create_run by done. cbn [h_path].
    unfold h5_close. rewrite run_bind, log_run, run_ret.
    eexists. split; [reflexivity|].
    change (lookup_dataset (logged ?w ?e)) with (lookup_dataset w).
    unfold w3, w2. rewrite !lookup_dataset_created.
    repeat split; repeat (first [rewrite decide_True by done | rewrite decide_False by done]); done.
  - rewrite run_bind, run_ret. unfold h5_close. rewrite run_bind, log_run, run_ret.
    eexists. split; [reflexivity|].
    change (lookup_dataset (logged ?w ?e)) with (lookup_dataset w).
    split; [|split; [|done]].
    + unfold w3, w2. rewrite !lookup_dataset_created.
      repeat (first [rewrite decide_True by done | rewrite decide_False by done]); done.
    + unfold w3. rewrite !lookup_dataset_created. by rewrite decide_True.
Qed.

(** C5 (as amended): [setup_surface_file] creates the file and writes the
    back-reference to the direction file and the coordinate axes when the
    file does not exist; it is a no-op (the early return, which leaves every
    file as it was) if and only if the file exists and holds [xcoordinates],
    or holds [ycoordinates] when a y axis was requested; in particular it is
    a no-op when the file exists and holds all the axes that the requested
    grid needs. *)
Theorem C5_setup_surface_file args sf df w :
  ((setup_surface_file args sf df w).1 = Ok None
   ↔ is_Some (w_fs w !! sf) ∧ counts_as_set_up args w sf = true)
  ∧ (is_Some (w_fs w !! sf) ∧ required_axes_present args w sf = true →
     (setup_surface_file args sf df w).1 = Ok None)
  ∧ ((setup_surface_file args sf df w).1 = Ok None →
     w_fs (setup_surface_file args sf df w).2 = w_fs w)
  ∧ (w_fs w !! sf = None →
     ∀ xmin xmax xnum,
       a_xmin args = Some xmin → a_xmax args = Some xmax → a_xnum args = Some xnum →
       (0 ≤ xnum)%Z →
       (if str_truthy (a_y args)
        then ∃ ymin ymax ynum, a_ymin args = Some ymin ∧ a_ymax args = Some ymax
                               ∧ a_ynum args = Some ynum ∧ (0 ≤ ynum)%Z
        else True) →
       (setup_surface_file args sf df w).1 = Ok (Some sf)
       ∧ lookup_dataset (setup_surface_file args sf df w).2 sf "dir_file" = Some (DStr df)
       ∧ lookup_dataset (setup_surface_file args sf df w).2 sf "xcoordinates"
         = Some (DArr (linspace_array xmin xmax xnum))
       ∧ lookup_dataset (setup_surface_file args sf df w).2 sf "ycoordinates"
         = (if str_truthy (a_y args)
            then ymin ← a_ymin args; ymax ← a_ymax args; ynum ← a_ynum args;
                 Some (DArr (linspace_array ymin ymax ynum))
            else None)).
Proof.
  assert (Hreq : required_axes_present args w sf = true → counts_as_set_up args w sf = true).
  { unfold required_axes_present, counts_as_set_up.
    intros [-> _]%andb_true_iff. apply orb_true_r. }
  unfold setup_surface_file. rewrite run_bind, already_set_up_run.
  destruct (w_fs w !! sf) as [file|] eqn:Hf.
  - destruct (counts_as_set_up args w sf) eqn:Hc; cbn [mret M_ret fst snd].
    + split; [|split; [|split]]; [split; eauto|done|done|done].
    + split; [|split; [|split]]; [split|..]; try done.
      * intros H. by apply write_axes_not_None in H.
      * by intros [_ ?].
      * intros [_ H]. by apply Hreq in H.
      * intros H. by apply write_axes_not_None in H.
  - split; [|split; [|split]]; [split|..].
    + intros H. by apply write_axes_not_None in H.
    + intros [[? ?] _]. done.
    + intros [[? ?] _]. done.
    + intros H. by apply write_axes_not_None in H.
    + intros _ xmin xmax xnum Hxmin Hxmax Hxnum Hx Hy.
      edestruct (write_axes_creates args sf df w) as (w' & -> & ? & ? & ?); eauto.
Qed.

(** ** Computations that only read *)

Lemma read_only_ret {A} (a : A) : read_only (mret a).
Proof. by intros w. Qed.

Lemma read_only_raise {A} e : read_only (raise e : M A).
Proof. by intros w. Qed.

Lemma read_only_bind {A B} (m : M A) (f : A → M B) :
  read_only m → (∀ a, read_only (f a)) → read_only (m ≫= f).
Proof.
  intros Hm Hf w. rewrite run_bind. specialize (Hm w).
  destruct (m w) as [[a|e] w']; cbn in *; subst; [apply Hf | done].
Qed.

Lemma read_only_for_each {X S} (body : S → X → M S) l s :
  (∀ s x, read_only (body s x)) → read_only (for_each body l s).
Proof.
  intros Hb. revert s. induction l as [|x l IH]; intros s; cbn [for_each].
  - apply read_only_ret.
  - apply read_only_bind; auto.
Qed.

Lemma read_only_get_world : read_only get_world.
Proof. by intros w. Qed.

Lemma read_only_of_option {A} (o : option A) e : read_only (of_option o e).
Proof. destruct o; [apply read_only_ret | apply read_only_raise]. Qed.

Lemma read_only_assert b : read_only (py_assert b).
Proof. destruct b; [apply read_only_ret | apply read_only_raise]. Qed.

Ltac read_only_tac :=
  repeat first
    [ apply read_only_ret | apply read_only_raise | apply read_only_get_world
    | apply read_only_of_option | apply read_only_assert
    | apply read_only_bind; [|intros]
    | apply read_only_for_each; intros
    | match goal with
      | |- read_only (match ?x with _ => _ end) => destruct x
      | |- read_only (if ?b then _ else _) => destruct b
      end
    | assumption ].

Lemma read_only_h5_contains f k : read_only (h5_contains f k).
Proof. unfold h5_contains. read_only_tac. Qed.

Lemma read_only_h5_get f k : read_only (h5_get f k).
Proof. unfold h5_get. read_only_tac. Qed.

Lemma read_only_h5_read f k : read_only (h5_read f k).
Proof. unfold h5_read. pose proof (read_only_h5_get f k). read_only_tac. Qed.

Lemma read_only_ravel_set a ind v : read_only (ravel_set a ind v).
Proof. unfold ravel_set. read_only_tac. Qed.

Lemma read_only_np_len a : read_only (np_len a).
Proof. unfold np_len. read_only_tac. Qed.

Lemma read_only_py_max l : read_only (py_max l).
Proof. unfold py_max. read_only_tac. Qed.

Lemma read_only_np_linspace a b n : read_only (np_linspace a b n).
Proof. unfold np_linspace. read_only_tac. Qed.

Lemma read_only_grid_shape xs ys : read_only (grid_shape xs ys).
Proof.
  unfold grid_shape. pose proof read_only_np_len. read_only_tac; auto.
Qed.

Lemma read_only_read_grid f : read_only (read_grid f).
Proof.
  unfold read_grid. pose proof (read_only_h5_read f). pose proof (read_only_h5_contains f).
  read_only_tac; auto.
Qed.

Lemma read_only_record_result ind loss acc lk ak st :
  read_only (record_result ind loss acc lk ak st).
Proof.
  unfold record_result. destruct st. pose proof read_only_ravel_set.
  read_only_tac; auto.
Qed.

Lemma hoare_read_only {A} (P : World → Prop) (m : M A) :
  read_only m → hoare P m (λ _, P) (λ _, P).
Proof.
  intros Hm w Hw. specialize (Hm w). destruct (m w) as [[a|e] w']; cbn in *; by subst.
Qed.

(** ** Invariants of the log *)

Lemma preserves_ret {A} J (a : A) : preserves J (mret a).
Proof. by apply hoare_ret. Qed.

Lemma preserves_raise {A} J e : preserves J (raise e : M A).
Proof. by apply hoare_raise. Qed.

Lemma preserves_bind {A B} J (m : M A) (f : A → M B) :
  preserves J m → (∀ a, preserves J (f a)) → preserves J (m ≫= f).
Proof. intros Hm Hf. eapply hoare_bind; [apply Hm | apply Hf]. Qed.

Lemma preserves_for_each {X S} J (body : S → X → M S) l s :
  (∀ s x, preserves J (body s x)) → preserves J (for_each body l s).
Proof.
  intros Hb. apply (hoare_for_each body (λ _, J)). intros. apply Hb.
Qed.

Lemma preserves_read_only {A} J (m : M A) : read_only m → preserves J m.
Proof. apply hoare_read_only. Qed.

Lemma hoare_pure_pre {A} (P : World → Prop) (fact : Prop) (m : M A) Q E :
  (fact → hoare P m Q E) → hoare (λ w, P w ∧ fact) m Q E.
Proof. intros H w [Hw Hfact]. by apply H. Qed.

Lemma hoare_read_only_frame {A} (P : World → Prop) (m : M A) (E : Exn → World → Prop) :
  read_only m → (∀ e w, P w → E e w) → hoare P m (λ _, P) E.
Proof.
  intros Hm HE w Hw. specialize (Hm w).
  destruct (m w) as [[a|e] w']; cbn in *; subst; auto.
Qed.

Lemma hoare_of_option_val {A} (P : World → Prop) (o : option A) e E :
  (∀ w, P w → E e w) → hoare P (of_option o e) (λ a w, P w ∧ o = Some a) E.
Proof. intros HE w Hw. destruct o; cbn; auto. Qed.

Lemma hoare_assert_val (P : World → Prop) b E :
  (∀ w, P w → E AssertionError w) → hoare P (py_assert b) (λ _ w, P w ∧ b = true) E.
Proof. intros HE w Hw. destruct b; cbn; auto. Qed.

Section Stable.
Variable J : World → Prop.
Variable ok : Event → Prop.
Hypothesis J_log : ∀ w e, J w → ok e → J (logged w e).
Hypothesis J_fs : ∀ w fs, J w → J (MkWorld fs (w_net w) (w_peers w) (w_trace w)).
Hypothesis J_peers : ∀ w ps, J w → J (MkWorld (w_fs w) (w_net w) ps (w_trace w)).
Hypothesis ok_open : ∀ path mode, ok (EvOpen path mode).
Hypothesis ok_create : ∀ path key, ok (EvCreate path key).
Hypothesis ok_commit : ∀ path key, ok (EvCommit path key).
Hypothesis ok_flush : ∀ path, ok (EvFlush path).
Hypothesis ok_close : ∀ path, ok (EvClose path).
Hypothesis ok_reduce : ∀ op, ok (EvReduce op).
Hypothesis ok_barrier : ok EvBarrier.

Lemma preserves_log e : ok e → preserves J (log e).
Proof. intros He w Hw. cbn. by apply J_log. Qed.

Lemma preserves_put_fs fs : preserves J (put_fs fs).
Proof. intros w Hw. cbn. by apply J_fs. Qed.

Lemma preserves_put_peers ps : preserves J (put_peers ps).
Proof. intros w Hw. cbn. by apply J_peers. Qed.

Ltac preserves_tac :=
  repeat first
    [ assumption
    | match goal with H : context [preserves _ _] |- _ => apply H end
    | apply preserves_ret | apply preserves_raise
    | apply preserves_put_fs | apply preserves_put_peers
    | apply preserves_log;
      first [ apply ok_open | apply ok_create | apply ok_commit | apply ok_flush
            | apply ok_close | apply ok_reduce | apply ok_barrier ]
    | apply preserves_read_only;
      first [ apply read_only_get_world | apply read_only_of_option
            | apply read_only_assert | apply read_only_h5_contains
            | apply read_only_h5_get | apply read_only_h5_read
            | apply read_only_ravel_set | apply read_only_np_len
            | apply read_only_py_max | apply read_only_np_linspace
            | apply read_only_grid_shape | apply read_only_read_grid
            | apply read_only_record_result ]
    | apply preserves_bind; [|intros]
    | apply preserves_for_each; intros
    | match goal with
      | |- preserves _ (match ?x with _ => _ end) => destruct x
      | |- preserves _ (if ?b then _ else _) => destruct b
      end
    | assumption
    | solve [auto] ].

Lemma preserves_h5_open path mode : preserves J (h5_open path mode).
Proof. unfold h5_open. preserves_tac. Qed.

Lemma preserves_h5_create f k ds : preserves J (h5_create f k ds).
Proof. unfold h5_create. preserves_tac. Qed.

Lemma preserves_h5_assign f k arr : preserves J (h5_assign f k arr).
Proof. unfold h5_assign. preserves_tac. Qed.

Lemma preserves_h5_flush f : preserves J (h5_flush f).
Proof. unfold h5_flush. preserves_tac. Qed.

Lemma preserves_h5_close f : preserves J (h5_close f).
Proof. unfold h5_close. preserves_tac. Qed.

Lemma preserves_reduce op comm arr : preserves J (reduce op comm arr).
Proof. unfold reduce. preserves_tac. Qed.

Lemma preserves_barrier comm : preserves J (barrier comm).
Proof. unfold barrier. preserves_tac. Qed.

Lemma preserves_load_field_pair f shp st keys :
  preserves J (load_field_pair f shp st keys).
Proof.
  unfold load_field_pair. destruct st, keys.
  pose proof preserves_h5_create. preserves_tac.
Qed.

Lemma preserves_reduce_pair comm lk ak st : preserves J (reduce_pair comm lk ak st).
Proof.
  unfold reduce_pair, reduce_max. destruct st.
  pose proof preserves_reduce. preserves_tac.
Qed.

Lemma preserves_commit_pair f st keys : preserves J (commit_pair f st keys).
Proof.
  unfold commit_pair. destruct st, keys.
  pose proof preserves_h5_assign. preserves_tac.
Qed.

Lemma preserves_keep_reducing comm lks aks st i :
  preserves J (keep_reducing comm lks aks st i).
Proof.
  unfold keep_reducing. pose proof preserves_reduce_pair. preserves_tac.
Qed.

Lemma preserves_load_eig_fields f rank xs ys :
  preserves J (load_eig_fields f rank xs ys).
Proof.
  unfold load_eig_fields. pose proof preserves_h5_create. preserves_tac.
Qed.

Lemma preserves_open_fields sf dls lks aks rank :
  preserves J (open_fields sf dls lks aks rank).
Proof.
  unfold open_fields.
  pose proof preserves_h5_open. pose proof preserves_load_field_pair.
  preserves_tac.
Qed.


Lemma preserves_keep_reducing_eigs comm st i :
  preserves J (keep_reducing_eigs comm st i).
Proof.
  unfold keep_reducing_eigs, reduce_max, reduce_min. destruct st.
  pose proof preserves_reduce. preserves_tac.
Qed.

(** The crunch loops preserve an invariant as soon as the evaluator calls
    and the perturbation do. *)
Section Crunches.
Variable args : Args.
Hypothesis J_eval : ∀ dl, preserves J (call_evaluator dl).
Hypothesis J_hess : ∀ dl, preserves J (call_min_max_hessian_eigs dl).
Hypothesis J_load : ∀ w0 s d coord, preserves J (load_weights args w0 s d coord).

Lemma preserves_evaluate_and_record ind st job :
  preserves J (evaluate_and_record ind st job).
Proof.
  unfold evaluate_and_record. destruct job as [dl [lk ak]].
  apply preserves_bind; [apply J_eval|]. intros [loss acc].
  apply preserves_read_only, read_only_record_result.
Qed.

Lemma preserves_eigs_and_record dl ind st : preserves J (eigs_and_record dl ind st).
Proof.
  unfold eigs_and_record. destruct st.
  apply preserves_bind; [apply J_hess|]. intros [[maxeig mineig] iters].
  preserves_tac.
Qed.



Lemma preserves_crunch_2_cell w0 s d dls lks aks coords st ci :
  preserves J (crunch_2_cell w0 s d dls lks aks args coords st ci).
Proof.
  unfold crunch_2_cell. destruct ci.
  pose proof preserves_evaluate_and_record. preserves_tac.
Qed.




Lemma preserves_crunch_hessian_2_cell w0 s d dl coords st ci :
  preserves J (crunch_hessian_2_cell w0 s d dl args coords st ci).
Proof.
  unfold crunch_hessian_2_cell. destruct ci.
  pose proof preserves_eigs_and_record. preserves_tac.
Qed.


End Crunches.

(** With every loss field in the file, the prologue of [crunch] and
    [crunch_2] loads the arrays of the file and writes nothing. *)
Lemma h5_open_existing_spec path mode fs0 :
  mode ≠ ModeA →
  hoare (λ w, J w ∧ w_fs w = fs0) (h5_open path mode)
    (λ f w, (J w ∧ w_fs w = fs0) ∧ h_path f = path) (λ _ w, J w ∧ w_fs w = fs0).
Proof.
  intros Hm w [Hw Hfs]. unfold h5_open. rewrite run_bind. cbn [get_world].
  destruct (w_fs w !! path).
  - rewrite run_bind, log_run, run_ret. repeat split; try done.
    apply J_log; [done|]. apply ok_open.
  - by destruct mode.
Qed.

Lemma load_field_pair_present_spec f shp st lk ak fs0 l :
  fs_dataset fs0 (h_path f) lk = Some (DArr l) →
  hoare (λ w, J w ∧ w_fs w = fs0) (load_field_pair f shp st (lk, ak))
    (λ st' w, (J w ∧ w_fs w = fs0)
              ∧ ∀ k a, st'.1 !! k = Some a →
                       st.1 !! k = Some a ∨ fs_dataset fs0 (h_path f) k = Some (DArr a))
    (λ _ w, J w ∧ w_fs w = fs0).
Proof.
  intros Hl w [Hw Hfs]. unfold load_field_pair. destruct st as [losses accs].
  rewrite run_bind, h5_contains_run.
  assert (Hlk : lookup_dataset w (h_path f) lk = Some (DArr l)).
  { unfold lookup_dataset. by rewrite Hfs. }
  rewrite Hlk, bool_decide_eq_true_2 by eauto. cbn [negb].
  unfold h5_read, h5_get. rewrite !run_bind. cbn [get_world]. rewrite Hlk.
  rewrite of_option_Some, run_ret, !run_bind. cbn [get_world].
  destruct (lookup_dataset w (h_path f) ak) as [[a|?]|]; cbn; try done.
  split; [done|]. intros k a' Hk.
  destruct (decide (lk = k)) as [<-|Hne].
  - rewrite lookup_insert_eq in Hk. injection Hk as <-. by right.
  - rewrite lookup_insert_ne in Hk by done. by left.
Qed.

Lemma open_fields_present_spec sf dls lks aks rank fs0 :
  (∀ lk, lk ∈ lks → ∃ a, fs_dataset fs0 sf lk = Some (DArr a)) →
  hoare (λ w, J w ∧ w_fs w = fs0) (open_fields sf dls lks aks rank)
    (λ r w, (J w ∧ w_fs w = fs0)
            ∧ (length dls = length lks ∧ length lks = length aks
               ∧ ∀ k a, r.2.1 !! k = Some a → fs_dataset fs0 sf k = Some (DArr a)))
    (λ _ w, J w ∧ w_fs w = fs0).
Proof.
  intros HF. unfold open_fields.
  eapply hoare_bind; [by apply hoare_assert_val|]. intros ?.
  apply hoare_pure_pre. intros [Hl1%Nat.eqb_eq Hl2%Nat.eqb_eq]%andb_true_iff.
  eapply hoare_bind.
  { apply (h5_open_existing_spec sf (if Nat.eqb rank 0 then ModeRW else ModeR) fs0).
    by destruct (Nat.eqb rank 0). }
  intros f. apply hoare_pure_pre. intros Hf.
  eapply hoare_bind;
    [apply hoare_read_only_frame; [apply read_only_read_grid|done]|].
  intros [xs ys].
  eapply hoare_bind;
    [apply hoare_read_only_frame; [apply read_only_grid_shape|done]|].
  intros shp.
  eapply hoare_bind.
  { eapply hoare_conseq;
      [apply (hoare_for_each (load_field_pair f shp)
                (λ st w, (J w ∧ w_fs w = fs0)
                         ∧ ∀ k a, st.1 !! k = Some a →
                                  fs_dataset fs0 sf k = Some (DArr a))
                (λ _ w, J w ∧ w_fs w = fs0) (zip lks aks) (∅, ∅))
      |by intros w Hw|intros st w Hw; exact Hw|intros e w Hw; exact Hw].
    intros st [lk ak] Hin.
    destruct (HF lk) as [l Hl].
    { apply list_elem_of_lookup in Hin as [i Hi].
      apply lookup_zip_with_Some in Hi as (x & y & [= <- <-] & Hx & _).
      apply list_elem_of_lookup. eauto. }
    apply hoare_pure_pre. intros Hst.
    eapply hoare_conseq;
      [apply (load_field_pair_present_spec f shp st lk ak fs0 l); by rewrite Hf| | |]; cbn.
    - done.
    - intros st' w [Hw Hst']. split; [done|]. intros k arr Hk.
      destruct (Hst' k arr Hk) as [Hold|Hnew]; [by apply Hst|by rewrite <- Hf].
    - done. }
  intros st. apply hoare_pure_pre. intros Hst.
  apply hoare_ret. intros w Hw. auto.
Qed.

Lemma load_eig_fields_present_spec f rank xs ys fs0 mi ma :
  fs_dataset fs0 (h_path f) "min_eig" = Some (DArr mi) →
  fs_dataset fs0 (h_path f) "max_eig" = Some (DArr ma) →
  hoare (λ w, J w ∧ w_fs w = fs0) (load_eig_fields f rank xs ys)
    (λ st w, (J w ∧ w_fs w = fs0) ∧ st = (mi, ma))
    (λ _ w, J w ∧ w_fs w = fs0).
Proof.
  intros Hmi Hma w [Hw Hfs]. unfold load_eig_fields.
  rewrite run_bind, h5_contains_run.
  assert (H1 : lookup_dataset w (h_path f) "min_eig" = Some (DArr mi)).
  { unfold lookup_dataset. by rewrite Hfs. }
  assert (H2 : lookup_dataset w (h_path f) "max_eig" = Some (DArr ma)).
  { unfold lookup_dataset. by rewrite Hfs. }
  rewrite H1, bool_decide_eq_true_2 by eauto. cbn [negb].
  unfold h5_read, h5_get. rewrite !run_bind. cbn [get_world]. rewrite H1.
  rewrite of_option_Some, run_ret, !run_bind. cbn [get_world]. rewrite H2.
  rewrite of_option_Some, !run_ret. done.
Qed.

Lemma open_eig_fields_present_spec sf rank fs0 mi ma :
  fs_dataset fs0 sf "min_eig" = Some (DArr mi) →
  fs_dataset fs0 sf "max_eig" = Some (DArr ma) →
  hoare (λ w, J w ∧ w_fs w = fs0) (open_eig_fields sf rank)
    (λ r w, (J w ∧ w_fs w = fs0) ∧ r.2 = (mi, ma))
    (λ _ w, J w ∧ w_fs w = fs0).
Proof.
  intros Hmi Hma. unfold open_eig_fields.
  eapply hoare_bind.
  { apply (h5_open_existing_spec sf (if Nat.eqb rank 0 then ModeRW else ModeR) fs0).
    by destruct (Nat.eqb rank 0). }
  intros f. apply hoare_pure_pre. intros Hf.
  eapply hoare_bind;
    [apply hoare_read_only_frame; [apply read_only_read_grid|done]|].
  intros [xs ys].
  eapply hoare_bind.
  { apply (load_eig_fields_present_spec f rank xs ys fs0 mi ma); by rewrite Hf. }
  intros st. apply hoare_pure_pre. intros ->.
  apply hoare_ret. intros w Hw. auto.
Qed.

(** What follows the loop over the indices in [crunch] and in
    [crunch_hessian_eigs]. *)
Lemma preserves_crunch_rest f comm lks aks nums n st :
  preserves J (most ← py_max nums;
               st ← for_each (keep_reducing comm lks aks) (seq 0 (most - n)) st;
               h5_close f).
Proof.
  pose proof preserves_keep_reducing. pose proof preserves_h5_close.
  preserves_tac.
Qed.

Lemma preserves_crunch_hessian_rest f comm nums n st :
  preserves J (most ← py_max nums;
               st ← for_each (keep_reducing_eigs comm) (seq 0 (most - n)) st;
               h5_close f).
Proof.
  pose proof preserves_keep_reducing_eigs. pose proof preserves_h5_close.
  preserves_tac.
Qed.

Lemma preserves_crunch_2_rest f lks aks st :
  preserves J (st ← for_each (commit_pair f) (zip lks aks) st; h5_flush f;; h5_close f).
Proof.
  pose proof preserves_commit_pair. pose proof preserves_h5_flush.
  pose proof preserves_h5_close.
  preserves_tac.
Qed.

Lemma preserves_crunch_hessian_2_rest f (st : ndarray * ndarray) :
  preserves J (h5_assign f "max_eig" st.2;; h5_assign f "min_eig" st.1;; h5_close f).
Proof.
  pose proof preserves_h5_assign. pose proof preserves_h5_close.
  preserves_tac.
Qed.

(** The handle that the prologues return is a handle on the surface
    file. *)
Lemma h5_open_path_spec path mode :
  hoare J (h5_open path mode) (λ f w, J w ∧ h_path f = path) (λ _, J).
Proof.
  intros w Hw. unfold h5_open. rewrite run_bind. cbn [get_world].
  destruct (w_fs w !! path).
  - rewrite run_bind, log_run, run_ret. split; [|done].
    apply J_log; [done|]. apply ok_open.
  - destruct mode; try done.
    rewrite run_bind. cbn [put_fs]. rewrite run_bind, log_run, run_ret. split; [|done].
    apply J_log; [by apply J_fs|]. apply ok_open.
Qed.

Lemma open_fields_path_spec sf dls lks aks rank :
  hoare J (open_fields sf dls lks aks rank)
    (λ r w, J w ∧ h_path r.1.1.1 = sf) (λ _, J).
Proof.
  unfold open_fields.
  eapply hoare_bind; [apply preserves_read_only, read_only_assert|]. intros ?.
  eapply hoare_bind; [apply h5_open_path_spec|]. intros f.
  apply hoare_pure_pre. intros Hf.
  eapply hoare_bind; [apply preserves_read_only, read_only_read_grid|]. intros [xs ys].
  eapply hoare_bind; [apply preserves_read_only, read_only_grid_shape|]. intros shp.
  eapply hoare_bind.
  { apply preserves_for_each. intros. apply preserves_load_field_pair. }
  intros st. by apply hoare_ret.
Qed.

Lemma open_eig_fields_path_spec sf rank :
  hoare J (open_eig_fields sf rank) (λ r w, J w ∧ h_path r.1.1.1 = sf) (λ _, J).
Proof.
  unfold open_eig_fields.
  eapply hoare_bind; [apply h5_open_path_spec|]. intros f.
  apply hoare_pure_pre. intros Hf.
  eapply hoare_bind; [apply preserves_read_only, read_only_read_grid|]. intros [xs ys].
  eapply hoare_bind; [apply preserves_load_eig_fields|].
  intros st. by apply hoare_ret.
Qed.

End Stable.

(** ** C7 and C9: the resolution strings *)

Lemma parse_floats_run parts acc w :
  for_each (λ acc a, v ← of_option (py_float a) ValueError; mret (acc ++ [v])%list)
    parts acc w
  = (match mapM py_float parts with
     | Some vs => Ok (acc ++ vs)%list
     | None => Raise ValueError
     end, w).
Proof.
  revert acc. induction parts as [|a parts IH]; intros acc; cbn [for_each mapM].
  - cbn. by rewrite app_nil_r.
  - rewrite !run_bind. destruct (py_float a) as [v|]; cbn; [|done].
    rewrite IH. destruct (mapM py_float parts); cbn; [|done].
    by rewrite <- app_assoc.
Qed.

Lemma parse_triple_run str w :
  parse_triple str w
  = (match parsed_triple str with Some t => Ok t | None => Raise ValueError end, w).
Proof.
  unfold parse_triple, parsed_triple. rewrite run_bind, parse_floats_run.
  destruct (mapM py_float _) as [[|a [|b [|c [|? ?]]]]|]; reflexivity.
Qed.

Lemma read_only_parse_triple str : read_only (parse_triple str).
Proof. intros w. by rewrite parse_triple_run. Qed.

Lemma read_only_check_resolution_body args : read_only (check_resolution_body args).
Proof.
  unfold check_resolution_body. pose proof read_only_parse_triple.
  apply read_only_bind; [done|]. intros [[xmin xmax] xnum].
  read_only_tac.
Qed.

Lemma check_resolution_run args w :
  check_resolution args w
  = (match (check_resolution_body args w).1 with
     | Ok a => Ok a
     | Raise _ => Raise (Exception improper_format)
     end, w).
Proof.
  unfold check_resolution, try_except_raise.
  pose proof (read_only_check_resolution_body args w) as H.
  destruct (check_resolution_body args w) as [[a|e] w']; cbn in *; by subst.
Qed.

Lemma check_resolution_body_malformed args w :
  well_formed (a_x args) = false
  ∨ (str_truthy (a_y args) = true ∧ well_formed (default "" (a_y args)) = false) →
  ∃ e, (check_resolution_body args w).1 = Raise e.
Proof.
  unfold well_formed. intros H.
  unfold check_resolution_body. rewrite run_bind, parse_triple_run.
  destruct (parsed_triple (a_x args)) as [[[xmin xmax] xnum]|] eqn:Hx; [|by eauto].
  destruct H as [H|[Hy H]].
  { apply bool_decide_eq_false in H. destruct H. eauto. }
  rewrite run_bind. destruct (py_int xnum) as [n|]; cbn [of_option]; [|by eauto].
  rewrite run_ret. change (a_y (set_x_resolution args xmin xmax n)) with (a_y args).
  rewrite Hy, run_bind, parse_triple_run.
  destruct (parsed_triple (default "" (a_y args))) as [t|]; [|by eauto].
  apply bool_decide_eq_false in H. destruct H. eauto.
Qed.

Lemma check_resolution_body_zero args w ymin ymax ynum :
  str_truthy (a_y args) = true →
  parsed_triple (default "" (a_y args)) = Some (ymin, ymax, ynum) →
  truthy ymin && truthy ymax && truthy ynum = false →
  (∃ e, (check_resolution_body args w).1 = Raise e)
  ∧ (∀ xmin xmax xnum n,
       parsed_triple (a_x args) = Some (xmin, xmax, xnum) → py_int xnum = Some n →
       check_resolution_body args w = (Raise AssertionError, w)).
Proof.
  intros Hy Hp Hz. unfold check_resolution_body. rewrite run_bind, parse_triple_run.
  destruct (parsed_triple (a_x args)) as [[[xmin xmax] xnum]|] eqn:Hx.
  2:{ split; [by eauto|]. intros; done. }
  rewrite run_bind. destruct (py_int xnum) as [n|] eqn:Hn; cbn [of_option].
  2:{ split; [by eauto|]. intros ? ? ? ? [= <- <- <-]. congruence. }
  rewrite run_ret. change (a_y (set_x_resolution args xmin xmax n)) with (a_y args).
  rewrite Hy, run_bind, parse_triple_run, Hp. rewrite run_bind, Hz.
  split; [by eauto|]. intros; reflexivity.
Qed.

Lemma environment_setup_spec args w0 :
  hoare (no_store_io_since w0) (environment_setup args)
    (λ _ w, no_store_io_since w0 w
            ∧ (a_cuda args = true → cuda_is_available = true))
    (λ e w, e = Exception cuda_not_available ∧ no_store_io_since w0 w
            ∧ a_cuda args = true ∧ cuda_is_available = false).
Proof.
  assert (Hlog : ∀ w e, no_store_io_since w0 w → is_store_io e = false →
                        no_store_io_since w0 (logged w e)).
  { intros w e [Hfs (t & Ht & HF)] He. split; [done|].
    exists (t ++ [e]). cbn. rewrite Ht, app_assoc. split; [done|].
    apply Forall_app. split; [done|]. by constructor. }
  intros w Hw. unfold environment_setup.
  destruct (a_mpi args), (a_cuda args), cuda_is_available;
    cbv [mbind M_bind mret M_ret log raise negb];
    repeat match goal with |- _ ∧ _ => split end;
    try done; repeat apply Hlog; auto.
Qed.
Lemma no_store_io_since_refl w : no_store_io_since w w.
Proof. split; [done|]. exists []. by rewrite app_nil_r. Qed.

Lemma no_store_io_since_logged w0 w e :
  no_store_io_since w0 w → is_store_io e = false → no_store_io_since w0 (logged w e).
Proof.
  intros [Hfs (t & Ht & HF)] He. split; [done|].
  exists (t ++ [e]). cbn. rewrite Ht, app_assoc. split; [done|].
  apply Forall_app. split; [done|]. by constructor.
Qed.

Lemma hoare_log_no_store_io w0 e (E : Exn → World → Prop) :
  is_store_io e = false →
  hoare (no_store_io_since w0) (log e) (λ _, no_store_io_since w0) E.
Proof. intros He w Hw. cbn. by apply no_store_io_since_logged. Qed.

Lemma check_resolution_fails_spec args (J : World → Prop) :
  (∀ w, ∃ e, (check_resolution_body args w).1 = Raise e) →
  hoare J (check_resolution args) (λ _ _, False)
    (λ e w, e = Exception improper_format ∧ J w).
Proof.
  intros H w Hw. rewrite check_resolution_run. destruct (H w) as [e ->]. done.
Qed.

Lemma init_plot_surface_fails_spec args w0 :
  (∀ w, ∃ e, (check_resolution_body args w).1 = Raise e) →
  hoare (no_store_io_since w0) (init_plot_surface args) (λ _ _, False)
    (λ e w, (e = Exception improper_format ∨ e = Exception cuda_not_available)
            ∧ no_store_io_since w0 w).
Proof.
  intros H. unfold init_plot_surface.
  eapply hoare_bind; [by apply hoare_log_no_store_io|]. intros ?.
  eapply hoare_bind.
  { eapply hoare_conseq; [apply environment_setup_spec| |intros ? w Hw; exact (proj1 Hw)|]; cbn.
    - done.
    - intros e w (He & Hw & _). auto. }
  intros [comm rank].
  eapply hoare_bind.
  { eapply hoare_conseq; [by apply (check_resolution_fails_spec args)| | |]; cbn.
    - done.
    - intros ? w Hw. exact Hw.
    - intros e w [He Hw]. auto. }
  intros ? w [].
Qed.

Lemma run_of_hoare {A} (P : World → Prop) (m : M A) Q E w :
  hoare P m Q E → P w →
  match (m w).1 with Ok a => Q a (m w).2 | Raise e => E e (m w).2 end.
Proof. intros H Hw. specialize (H w Hw). by destruct (m w) as [[a|e] w']. Qed.

(** C7: when the x resolution string, or a given y resolution string, is
    not of the form [min:max:num], the check of the resolution raises
    [Exception('Improper format ...')]; [init_plot_surface] raises it (or,
    before it, the exception for a missing cuda device), [plot_surface] and
    [plot_hessian_eigen] end in an exception, and up to that point no file is
    changed and no call touches the surface store or the direction file. *)
Theorem C7_malformed_resolution_fails_fast args w :
  well_formed (a_x args) = false
  ∨ (str_truthy (a_y args) = true ∧ well_formed (default "" (a_y args)) = false) →
  check_resolution args w = (Raise (Exception improper_format), w)
  ∧ (∃ msg, (init_plot_surface args w).1 = Raise (Exception msg)
            ∧ (msg = improper_format ∨ msg = cuda_not_available))
  ∧ no_store_io_since w (init_plot_surface args w).2
  ∧ (∀ train test save_to,
       is_Ok (plot_surface args train test save_to w).1 = false
       ∧ no_store_io_since w (plot_surface args train test save_to w).2)
  ∧ (∀ dl,
       (∃ msg, (plot_hessian_eigen args dl w).1 = Raise (Exception msg)
               ∧ (msg = improper_format ∨ msg = cuda_not_available))
       ∧ no_store_io_since w (plot_hessian_eigen args dl w).2).
Proof.
  intros Hbad.
  assert (Hbody : ∀ w, ∃ e, (check_resolution_body args w).1 = Raise e)
    by (intros; by apply check_resolution_body_malformed).
  split; [|split; [|split; [|split]]].
  - rewrite check_resolution_run. by destruct (Hbody w) as [e ->].
  - pose proof (run_of_hoare _ _ _ _ w (init_plot_surface_fails_spec args w Hbody)
                  (no_store_io_since_refl w)) as H.
    destruct (init_plot_surface args w).1 as [a|e]; [done|].
    destruct H as [[-> | ->] _]; eauto.
  - pose proof (run_of_hoare _ _ _ _ w (init_plot_surface_fails_spec args w Hbody)
                  (no_store_io_since_refl w)) as H.
    destruct (init_plot_surface args w).1 as [a|e]; [done|]. apply H.
  - intros train test save_to.
    assert (H : hoare (no_store_io_since w) (plot_surface args train test save_to)
                  (λ _ _, False) (λ _ w', no_store_io_since w w')).
    { unfold plot_surface.
      eapply hoare_bind.
      { eapply hoare_conseq; [apply (hoare_assert (no_store_io_since w))| | |]; cbn;
          [|done|intros ? w' Hw'; exact (proj2 Hw')|intros e w' Hw'; exact Hw'].
        intros w' Hw'. exact Hw'. }
      intros ?. eapply hoare_bind; [by apply hoare_log_no_store_io|]. intros ?.
      eapply hoare_bind.
      { destruct (str_truthy save_to); [by apply hoare_log_no_store_io|by apply hoare_ret]. }
      intros ?. eapply hoare_bind.
      { eapply hoare_conseq; [by apply (init_plot_surface_fails_spec args w)| | |]; cbn.
        - done.
        - intros ? w' Hw'. exact Hw'.
        - intros e w' [_ Hw']. exact Hw'. }
      intros ? w' []. }
    pose proof (run_of_hoare _ _ _ _ w H (no_store_io_since_refl w)) as H'.
    destruct (plot_surface args train test save_to w).1; [done|]. done.
  - intros dl.
    assert (H : hoare (no_store_io_since w) (plot_hessian_eigen args dl)
                  (λ _ _, False)
                  (λ e w', (e = Exception improper_format ∨ e = Exception cuda_not_available)
                           ∧ no_store_io_since w w')).
    { unfold plot_hessian_eigen.
      eapply hoare_bind; [by apply hoare_log_no_store_io|]. intros ?.
      eapply hoare_bind.
      { eapply hoare_conseq; [apply environment_setup_spec| |intros ? w' Hw'; exact (proj1 Hw')|];
          cbn; [done|].
        intros e w' (He & Hw' & _). auto. }
      intros [comm rank]. eapply hoare_bind.
      { eapply hoare_conseq; [by apply (check_resolution_fails_spec args)| | |]; cbn.
        - done.
        - intros ? w' Hw'. exact Hw'.
        - intros e w' [He Hw']. auto. }
      intros ? w' []. }
    pose proof (run_of_hoare _ _ _ _ w H (no_store_io_since_refl w)) as H'.
    destruct (plot_hessian_eigen args dl w).1 as [a|e]; [done|].
    destruct H' as [[-> | ->] H']; eauto.
Qed.

(** C9: a y resolution string of the form [min:max:num] in which one of
    the three numbers is zero is rejected with the very exception of a
    malformed string: the [assert] on the three values takes the zero for a
    missing value, and the bare [except] turns its [AssertionError] into
    [Exception('Improper format ...')].  [init_plot_surface] and
    [plot_hessian_eigen] end in that exception (unless the cuda check has
    failed before). *)
Theorem C9_zero_in_y_resolution_is_rejected args w ymin ymax ynum :
  str_truthy (a_y args) = true →
  parsed_triple (default "" (a_y args)) = Some (ymin, ymax, ynum) →
  PrimFloat.eqb ymin 0%float = true ∨ PrimFloat.eqb ymax 0%float = true
  ∨ PrimFloat.eqb ynum 0%float = true →
  check_resolution args w = (Raise (Exception improper_format), w)
  ∧ (∀ xmin xmax xnum n,
       parsed_triple (a_x args) = Some (xmin, xmax, xnum) → py_int xnum = Some n →
       check_resolution_body args w = (Raise AssertionError, w))
  ∧ (a_cuda args && negb cuda_is_available = false →
     (init_plot_surface args w).1 = Raise (Exception improper_format)
     ∧ ∀ dl, (plot_hessian_eigen args dl w).1 = Raise (Exception improper_format)).
Proof.
  intros Hy Hp Hz.
  assert (Hf : truthy ymin && truthy ymax && truthy ynum = false).
  { unfold truthy. destruct Hz as [-> | [-> | ->]]; cbn;
      rewrite ?andb_false_r; done. }
  assert (Hbody : ∀ w, ∃ e, (check_resolution_body args w).1 = Raise e).
  { intros w'. by apply (check_resolution_body_zero args w' ymin ymax ynum). }
  split; [|split].
  - rewrite check_resolution_run. by destruct (Hbody w) as [e ->].
  - by apply (check_resolution_body_zero args w ymin ymax ynum).
  - intros Hcuda. split.
    + pose proof (run_of_hoare _ _ _ _ w (init_plot_surface_fails_spec args w Hbody)
                    (no_store_io_since_refl w)) as H.
      revert H. unfold init_plot_surface. rewrite run_bind, log_run, run_bind.
      pose proof (run_of_hoare _ _ _ _ (logged w EvSeed) (environment_setup_spec args w)
                    (no_store_io_since_logged w w EvSeed (no_store_io_since_refl w) eq_refl))
        as He.
      destruct (environment_setup args (logged w EvSeed)) as [[[comm rank]|e] w1]; cbn in He.
      * rewrite run_bind, check_resolution_run. destruct (Hbody w1) as [e ->]. done.
      * destruct He as (_ & _ & Hc & Ha). rewrite Hc, Ha in Hcuda. done.
    + intros dl. unfold plot_hessian_eigen. rewrite run_bind, log_run, run_bind.
      pose proof (run_of_hoare _ _ _ _ (logged w EvSeed) (environment_setup_spec args w)
                    (no_store_io_since_logged w w EvSeed (no_store_io_since_refl w) eq_refl))
        as He.
      destruct (environment_setup args (logged w EvSeed)) as [[[comm rank]|e] w1]; cbn in He.
      * rewrite run_bind, check_resolution_run. destruct (Hbody w1) as [e ->]. done.
      * destruct He as (_ & _ & Hc & Ha). rewrite Hc, Ha in Hcuda. done.
Qed.

(** ** C10: a direction type that is neither "weights" nor "states" *)








Lemma run_of_preserves {A} (J : World → Prop) (m : M A) w :
  preserves J m → J w → J (m w).2.
Proof. intros H Hw. specialize (H w Hw). by destruct (m w) as [[a|e] w']. Qed.

Lemma ravel_set_Ok a ind v w r w' :
  ravel_set a ind v w = (Ok r, w') →
  w' = w ∧ data r !! ind = Some v ∧ shape r = shape a ∧ size r = size a
  ∧ ∀ j, j ≠ ind → data r !! j = data a !! j.
Proof.
  unfold ravel_set. destruct (Nat.ltb_spec ind (size a)) as [Hlt|]; [|done].
  intros [= <- <-]. cbn. unfold size in *. cbn.
  rewrite length_insert. repeat split; [by apply list_lookup_insert_eq|].
  intros j Hj. by apply list_lookup_insert_ne.
Qed.





(** ** C2: running again on a complete store *)

Lemma count_events_app p t1 t2 :
  count_events p (t1 ++ t2) = count_events p t1 + count_events p t2.
Proof. unfold count_events. by rewrite filter_app, length_app. Qed.

Lemma count_events_one p e : count_events p [e] = if p e then 1 else 0.
Proof.
  unfold count_events. rewrite filter_cons, filter_nil.
  destruct (p e); case_decide; done.
Qed.

Lemma counted_since_refl p w : counted_since p w 0 w.
Proof. exists []. by rewrite app_nil_r. Qed.

Lemma counted_since_logged p w0 k w e :
  counted_since p w0 k w → p e = false → counted_since p w0 k (logged w e).
Proof.
  intros (t & Ht & Hk) He. exists (t ++ [e]). cbn. rewrite Ht, app_assoc.
  split; [done|]. rewrite count_events_app, Hk, count_events_one, He. lia.
Qed.

Lemma counted_since_hit p w0 k w e :
  counted_since p w0 k w → p e = true → counted_since p w0 (k + 1) (logged w e).
Proof.
  intros (t & Ht & Hk) He. exists (t ++ [e]). cbn. rewrite Ht, app_assoc.
  split; [done|]. by rewrite count_events_app, Hk, count_events_one, He.
Qed.

Lemma emitted_counted {A} p (m : M A) w k :
  counted_since p w k (m w).2 → count_events p (emitted m w) = k.
Proof.
  intros (t & Ht & Hk). unfold emitted. rewrite Ht. by rewrite drop_app_length.
Qed.

Lemma hoare_for_each_counted {X St} p w0 c (body : St → X → M St) :
  (∀ s x k, hoare (counted_since p w0 k) (body s x)
              (λ _, counted_since p w0 (k + c)) (λ _ _, True)) →
  ∀ l s k, hoare (counted_since p w0 k) (for_each body l s)
             (λ _, counted_since p w0 (k + c * length l)) (λ _ _, True).
Proof.
  intros Hb l. induction l as [|x l IH]; intros s k; cbn [for_each length].
  - apply hoare_ret. intros w Hw. by rewrite Nat.mul_0_r, Nat.add_0_r.
  - eapply hoare_bind; [apply Hb|]. intros s'.
    eapply hoare_conseq; [apply (IH s' (k + c))|done| |done].
    intros ? w Hw. by replace (k + c * S (length l)) with (k + c + c * length l) by lia.
Qed.

Lemma preserves_weaken {A} (J : World → Prop) (m : M A) :
  preserves J m → hoare J m (λ _, J) (λ _ _, True).
Proof. intros H. eapply hoare_conseq; [apply H|done|done|done]. Qed.

Lemma preserves_load_weights_counted w0 k args wt s d coord :
  preserves (counted_since is_eval w0 k) (load_weights args wt s d coord).
Proof.
  intros w Hw. unfold load_weights.
  destruct (String.eqb _ "weights"); [|destruct (String.eqb _ "states")]; cbn; try done.
  - by apply (counted_since_logged is_eval w0 k (MkWorld _ _ _ _)).
  - by apply (counted_since_logged is_eval w0 k (MkWorld _ _ _ _)).
Qed.

Lemma evaluate_and_record_counted w0 k ind st job :
  hoare (counted_since is_eval w0 k) (evaluate_and_record ind st job)
    (λ _, counted_since is_eval w0 (k + 1)) (λ _ _, True).
Proof.
  unfold evaluate_and_record. destruct job as [dl [lk ak]].
  eapply hoare_bind.
  { instantiate (1 := λ _, counted_since is_eval w0 (k + 1)).
    intros w Hw. unfold call_evaluator. rewrite run_bind. cbn [get_world].
    rewrite run_bind, log_run, run_ret. by apply counted_since_hit. }
  intros [loss acc]. apply hoare_read_only_frame; [apply read_only_record_result|done].
Qed.

Lemma eigs_and_record_counted w0 k dl ind st :
  hoare (counted_since is_eval w0 k) (eigs_and_record dl ind st)
    (λ _, counted_since is_eval w0 (k + 1)) (λ _ _, True).
Proof.
  unfold eigs_and_record. destruct st as [mi ma].
  eapply hoare_bind.
  { instantiate (1 := λ _, counted_since is_eval w0 (k + 1)).
    intros w Hw. unfold call_min_max_hessian_eigs. rewrite run_bind. cbn [get_world].
    rewrite run_bind, log_run, run_ret. by apply counted_since_hit. }
  intros [[maxeig mineig] iters].
  apply hoare_read_only_frame; [|done].
  pose proof read_only_ravel_set. read_only_tac; auto.
Qed.

Lemma crunch_2_cell_counted w0 k wt s d dls lks aks args coords st ci :
  hoare (counted_since is_eval w0 k)
    (crunch_2_cell wt s d dls lks aks args coords st ci)
    (λ _, counted_since is_eval w0 (k + length (zip dls (zip lks aks))))
    (λ _ _, True).
Proof.
  unfold crunch_2_cell. destruct ci as [count ind].
  eapply hoare_bind; [apply hoare_read_only_frame; [apply read_only_of_option|done]|].
  intros coord.
  eapply hoare_bind; [apply preserves_weaken, preserves_load_weights_counted|].
  intros ?.
  eapply hoare_conseq;
    [apply (hoare_for_each_counted is_eval w0 1 (evaluate_and_record ind));
     intros; apply evaluate_and_record_counted|done| |done].
  intros ? w Hw. by rewrite Nat.mul_1_l in Hw.
Qed.

Lemma crunch_hessian_2_cell_counted w0 k wt s d dl args coords st ci :
  hoare (counted_since is_eval w0 k)
    (crunch_hessian_2_cell wt s d dl args coords st ci)
    (λ _, counted_since is_eval w0 (k + 1)) (λ _ _, True).
Proof.
  unfold crunch_hessian_2_cell. destruct ci as [count ind].
  eapply hoare_bind; [apply hoare_read_only_frame; [apply read_only_of_option|done]|].
  intros coord.
  eapply hoare_bind; [apply preserves_weaken, preserves_load_weights_counted|].
  intros ?. apply eigs_and_record_counted.
Qed.

Section Counting_evaluations.
Variables (w : World) (sf : string).

Let counted (k : nat) := counted_since is_eval w k.

Lemma counted_log k w' e : counted k w' → is_eval e = false → counted k (logged w' e).
Proof. apply counted_since_logged. Qed.

Lemma counted_fs k w' fs :
  counted k w' → counted k (MkWorld fs (w_net w') (w_peers w') (w_trace w')).
Proof. done. Qed.

Lemma counted_peers k w' ps :
  counted k w' → counted k (MkWorld (w_fs w') (w_net w') ps (w_trace w')).
Proof. done. Qed.

Ltac stable_goal :=
  first [ exact (counted_log _) | exact (counted_fs _) | exact (counted_peers _)
        | (intros; reflexivity) ].

Lemma fs_dataset_lookup w' k : fs_dataset (w_fs w') sf k = lookup_dataset w' sf k.
Proof. reflexivity. Qed.

Lemma crunch_complete_store wt s d dls lks aks comm rank args :
  (∀ vals xs ys c, free_of (-1)%float vals → (get_job_indices vals xs ys c).1.1 = []) →
  (∀ lk, lk ∈ lks → ∃ a, lookup_dataset w sf lk = Some (DArr a) ∧ free_of (-1)%float a) →
  count_events is_eval (emitted (crunch sf wt s d dls lks aks comm rank args) w) = 0.
Proof.
  intros Hgji HF. apply emitted_counted.
  assert (H : hoare (λ w', counted 0 w' ∧ w_fs w' = w_fs w)
                (crunch sf wt s d dls lks aks comm rank args)
                (λ _, counted 0) (λ _, counted 0)).
  2:{ specialize (H w (conj (counted_since_refl _ _) eq_refl)).
      by destruct (crunch _ _ _ _ _ _ _ _ _ _ w) as [[?|?] ?]. }
  unfold crunch.
  eapply hoare_bind.
  { eapply hoare_conseq;
      [eapply (open_fields_present_spec (counted 0) (λ e, is_eval e = false));
       try stable_goal
      |intros w' Hw'; exact Hw'|intros r w' Hw'; exact Hw'|by intros e w' [? _]].
    intros lk Hlk. destruct (HF lk Hlk) as (a & Ha & _). eauto. }
  intros [[[f xs] ys] st]. apply hoare_pure_pre. intros (Hl1 & Hl2 & Hst).
  eapply hoare_bind; [apply hoare_of_option_val; by intros w' [? _]|].
  intros key0. apply hoare_pure_pre. intros Hkey0.
  eapply hoare_bind; [apply hoare_of_option_val; by intros w' [? _]|].
  intros vals. apply hoare_pure_pre. intros Hvals.
  assert (Hfree : free_of (-1)%float vals).
  { destruct (HF key0) as (a & Ha & Hfa).
    { apply list_elem_of_lookup. eauto. }
    apply Hst in Hvals. rewrite fs_dataset_lookup in Hvals. congruence. }
  specialize (Hgji vals xs ys comm Hfree).
  destruct (get_job_indices vals xs ys comm) as [[inds coords] nums]. cbn in Hgji.
  subst inds. cbn [enumerate imap for_each].
  eapply hoare_bind with (R := λ _ w', counted 0 w' ∧ w_fs w' = w_fs w);
    [by apply hoare_ret|]. intros st'.
  eapply hoare_conseq;
    [eapply (preserves_crunch_rest (counted 0) (λ e, is_eval e = false)); stable_goal
    |by intros w' [? _]|done|done].
Qed.

Lemma crunch_hessian_complete_store wt s d dl comm rank args mi ma :
  (∀ vals xs ys c, free_of (-1)%float vals → (get_job_indices vals xs ys c).1.1 = []) →
  lookup_dataset w sf "min_eig" = Some (DArr mi) →
  lookup_dataset w sf "max_eig" = Some (DArr ma) →
  free_of (-1)%float ma →
  count_events is_eval (emitted (crunch_hessian_eigs sf wt s d dl comm rank args) w) = 0.
Proof.
  intros Hgji Hmi Hma Hfree. apply emitted_counted.
  assert (H : hoare (λ w', counted 0 w' ∧ w_fs w' = w_fs w)
                (crunch_hessian_eigs sf wt s d dl comm rank args)
                (λ _, counted 0) (λ _, counted 0)).
  2:{ specialize (H w (conj (counted_since_refl _ _) eq_refl)).
      by destruct (crunch_hessian_eigs _ _ _ _ _ _ _ _ w) as [[?|?] ?]. }
  unfold crunch_hessian_eigs.
  eapply hoare_bind.
  { eapply hoare_conseq;
      [eapply (open_eig_fields_present_spec (counted 0) (λ e, is_eval e = false));
       first [stable_goal | exact Hmi | exact Hma]
      |intros w' Hw'; exact Hw'|intros r w' Hw'; exact Hw'|by intros e w' [? _]]. }
  intros [[[f xs] ys] st]. apply hoare_pure_pre. cbn [snd]. intros ->. cbn [snd].
  specialize (Hgji ma xs ys comm Hfree).
  destruct (get_job_indices ma xs ys comm) as [[inds coords] nums]. cbn in Hgji.
  subst inds. cbn [enumerate imap for_each].
  eapply hoare_bind with (R := λ _ w', counted 0 w' ∧ w_fs w' = w_fs w);
    [by apply hoare_ret|]. intros st'.
  eapply hoare_conseq;
    [eapply (preserves_crunch_hessian_rest (counted 0) (λ e, is_eval e = false));
     stable_goal
    |by intros w' [? _]|done|done].
Qed.

Lemma crunch_2_evaluates_every_cell wt s d dls lks aks comm rank args key0 a :
  (∀ lk, lk ∈ lks → ∃ a, lookup_dataset w sf lk = Some (DArr a)) →
  lks !! 0 = Some key0 →
  lookup_dataset w sf key0 = Some (DArr a) →
  is_Ok (crunch_2 sf wt s d dls lks aks comm rank args w).1 = true →
  count_events is_eval (emitted (crunch_2 sf wt s d dls lks aks comm rank args) w)
  = size a * length dls.
Proof.
  intros HF Hk0 Ha HOk. apply emitted_counted.
  assert (H : hoare (λ w', counted 0 w' ∧ w_fs w' = w_fs w)
                (crunch_2 sf wt s d dls lks aks comm rank args)
                (λ _, counted (size a * length dls)) (λ _ _, True)).
  2:{ specialize (H w (conj (counted_since_refl _ _) eq_refl)).
      by destruct (crunch_2 _ _ _ _ _ _ _ _ _ _ w) as [[?|?] ?]. }
  unfold crunch_2.
  eapply hoare_bind.
  { eapply hoare_conseq;
      [eapply (open_fields_present_spec (counted 0) (λ e, is_eval e = false));
       first [stable_goal | exact HF]
      |intros w' Hw'; exact Hw'|intros r w' Hw'; exact Hw'|done]. }
  intros [[[f xs] ys] st]. apply hoare_pure_pre. intros (Hl1 & Hl2 & Hst).
  eapply hoare_bind; [by apply hoare_of_option_val|].
  intros key0'. apply hoare_pure_pre. intros Hkey0.
  eapply hoare_bind; [by apply hoare_of_option_val|].
  intros vals. apply hoare_pure_pre. intros Hvals.
  assert (vals = a) as ->.
  { apply Hst in Hvals. rewrite fs_dataset_lookup in Hvals. congruence. }
  eapply hoare_bind.
  { eapply hoare_conseq;
      [apply (hoare_for_each_counted is_eval w (length (zip dls (zip lks aks)))
                (crunch_2_cell wt s d dls lks aks args (all_coords xs ys)));
       intros; apply crunch_2_cell_counted
      |by intros w' [? _]|intros r w' Hw'; exact Hw'|done]. }
  intros st'.
  eapply hoare_conseq;
    [apply preserves_weaken;
     eapply (preserves_crunch_2_rest (counted (size a * length dls))
               (λ e, is_eval e = false)); stable_goal
    | |done|done].
  intros w' Hw'. unfold enumerate in Hw'.
  rewrite length_imap, length_seq, !length_zip_with in Hw'.
  replace (length dls `min` (length lks `min` length aks)) with (length dls) in Hw' by lia.
  by rewrite Nat.add_0_l, Nat.mul_comm in Hw'.
Qed.

Lemma crunch_hessian_2_evaluates_every_cell wt s d dl comm rank args mi ma :
  lookup_dataset w sf "min_eig" = Some (DArr mi) →
  lookup_dataset w sf "max_eig" = Some (DArr ma) →
  is_Ok (crunch_hessian_eigs_2 sf wt s d dl comm rank args w).1 = true →
  count_events is_eval (emitted (crunch_hessian_eigs_2 sf wt s d dl comm rank args) w)
  = size ma.
Proof.
  intros Hmi Hma HOk. apply emitted_counted.
  assert (H : hoare (λ w', counted 0 w' ∧ w_fs w' = w_fs w)
                (crunch_hessian_eigs_2 sf wt s d dl comm rank args)
                (λ _, counted (size ma)) (λ _ _, True)).
  2:{ specialize (H w (conj (counted_since_refl _ _) eq_refl)).
      by destruct (crunch_hessian_eigs_2 _ _ _ _ _ _ _ _ w) as [[?|?] ?]. }
  unfold crunch_hessian_eigs_2.
  eapply hoare_bind.
  { eapply hoare_conseq;
      [eapply (open_eig_fields_present_spec (counted 0) (λ e, is_eval e = false));
       first [stable_goal | exact Hmi | exact Hma]
      |intros w' Hw'; exact Hw'|intros r w' Hw'; exact Hw'|done]. }
  intros [[[f xs] ys] st]. apply hoare_pure_pre. cbn [snd]. intros ->. cbn [fst snd].
  eapply hoare_bind.
  { eapply hoare_conseq;
      [apply (hoare_for_each_counted is_eval w 1
                (crunch_hessian_2_cell wt s d dl args (all_coords xs ys)));
       intros; apply crunch_hessian_2_cell_counted
      |by intros w' [? _]|intros r w' Hw'; exact Hw'|done]. }
  intros st'.
  eapply hoare_conseq;
    [apply preserves_weaken;
     eapply (preserves_crunch_hessian_2_rest (counted (size ma))
               (λ e, is_eval e = false)); stable_goal
    | |done|done].
  intros w' Hw'. unfold enumerate in Hw'.
  rewrite length_imap, length_seq in Hw'.
  by rewrite Nat.add_0_l, Nat.mul_1_l in Hw'.
Qed.

End Counting_evaluations.

(** C2 (as amended): on a store in which every cell of every field is
    filled, the synchronized variants [crunch] and [crunch_hessian_eigs]
    perform no evaluator call, provided the scheduler hands out only cells
    that are at the sentinel; the variants without synchronization never
    consult the sentinel: a run of [crunch_2] that ends normally has evaluated
    every cell of the grid again on every dataloader, and one of
    [crunch_hessian_eigs_2] every cell once. *)
Theorem C2_rerun_on_a_complete_store sf wt s d comm rank args w :
  (∀ vals xs ys c, free_of (-1)%float vals → (get_job_indices vals xs ys c).1.1 = []) →
  (∀ dls lks aks,
     (∀ lk, lk ∈ lks →
        ∃ a, lookup_dataset w sf lk = Some (DArr a) ∧ free_of (-1)%float a) →
     count_events is_eval (emitted (crunch sf wt s d dls lks aks comm rank args) w) = 0)
  ∧ (∀ dl mi ma,
       lookup_dataset w sf "min_eig" = Some (DArr mi) →
       lookup_dataset w sf "max_eig" = Some (DArr ma) →
       free_of (-1)%float ma →
       count_events is_eval
         (emitted (crunch_hessian_eigs sf wt s d dl comm rank args) w) = 0)
  ∧ (∀ dls lks aks key0 a,
       (∀ lk, lk ∈ lks → ∃ a, lookup_dataset w sf lk = Some (DArr a)) →
       lks !! 0 = Some key0 →
       lookup_dataset w sf key0 = Some (DArr a) →
       is_Ok (crunch_2 sf wt s d dls lks aks comm rank args w).1 = true →
       count_events is_eval (emitted (crunch_2 sf wt s d dls lks aks comm rank args) w)
       = size a * length dls)
  ∧ (∀ dl mi ma,
       lookup_dataset w sf "min_eig" = Some (DArr mi) →
       lookup_dataset w sf "max_eig" = Some (DArr ma) →
       is_Ok (crunch_hessian_eigs_2 sf wt s d dl comm rank args w).1 = true →
       count_events is_eval
         (emitted (crunch_hessian_eigs_2 sf wt s d dl comm rank args) w)
       = size ma).
Proof.
  intros Hgji. split; [|split; [|split]].
  - intros. by apply crunch_complete_store.
  - intros. by eapply crunch_hessian_complete_store.
  - intros. by eapply crunch_2_evaluates_every_cell.
  - intros. by eapply crunch_hessian_2_evaluates_every_cell.
Qed.

(** ** C6: when the variants without synchronization commit *)

Lemma count_events_zero p t :
  count_events p t = 0 → Forall (λ e, p e = false) t.
Proof.
  unfold count_events. intros H%length_zero_iff_nil.
  apply Forall_forall. intros e He. destruct (p e) eqn:Hp; [|done].
  assert (e ∈ filter (λ e, p e = true) t) by (by apply list_elem_of_filter).
  rewrite H in *. by apply elem_of_nil in H0.
Qed.

Lemma preserves_call_evaluator_counted p w0 k dl :
  (∀ n dl', p (EvEval n dl') = false) →
  preserves (counted_since p w0 k) (call_evaluator dl).
Proof.
  intros Hp w Hw. unfold call_evaluator. rewrite run_bind. cbn [get_world].
  rewrite run_bind, log_run, run_ret. by apply counted_since_logged.
Qed.

Lemma preserves_call_hessian_counted p w0 k dl :
  (∀ n dl', p (EvHessian n dl') = false) →
  preserves (counted_since p w0 k) (call_min_max_hessian_eigs dl).
Proof.
  intros Hp w Hw. unfold call_min_max_hessian_eigs. rewrite run_bind. cbn [get_world].
  rewrite run_bind, log_run, run_ret. by apply counted_since_logged.
Qed.

Lemma preserves_load_weights_quiet p w0 k args wt s d coord :
  (∀ c, p (EvSetWeights c) = false) → (∀ c, p (EvSetStates c) = false) →
  preserves (counted_since p w0 k) (load_weights args wt s d coord).
Proof.
  intros Hw Hs w Hc. unfold load_weights.
  destruct (String.eqb _ "weights"); [|destruct (String.eqb _ "states")]; cbn; try done.
  - by apply (counted_since_logged p w0 k (MkWorld _ _ _ _)).
  - by apply (counted_since_logged p w0 k (MkWorld _ _ _ _)).
Qed.

Lemma h5_assign_Ok f k arr w r w' :
  h5_assign f k arr w = (Ok r, w') → w_trace w' = w_trace w ++ [EvCommit (h_path f) k].
Proof.
  unfold h5_assign, h5_get. rewrite !run_bind. cbn [get_world].
  destruct (lookup_dataset w (h_path f) k) as [[old|?]|]; cbn [of_option]; try done.
  rewrite run_ret. destruct (h_mode f); try done;
    (destruct (_ && _); [|done]);
    rewrite run_bind; cbn [get_world]; rewrite run_bind; cbn [put_fs];
    rewrite log_run; by intros [= _ <-].
Qed.

Lemma commit_loop_Ok f pairs st w r w' :
  for_each (commit_pair f) pairs st w = (Ok r, w') →
  w_trace w' = w_trace w
               ++ (p ← pairs; [EvCommit (h_path f) p.1; EvCommit (h_path f) p.2]).
Proof.
  revert st w. induction pairs as [|[lk ak] pairs IH]; intros st w; cbn [for_each].
  - intros [= _ <-]. by rewrite app_nil_r.
  - rewrite run_bind.
    destruct (commit_pair f st (lk, ak) w) as [[st1|e] w1] eqn:H1; [|done].
    intros H2%IH. rewrite H2. cbn [mbind list_bind fst snd].
    rewrite (app_assoc _ [_; _]). f_equal.
    unfold commit_pair in H1. destruct st as [losses accs].
    rewrite run_bind in H1. destruct (losses !! lk) as [la|]; [|done].
    rewrite of_option_Some, run_bind in H1.
    destruct (h5_assign f lk la w) as [[[]|e] w2] eqn:Ha; [|done].
    apply h5_assign_Ok in Ha. rewrite run_bind in H1.
    destruct (accs !! ak) as [aa|]; [|done].
    rewrite of_option_Some, run_bind in H1.
    destruct (h5_assign f ak aa w2) as [[[]|e] w3] eqn:Hb; [|done].
    apply h5_assign_Ok in Hb. rewrite run_ret in H1. injection H1 as _ <-.
    rewrite Hb, Ha. by rewrite <- app_assoc.
Qed.

Section Commits.
Variables (w : World) (sf : string).

Let quiet := counted_since is_commit w 0.

Ltac quiet_goal :=
  first [ exact (counted_since_logged is_commit w 0)
        | (intros ? ? Hq; exact Hq)
        | (intros; reflexivity)
        | (intros; apply preserves_call_evaluator_counted; intros; reflexivity)
        | (intros; apply preserves_call_hessian_counted; intros; reflexivity)
        | (intros; apply preserves_load_weights_quiet; intros; reflexivity) ].

Lemma crunch_2_commits_after_the_loop wt s d dls lks aks comm rank args :
  is_Ok (crunch_2 sf wt s d dls lks aks comm rank args w).1 = true →
  ∃ t, emitted (crunch_2 sf wt s d dls lks aks comm rank args) w
       = t ++ final_commits sf lks aks ++ [EvFlush sf; EvClose sf]
       ∧ Forall (λ e, is_commit e = false) t.
Proof.
  intros HOk.
  assert (H : hoare quiet (crunch_2 sf wt s d dls lks aks comm rank args)
                (λ _ w', ∃ t, w_trace w' = w_trace w ++ t ++ final_commits sf lks aks
                                            ++ [EvFlush sf; EvClose sf]
                              ∧ Forall (λ e, is_commit e = false) t)
                (λ _ _, True)).
  2:{ specialize (H w (counted_since_refl _ _)). unfold emitted.
      destruct (crunch_2 _ _ _ _ _ _ _ _ _ _ w) as [[?|?] w']; [|done].
      destruct H as (t & Heq & Ht). exists t. cbn [snd]. by rewrite Heq, drop_app_length. }
  unfold crunch_2.
  eapply hoare_bind.
  { eapply hoare_conseq;
      [eapply (open_fields_path_spec quiet (λ e, is_commit e = false)); quiet_goal
      |done|intros r w' Hw'; exact Hw'|done]. }
  intros [[[f xs] ys] st]. apply hoare_pure_pre. cbn [fst]. intros Hf.
  eapply hoare_bind; [apply hoare_read_only_frame; [apply read_only_of_option|done]|].
  intros key0.
  eapply hoare_bind; [apply hoare_read_only_frame; [apply read_only_of_option|done]|].
  intros vals.
  eapply hoare_bind.
  { apply preserves_weaken, preserves_for_each. intros.
    eapply (preserves_crunch_2_cell quiet); quiet_goal. }
  intros st1 w1 (t & Ht & Hc%count_events_zero).
  rewrite run_bind.
  destruct (for_each (commit_pair f) (zip lks aks) st1 w1) as [[st2|e] w2] eqn:Hloop;
    [|done].
  apply commit_loop_Ok in Hloop. rewrite Hf in Hloop.
  unfold h5_flush, h5_close. rewrite run_bind, log_run, log_run. cbn.
  exists t. split; [|done]. rewrite Hf, Hloop, Ht. unfold final_commits.
  by rewrite <- !app_assoc.
Qed.

Lemma crunch_hessian_2_commits_after_the_loop wt s d dl comm rank args :
  is_Ok (crunch_hessian_eigs_2 sf wt s d dl comm rank args w).1 = true →
  ∃ t, emitted (crunch_hessian_eigs_2 sf wt s d dl comm rank args) w
       = t ++ [EvCommit sf "max_eig"; EvCommit sf "min_eig"; EvClose sf]
       ∧ Forall (λ e, is_commit e = false) t.
Proof.
  intros HOk.
  assert (H : hoare quiet (crunch_hessian_eigs_2 sf wt s d dl comm rank args)
                (λ _ w', ∃ t, w_trace w' = w_trace w ++ t
                                ++ [EvCommit sf "max_eig"; EvCommit sf "min_eig"; EvClose sf]
                              ∧ Forall (λ e, is_commit e = false) t)
                (λ _ _, True)).
  2:{ specialize (H w (counted_since_refl _ _)). unfold emitted.
      destruct (crunch_hessian_eigs_2 _ _ _ _ _ _ _ _ w) as [[?|?] w']; [|done].
      destruct H as (t & Heq & Ht). exists t. cbn [snd]. by rewrite Heq, drop_app_length. }
  unfold crunch_hessian_eigs_2.
  eapply hoare_bind.
  { eapply hoare_conseq;
      [eapply (open_eig_fields_path_spec quiet (λ e, is_commit e = false)); quiet_goal
      |done|intros r w' Hw'; exact Hw'|done]. }
  intros [[[f xs] ys] st]. apply hoare_pure_pre. cbn [fst]. intros Hf.
  eapply hoare_bind.
  { apply preserves_weaken, preserves_for_each. intros.
    eapply (preserves_crunch_hessian_2_cell quiet); quiet_goal. }
  intros st1 w1 (t & Ht & Hc%count_events_zero).
  rewrite run_bind.
  destruct (h5_assign f "max_eig" st1.2 w1) as [[[]|e] w2] eqn:H1; [|done].
  apply h5_assign_Ok in H1. rewrite run_bind.
  destruct (h5_assign f "min_eig" st1.1 w2) as [[[]|e] w3] eqn:H2; [|done].
  apply h5_assign_Ok in H2. unfold h5_close. rewrite log_run. cbn.
  exists t. split; [|done]. rewrite Hf, H2, H1, Ht, Hf. by rewrite <- !app_assoc.
Qed.

End Commits.

(** C6 (as amended): the variants without synchronization keep the field
    arrays in memory while they loop over the cells and commit them once,
    after the loop.  A run of [crunch_2] that ends normally logs no commit
    before the final ones, which write both arrays of every dataloader once
    and are followed by the flush and the close; a run of
    [crunch_hessian_eigs_2] logs no commit before the final ones of
    [max_eig] and [min_eig], which are followed by the close (without a
    flush of their own). *)
Theorem C6_commit_once_after_the_loop sf wt s d comm rank args w :
  (∀ dls lks aks,
     is_Ok (crunch_2 sf wt s d dls lks aks comm rank args w).1 = true →
     ∃ t, emitted (crunch_2 sf wt s d dls lks aks comm rank args) w
          = t ++ final_commits sf lks aks ++ [EvFlush sf; EvClose sf]
          ∧ Forall (λ e, is_commit e = false) t)
  ∧ (∀ dl,
       is_Ok (crunch_hessian_eigs_2 sf wt s d dl comm rank args w).1 = true →
       ∃ t, emitted (crunch_hessian_eigs_2 sf wt s d dl comm rank args) w
            = t ++ [EvCommit sf "max_eig"; EvCommit sf "min_eig"; EvClose sf]
            ∧ Forall (λ e, is_commit e = false) t).
Proof.
  split.
  - intros. by apply crunch_2_commits_after_the_loop.
  - intros. by apply crunch_hessian_2_commits_after_the_loop.
Qed.

(** ** C8: the 1-D example *)

(** C8: for the resolution [-1:1:5], [setup_surface_file] writes the x axis
    [-1, -0.5, 0, 0.5, 1]; a single-process run ([crunch_2], rank 0, no
    communicator) with one dataloader then ends normally, calls the evaluator
    for each of the 5 cells and commits a [train_loss] array of length 5,
    no entry of which is at the sentinel -1 when the evaluator never returns
    a loss of -1. *)
Theorem C8_example_1d_grid (net0 : Net) (wt : Weights) (s : States) (d : Directions)
    (dl : Dataloader) (dir_type : string) :
  (∀ n, PrimFloat.eqb (evaluator n dl).1 (-1)%float = false) →
  let w := MkWorld ∅ net0 [] [] in
  let w1 := (setup_surface_file (args_example dir_type) "surf.h5" "dir.h5" w).2 in
  let run := crunch_2 "surf.h5" wt s d [dl] ["train_loss"] ["train_acc"] None 0
               (args_example dir_type) in
  lookup_dataset w1 "surf.h5" "xcoordinates"
  = Some (DArr (NdArray [5] [(-1)%float; (-0.5)%float; 0%float; 0.5%float; 1%float]))
  ∧ (run w1).1 = Ok tt
  ∧ count_events is_eval (emitted run w1) = 5
  ∧ ∃ a, lookup_dataset (run w1).2 "surf.h5" "train_loss" = Some (DArr a)
         ∧ size a = 5 ∧ free_of (-1)%float a.
Proof.
  intros Hev w w1 run. subst w w1 run.
  unfold crunch_2, crunch_2_cell, load_weights, args_example, toy_args, set_x_resolution.
  cbn [a_dir_type].
  split; [vm_compute; reflexivity|].
  destruct (String.eqb dir_type "weights"); [|destruct (String.eqb dir_type "states")];
    (split; [vm_compute; reflexivity|]);
    (split; [vm_compute; reflexivity|]);
    (eexists; split; [vm_compute; reflexivity|]);
    (split; [reflexivity|]);
    repeat constructor; apply Hev.
Qed.

(** ** C3: who writes to the surface file *)

Lemma h5_create_read_only f k ds w :
  h_mode f = ModeR → h5_create f k ds w = (Raise (NoWriteIntent (h_path f) k), w).
Proof. intros H. unfold h5_create. by rewrite H. Qed.

(** In [crunch] and [crunch_2] a process that holds the file read-only and
    finds a loss field absent calls the creation of the dataset all the
    same, which h5py refuses. *)
Lemma load_field_pair_read_only_absent f shp st lk ak w :
  h_mode f = ModeR → lookup_dataset w (h_path f) lk = None →
  load_field_pair f shp st (lk, ak) w = (Raise (NoWriteIntent (h_path f) lk), w).
Proof.
  intros Hm Habs. unfold load_field_pair. destruct st as [losses accs].
  rewrite run_bind, h5_contains_run, Habs.
  rewrite bool_decide_eq_false_2 by (by intros [? ?]). cbn [negb].
  by rewrite run_bind, h5_create_read_only.
Qed.

(** In [crunch_hessian_eigs] the creation is guarded by [rank == 0]: a
    follower makes its arrays in memory and leaves the world as it is. *)
Lemma load_eig_fields_follower_absent f rank xs ys w shp :
  rank ≠ 0 → lookup_dataset w (h_path f) "min_eig" = None →
  grid_shape xs ys w = (Ok shp, w) →
  load_eig_fields f rank xs ys w = (Ok (np_ones shp, np_neg (np_ones shp)), w).
Proof.
  intros Hr Habs Hs. unfold load_eig_fields.
  rewrite run_bind, h5_contains_run, Habs.
  rewrite bool_decide_eq_false_2 by (by intros [? ?]). cbn [negb].
  rewrite run_bind, Hs. apply Nat.eqb_neq in Hr. rewrite Hr.
  by rewrite run_bind, run_ret, run_ret.
Qed.

(** ** The cells of a 2-D grid *)

Lemma lookup_bind_block {A B} (f : A → list B) (n : nat) (l : list A) i j :
  (∀ x, length (f x) = n) → j < n →
  (l ≫= f) !! (i * n + j) = l !! i ≫= λ x, f x !! j.
Proof.
  intros Hn Hj. revert i. induction l as [|a l IH]; intros i.
  - done.
  - cbn [mbind list_bind]. change (foldr _ _ _) with (f a ++ (l ≫= f)).
    destruct i as [|i].
    + cbn. rewrite lookup_app_l by (rewrite Hn; lia). done.
    + rewrite lookup_app_r by (rewrite Hn; lia). rewrite Hn.
      replace (S i * n + j - n) with (i * n + j) by lia. apply IH.
Qed.

Lemma length_bind_block {A B} (f : A → list B) (n : nat) (l : list A) :
  (∀ x, length (f x) = n) → length (l ≫= f) = length l * n.
Proof.
  intros Hn. induction l as [|a l IH]; [done|].
  cbn [mbind list_bind]. change (foldr _ _ _) with (f a ++ (l ≫= f)).
  rewrite length_app, Hn, IH. cbn. lia.
Qed.

(** X1: on a 2-D grid the cells are numbered row by row along the x axis:
    the coordinate of the flat index [i * len(ys) + j] is [(xs[i], ys[j])],
    and there is one coordinate for each of the [len(xs) * len(ys)]
    cells. *)
Theorem all_coords_row_major xs ys i j x y :
  data xs !! i = Some x → data ys !! j = Some y →
  all_coords xs (Some ys) !! (i * size ys + j) = Some (Coord2 x y)
  ∧ length (all_coords xs (Some ys)) = size xs * size ys.
Proof.
  intros Hx Hy. unfold all_coords, meshgrid_pairs, size. split.
  - rewrite (lookup_bind_block _ (length (data ys))).
    + rewrite Hx. cbn. by rewrite list_lookup_fmap, Hy.
    + intros. by rewrite length_fmap.
    + by apply lookup_lt_Some in Hy.
  - apply length_bind_block. intros. by rewrite length_fmap.
Qed.

(** ** Resolutions that are accepted *)

(** X2: a 1-D resolution string [min:max:num] is accepted with whatever
    numbers it holds (zeros and a negative count included): the check
    returns the arguments with [xmin], [xmax] set to the first two numbers,
    [xnum] to the third one truncated toward zero and the y resolution
    reset, and it leaves the world as it found it. *)
Theorem check_resolution_accepts_1d args w xmin xmax xnum n :
  parsed_triple (a_x args) = Some (xmin, xmax, xnum) →
  py_int xnum = Some n →
  str_truthy (a_y args) = false →
  check_resolution args w = (Ok (set_x_resolution args xmin xmax n), w)
  ∧ a_ynum (set_x_resolution args xmin xmax n) = None.
Proof.
  intros Hx Hn Hy. split; [|done]. rewrite check_resolution_run.
  unfold check_resolution_body. rewrite run_bind, parse_triple_run, Hx.
  rewrite run_bind, Hn, of_option_Some.
  change (a_y (set_x_resolution args xmin xmax n)) with (a_y args).
  by rewrite Hy.
Qed.

(** X3: a 2-D resolution is accepted when both strings have the form
    [min:max:num] and none of the three y numbers is zero. *)
Theorem check_resolution_accepts_2d args w xmin xmax xnum n ymin ymax ynum m :
  parsed_triple (a_x args) = Some (xmin, xmax, xnum) →
  py_int xnum = Some n →
  str_truthy (a_y args) = true →
  parsed_triple (default "" (a_y args)) = Some (ymin, ymax, ynum) →
  truthy ymin && truthy ymax && truthy ynum = true →
  py_int ynum = Some m →
  check_resolution args w
  = (Ok (set_y_resolution (set_x_resolution args xmin xmax n) ymin ymax m), w).
Proof.
  intros Hx Hn Hy Hp Hz Hm. rewrite check_resolution_run.
  unfold check_resolution_body. rewrite run_bind, parse_triple_run, Hx.
  rewrite run_bind, Hn, of_option_Some.
  change (a_y (set_x_resolution args xmin xmax n)) with (a_y args).
  rewrite Hy, run_bind, parse_triple_run, Hp.
  rewrite run_bind, Hz. cbn [py_assert]. rewrite run_ret, run_bind, Hm, of_option_Some.
  reflexivity.
Qed.

(** X4: the check of the resolution never touches the world, reports every
    failure as [Exception('Improper format ...')], and accepts exactly the
    arguments whose x string has the form [min:max:num] with a finite
    [num], and whose y string, when one is given, has that form too, with
    three numbers different from zero and a finite [num]. *)
Theorem check_resolution_accepts_exactly args w :
  (check_resolution args w).2 = w
  ∧ (∀ e, (check_resolution args w).1 = Raise e → e = Exception improper_format)
  ∧ (is_Ok (check_resolution args w).1 = true
     ↔ ∃ xmin xmax xnum n,
         parsed_triple (a_x args) = Some (xmin, xmax, xnum) ∧ py_int xnum = Some n
         ∧ (str_truthy (a_y args) = true →
            ∃ ymin ymax ynum m,
              parsed_triple (default "" (a_y args)) = Some (ymin, ymax, ynum)
              ∧ truthy ymin && truthy ymax && truthy ynum = true
              ∧ py_int ynum = Some m)).
Proof.
  rewrite check_resolution_run. cbn [fst snd]. split; [done|]. split.
  { intros e. destruct (check_resolution_body args w).1; congruence. }
  unfold check_resolution_body. rewrite run_bind, parse_triple_run.
  destruct (parsed_triple (a_x args)) as [[[xmin xmax] xnum]|] eqn:Hx.
  2:{ cbn. split; [done|]. by intros (? & ? & ? & ? & ? & _). }
  rewrite run_bind. destruct (py_int xnum) as [n|] eqn:Hn; cbn [of_option].
  2:{ cbn. split; [done|]. intros (? & ? & ? & ? & [= <- <- <-] & ? & _). congruence. }
  rewrite run_ret. change (a_y (set_x_resolution args xmin xmax n)) with (a_y args).
  destruct (str_truthy (a_y args)) eqn:Hy.
  2:{ rewrite run_ret. cbn. split; [|done]. intros _.
      exists xmin, xmax, xnum, n. repeat split; done. }
  rewrite run_bind, parse_triple_run.
  destruct (parsed_triple (default "" (a_y args))) as [[[ymin ymax] ynum]|] eqn:Hp.
  2:{ cbn. split; [done|]. intros (? & ? & ? & ? & _ & _ & H).
      by destruct (H eq_refl) as (? & ? & ? & ? & ? & _). }
  rewrite run_bind.
  destruct (truthy ymin && truthy ymax && truthy ynum) eqn:Hz; cbn [py_assert].
  2:{ cbn. split; [done|]. intros (? & ? & ? & ? & _ & _ & H).
      destruct (H eq_refl) as (? & ? & ? & ? & [= <- <- <-] & ? & _). congruence. }
  rewrite run_ret, run_bind. destruct (py_int ynum) as [m|] eqn:Hm; cbn [of_option].
  2:{ cbn. split; [done|]. intros (? & ? & ? & ? & _ & _ & H).
      destruct (H eq_refl) as (? & ? & ? & ? & [= <- <- <-] & _ & ?). congruence. }
  rewrite !run_ret. cbn. split; [|done]. intros _.
  exists xmin, xmax, xnum, n. repeat split; try done.
  intros _. exists ymin, ymax, ynum, m. done.
Qed.

(** ** The axis that is written *)

Lemma linspace_array_size start stop num :
  shape (linspace_array start stop num) = [Z.to_nat num]
  ∧ size (linspace_array start stop num) = Z.to_nat num.
Proof.
  unfold linspace_array, size. cbn [shape data]. split; [done|].
  repeat match goal with
         | |- context [if ?b then _ else _] => destruct b
         end;
    rewrite ?length_insert, !length_fmap, length_seq; done.
Qed.

Lemma linspace_array_last start stop num :
  (1 < num)%Z → last (data (linspace_array start stop num)) = Some stop.
Proof.
  intros Hn. pose proof (linspace_array_size start stop num) as [_ Hsize].
  rewrite last_lookup. unfold size in Hsize. rewrite Hsize.
  unfold linspace_array. cbn [data]. rewrite (proj2 (Z.ltb_lt 1 num) Hn).
  replace (Init.Nat.pred (Z.to_nat num)) with (Z.to_nat num - 1) by lia.
  apply list_lookup_insert_eq.
  repeat match goal with
         | |- context [if ?b then _ else _] => destruct b
         end;
    rewrite !length_fmap, length_seq; lia.
Qed.

(** X5: the x axis that [setup_surface_file] writes into a new surface
    file has exactly [xnum] points and, for more than one point, ends
    exactly at [xmax]. *)
Theorem setup_surface_file_x_axis args sf df w xmin xmax xnum :
  w_fs w !! sf = None →
  a_xmin args = Some xmin → a_xmax args = Some xmax → a_xnum args = Some xnum →
  (0 ≤ xnum)%Z →
  (if str_truthy (a_y args)
   then ∃ ymin ymax ynum, a_ymin args = Some ymin ∧ a_ymax args = Some ymax
                          ∧ a_ynum args = Some ynum ∧ (0 ≤ ynum)%Z
   else True) →
  ∃ xs, lookup_dataset (setup_surface_file args sf df w).2 sf "xcoordinates"
        = Some (DArr xs)
        ∧ shape xs = [Z.to_nat xnum] ∧ size xs = Z.to_nat xnum
        ∧ ((1 < xnum)%Z → last (data xs) = Some xmax).
Proof.
  intros Hf Hxmin Hxmax Hxnum Hx Hy.
  unfold setup_surface_file. rewrite run_bind, already_set_up_run, Hf. cbv beta iota.
  destruct (write_axes_creates args sf df w xmin xmax xnum Hf Hxmin Hxmax Hxnum Hx Hy)
    as (w' & -> & _ & Hxs & _).
  exists (linspace_array xmin xmax xnum). cbn [snd]. split; [exact Hxs|].
  pose proof (linspace_array_size xmin xmax xnum) as [? ?].
  repeat split; try done. apply linspace_array_last.
Qed.

(** ** Setting up the surface file twice *)

Lemma h5_open_Ok path mode w f w' :
  h5_open path mode w = (Ok f, w') →
  f = MkHandle path mode ∧ is_Some (w_fs w' !! path)
  ∧ (∀ k, lookup_dataset w' path k = lookup_dataset w path k)
  ∧ (is_Some (w_fs w !! path) → w_fs w' = w_fs w).
Proof.
  unfold h5_open. rewrite run_bind. cbn [get_world].
  destruct (w_fs w !! path) as [file|] eqn:Hf.
  - rewrite run_bind, log_run, run_ret. intros [= <- <-]. cbn.
    rewrite Hf. repeat split; eauto.
  - destruct mode; try done.
    rewrite run_bind. cbn [put_fs]. rewrite run_bind, log_run, run_ret.
    intros [= <- <-]. cbn. rewrite lookup_insert_eq. repeat split; eauto.
    + intros k. unfold lookup_dataset. cbn. rewrite lookup_insert_eq, Hf. cbn.
      apply lookup_empty.
    + by intros [? ?].
Qed.

Lemma lookup_file_created w path key ds p :
  is_Some (w_fs w !! p) → is_Some (w_fs (created w path key ds) !! p).
Proof.
  intros H. unfold created. cbn. destruct (decide (path = p)) as [->|Hne].
  - rewrite lookup_insert_eq. eauto.
  - by rewrite lookup_insert_ne.
Qed.



(** A successful [write_axes] leaves a file that holds the x axis. *)
Lemma write_axes_Ok_has_x args sf df w r w' :
  write_axes args sf df w = (Ok r, w') →
  is_Some (w_fs w' !! sf) ∧ has_dataset w' sf "xcoordinates" = true.
Proof.
  unfold write_axes. rewrite run_bind.
  destruct (h5_open sf ModeA w) as [[f|e] w1] eqn:Ho; [|done].
  apply h5_open_Ok in Ho as (-> & Hfile & _ & _).
  rewrite run_bind.
  destruct (h5_create _ "dir_file" _ w1) as [[[]|e] w2] eqn:H1; [|done].
  apply h5_create_Ok in H1 as (_ & _ & ->). cbn [h_path].
  rewrite run_bind. destruct (a_xmin args) as [xmin|]; [|done].
  rewrite of_option_Some, run_bind. destruct (a_xmax args) as [xmax|]; [|done].
  rewrite of_option_Some, run_bind. destruct (a_xnum args) as [xnum|]; [|done].
  rewrite of_option_Some, run_bind.
  destruct (np_linspace xmin xmax xnum _) as [[xs|e] w3] eqn:Hl; [|done].
  pose proof (read_only_np_linspace xmin xmax xnum (created w1 sf "dir_file" (DStr df))) as Hro.
  rewrite Hl in Hro. cbn in Hro. subst w3.
  rewrite run_bind.
  destruct (h5_create _ "xcoordinates" _ _) as [[[]|e] w4] eqn:H2; [|done].
  apply h5_create_Ok in H2 as (_ & _ & ->). cbn [h_path].
  set (w4 := created _ sf "xcoordinates" _).
  intros H.
  pose (P := λ w : World, is_Some (w_fs w !! sf) ∧ has_dataset w sf "xcoordinates" = true).
  assert (HP : P w4).
  { split.
    - unfold w4. by do 2 apply lookup_file_created.
    - unfold has_dataset, w4. rewrite lookup_dataset_created, decide_True by done.
      by apply bool_decide_eq_true_2. }
  assert (Hrest : preserves P
            ((if str_truthy (a_y args) then
                ymin ← of_option (a_ymin args) TypeError;
                ymax ← of_option (a_ymax args) TypeError;
                ynum ← of_option (a_ynum args) TypeError;
                ycoordinates ← np_linspace ymin ymax ynum;
                h5_create (MkHandle sf ModeA) "ycoordinates" (DArr ycoordinates)
              else mret tt);;
             h5_close (MkHandle sf ModeA);;
             mret (Some sf))).
  { assert (Hro : ∀ {A} (m : M A), read_only m → preserves P m)
      by (intros; by apply preserves_read_only).
    assert (Hcreate : ∀ ds, preserves P (h5_create (MkHandle sf ModeA) "ycoordinates" ds)).
    { intros ds w0 [Hw0 Hx0]. destruct (h5_create _ _ ds w0) as [[[]|e] w0'] eqn:Hc.
      - apply h5_create_Ok in Hc as (_ & _ & ->). cbn [h_path]. split.
        + by apply lookup_file_created.
        + unfold has_dataset in *. rewrite lookup_dataset_created.
          by rewrite decide_False.
      - unfold h5_create in Hc. cbn [h_mode h_path] in Hc.
        rewrite run_bind in Hc; cbn [get_world] in Hc.
        destruct (lookup_dataset w0 sf "ycoordinates"); [by injection Hc as _ <-|].
        rewrite run_bind in Hc; cbn [put_fs] in Hc; by rewrite log_run in Hc. }
    repeat first
      [ apply Hcreate
      | apply Hro; first [apply read_only_of_option | apply read_only_np_linspace]
      | apply preserves_ret
      | apply preserves_bind; [|intros]
      | match goal with |- preserves _ (if ?b then _ else _) => destruct b end ].
    intros w0 Hw0. unfold h5_close. rewrite log_run. exact Hw0. }
  pose proof (run_of_preserves P _ w4 Hrest HP) as Hfin.
  rewrite H in Hfin. exact Hfin.
Qed.

(** X6: a surface file is set up once.  After a call of
    [setup_surface_file] that returned normally, a second call with the same
    arguments returns early and changes no file; after a call that wrote the
    axes, so does a call with any other arguments: the axes of a file are
    never written again, whatever resolution is asked for. *)
Theorem setup_surface_file_is_idempotent args sf df w r :
  (setup_surface_file args sf df w).1 = Ok r →
  let w' := (setup_surface_file args sf df w).2 in
  (∀ df', (setup_surface_file args sf df' w').1 = Ok None
          ∧ w_fs (setup_surface_file args sf df' w').2 = w_fs w')
  ∧ (r = Some sf →
     ∀ args' df', (setup_surface_file args' sf df' w').1 = Ok None
                  ∧ w_fs (setup_surface_file args' sf df' w').2 = w_fs w').
Proof.
  intros Hr w'. subst w'.
  destruct (setup_surface_file args sf df w) as [res w1] eqn:Hrun.
  cbn [fst snd] in *. subst res.
  assert (Hnoop : ∀ args' df', is_Some (w_fs w1 !! sf) →
            counts_as_set_up args' w1 sf = true →
            (setup_surface_file args' sf df' w1).1 = Ok None
            ∧ w_fs (setup_surface_file args' sf df' w1).2 = w_fs w1).
  { intros args' df' [file Hfile] Hc. unfold setup_surface_file.
    rewrite run_bind, already_set_up_run, Hfile, Hc. done. }
  assert (Hwritten : ∀ w0 r', write_axes args sf df w0 = (Ok r', w1) →
            is_Some (w_fs w1 !! sf) ∧ ∀ args', counts_as_set_up args' w1 sf = true).
  { intros w0 r' Hw. apply write_axes_Ok_has_x in Hw as [Hfile Hx]. split; [done|].
    intros args'. unfold counts_as_set_up. rewrite Hx. apply orb_true_r. }
  unfold setup_surface_file in Hrun. rewrite run_bind, already_set_up_run in Hrun.
  destruct (w_fs w !! sf) as [file|] eqn:Hf.
  - destruct (counts_as_set_up args w sf) eqn:Hc.
    + rewrite run_ret in Hrun. injection Hrun as <- <-. split; [|done].
      intros df'. apply Hnoop; cbn; [by rewrite Hf|done].
    + apply Hwritten in Hrun as [Hfile Hany]. split; intros; apply Hnoop; auto.
  - apply Hwritten in Hrun as [Hfile Hany]. split; intros; apply Hnoop; auto.
Qed.


(** ** The crunch variants on a file that is not set up *)

(** X8: the crunch variants of [plot_surface.py] check their three lists
    before anything else: when the lengths differ they raise
    [AssertionError] and the world is as it was, the surface file not even
    opened. *)
Theorem crunch_rejects_uneven_lists sf wt s d dls lks aks comm rank args w :
  length dls ≠ length lks ∨ length lks ≠ length aks →
  crunch sf wt s d dls lks aks comm rank args w = (Raise AssertionError, w)
  ∧ crunch_2 sf wt s d dls lks aks comm rank args w = (Raise AssertionError, w).
Proof.
  intros H.
  assert (Hb : Nat.eqb (length dls) (length lks) && Nat.eqb (length lks) (length aks) = false).
  { apply andb_false_iff. destruct H as [H|H]; [left|right]; by apply Nat.eqb_neq. }
  unfold crunch, crunch_2, open_fields. rewrite !run_bind, Hb. done.
Qed.

Lemma h5_open_missing path mode w :
  w_fs w !! path = None → mode ≠ ModeA → h5_open path mode w = (Raise (FileNotFound path), w).
Proof.
  intros Hf Hm. unfold h5_open. rewrite run_bind. cbn [get_world]. rewrite Hf.
  by destruct mode.
Qed.

Lemma crunch_mode_not_a rank : (if Nat.eqb rank 0 then ModeRW else ModeR) ≠ ModeA.
Proof. by destruct (Nat.eqb rank 0). Qed.

(** X9: no crunch variant creates the surface file.  On a path without
    a file each of the four raises the exception of [h5py.File] and leaves
    the world as it was. *)
Theorem crunch_needs_the_surface_file sf wt s d comm rank args w :
  w_fs w !! sf = None →
  (∀ dls lks aks,
     length dls = length lks → length lks = length aks →
     crunch sf wt s d dls lks aks comm rank args w = (Raise (FileNotFound sf), w)
     ∧ crunch_2 sf wt s d dls lks aks comm rank args w = (Raise (FileNotFound sf), w))
  ∧ (∀ dl,
       crunch_hessian_eigs sf wt s d dl comm rank args w = (Raise (FileNotFound sf), w)
       ∧ crunch_hessian_eigs_2 sf wt s d dl comm rank args w = (Raise (FileNotFound sf), w)).
Proof.
  intros Hf. pose proof (h5_open_missing sf _ w Hf (crunch_mode_not_a rank)) as Ho.
  split.
  - intros dls lks aks H1 H2.
    unfold crunch, crunch_2, open_fields. rewrite !run_bind.
    rewrite H1, H2, !Nat.eqb_refl. cbn [andb py_assert]. rewrite run_ret.
    cbv beta iota. rewrite !run_bind, Ho. done.
  - intros dl. unfold crunch_hessian_eigs, crunch_hessian_eigs_2, open_eig_fields.
    rewrite !run_bind, Ho. done.
Qed.

Lemma h5_open_existing path mode w :
  is_Some (w_fs w !! path) →
  h5_open path mode w = (Ok (MkHandle path mode), logged w (EvOpen path mode)).
Proof.
  intros [file Hf]. unfold h5_open. rewrite run_bind. cbn [get_world]. rewrite Hf.
  by rewrite run_bind, log_run, run_ret.
Qed.

Lemma read_grid_no_x f w :
  lookup_dataset w (h_path f) "xcoordinates" = None →
  read_grid f w = (Raise (KeyError "xcoordinates"), w).
Proof.
  intros Hx. unfold read_grid, h5_read, h5_get. rewrite !run_bind. cbn [get_world].
  by rewrite Hx.
Qed.

(** X10: no crunch variant writes the axes.  On a file that holds no
    [xcoordinates] each of the four raises [KeyError] right after it has
    opened the file: no file is changed and the handle is not closed. *)
Theorem crunch_needs_the_x_axis sf wt s d comm rank args w :
  is_Some (w_fs w !! sf) →
  lookup_dataset w sf "xcoordinates" = None →
  let opened := logged w (EvOpen sf (if Nat.eqb rank 0 then ModeRW else ModeR)) in
  (∀ dls lks aks,
     length dls = length lks → length lks = length aks →
     crunch sf wt s d dls lks aks comm rank args w = (Raise (KeyError "xcoordinates"), opened)
     ∧ crunch_2 sf wt s d dls lks aks comm rank args w
       = (Raise (KeyError "xcoordinates"), opened))
  ∧ (∀ dl,
       crunch_hessian_eigs sf wt s d dl comm rank args w
       = (Raise (KeyError "xcoordinates"), opened)
       ∧ crunch_hessian_eigs_2 sf wt s d dl comm rank args w
         = (Raise (KeyError "xcoordinates"), opened)).
Proof.
  intros Hf Hx opened.
  pose proof (h5_open_existing sf (if Nat.eqb rank 0 then ModeRW else ModeR) w Hf) as Ho.
  assert (Hg : read_grid (MkHandle sf (if Nat.eqb rank 0 then ModeRW else ModeR)) opened
               = (Raise (KeyError "xcoordinates"), opened)).
  { apply read_grid_no_x. exact Hx. }
  split.
  - intros dls lks aks H1 H2.
    unfold crunch, crunch_2, open_fields. rewrite !run_bind.
    rewrite H1, H2, !Nat.eqb_refl. cbn [andb py_assert]. rewrite run_ret.
    cbv beta iota. rewrite !run_bind, Ho. cbv beta iota. rewrite !run_bind.
    fold opened. rewrite Hg. done.
  - intros dl. unfold crunch_hessian_eigs, crunch_hessian_eigs_2, open_eig_fields.
    rewrite !run_bind, Ho. cbv beta iota. rewrite !run_bind. fold opened. rewrite Hg. done.
Qed.

(** ** How many collective calls a worker enters *)

Lemma h5_read_run f k a w :
  lookup_dataset w (h_path f) k = Some (DArr a) → h5_read f k w = (Ok a, w).
Proof.
  intros H. unfold h5_read, h5_get. rewrite !run_bind. cbn [get_world]. by rewrite H.
Qed.

Lemma read_grid_run f xs ys w :
  stored_grid w (h_path f) xs ys → read_grid f w = (Ok (xs, ys), w).
Proof.
  intros [Hx Hy]. unfold read_grid.
  rewrite run_bind, (h5_read_run _ _ _ _ Hx), run_bind, h5_contains_run, Hy.
  destruct ys as [y|]; cbn [fmap option_fmap option_map].
  - rewrite bool_decide_eq_true_2 by eauto.
    by rewrite run_bind, (h5_read_run f "ycoordinates" y) by exact Hy.
  - by rewrite bool_decide_eq_false_2 by (by intros [? ?]).
Qed.

Lemma py_max_run nums w :
  py_max nums w = (match nums with [] => Raise ValueError | _ => Ok (max_list nums) end, w).
Proof.
  destruct nums as [|x l]; [done|]. unfold py_max. rewrite run_ret. do 2 f_equal.
  induction l as [|y l IH]; cbn; [lia|]. cbn in IH. lia.
Qed.

Lemma hoare_py_max (P : World → Prop) nums :
  hoare P (py_max nums) (λ m w, P w ∧ m = max_list nums) (λ _ _, True).
Proof. intros w Hw. rewrite py_max_run. by destruct nums. Qed.

(** A collective call that returns has been entered once. *)
Lemma reduce_counted w0 k op c arr :
  hoare (counted_since is_reduce w0 k) (reduce op (Some c) arr)
    (λ _, counted_since is_reduce w0 (k + 1)) (λ _ _, True).
Proof.
  intros w Hw. unfold reduce. rewrite run_bind, log_run, run_bind. cbn [get_world].
  destruct (w_peers (logged w (EvReduce op))) as [|p ps]; [done|].
  rewrite run_bind. cbn [put_peers]. rewrite run_ret.
  by apply (counted_since_hit is_reduce w0 k w (EvReduce op)).
Qed.

Lemma reduce_pair_counted w0 k c lk ak st :
  hoare (counted_since is_reduce w0 k) (reduce_pair (Some c) lk ak st)
    (λ _, counted_since is_reduce w0 (k + 2)) (λ _ _, True).
Proof.
  unfold reduce_pair, reduce_max. destruct st as [losses accs].
  eapply hoare_bind; [apply hoare_read_only_frame; [apply read_only_of_option|done]|].
  intros la. eapply hoare_bind; [apply reduce_counted|]. intros la'.
  eapply hoare_bind; [apply hoare_read_only_frame; [apply read_only_of_option|done]|].
  intros aa. eapply hoare_bind; [apply reduce_counted|]. intros aa'.
  apply hoare_ret. intros w Hw. by replace (k + 2) with (k + 1 + 1) by lia.
Qed.

Ltac quiet_reduce_goal :=
  first [ exact (counted_since_logged is_reduce _ _)
        | (intros ? ? Hq; exact Hq)
        | (intros; reflexivity)
        | (intros; apply preserves_call_evaluator_counted; intros; reflexivity)
        | (intros; apply preserves_call_hessian_counted; intros; reflexivity)
        | (intros; apply preserves_load_weights_quiet; intros; reflexivity) ].

Lemma crunch_cell_reductions w0 k f wt s d dls lks aks c rank args coords st ci :
  hoare (counted_since is_reduce w0 k)
    (crunch_cell f wt s d dls lks aks (Some c) rank args coords st ci)
    (λ _, counted_since is_reduce w0 (k + 2 * length (zip dls (zip lks aks))))
    (λ _ _, True).
Proof.
  unfold crunch_cell. destruct ci as [count ind].
  eapply hoare_bind; [apply hoare_read_only_frame; [apply read_only_of_option|done]|].
  intros coord.
  eapply hoare_bind;
    [apply preserves_weaken, preserves_load_weights_quiet; intros; reflexivity|].
  intros ?.
  eapply hoare_bind.
  { apply (hoare_for_each_counted is_reduce w0 2). intros st' job k'.
    eapply hoare_bind.
    - apply preserves_weaken.
      eapply (preserves_evaluate_and_record (counted_since is_reduce w0 k'));
        quiet_reduce_goal.
    - intros st''. apply reduce_pair_counted. }
  intros st'.
  eapply hoare_bind.
  { instantiate (1 := λ _, counted_since is_reduce w0 (k + 2 * length (zip dls (zip lks aks)))).
    destruct (Nat.eqb rank 0); [|by apply hoare_ret].
    eapply hoare_bind.
    - apply preserves_weaken, preserves_for_each. intros.
      eapply (preserves_commit_pair _ (λ e, is_reduce e = false)); quiet_reduce_goal.
    - intros ?. apply preserves_weaken.
      eapply (preserves_h5_flush _ (λ e, is_reduce e = false)); quiet_reduce_goal. }
  intros ?. by apply hoare_ret.
Qed.

Lemma keep_reducing_counted w0 k c lks aks st i :
  hoare (counted_since is_reduce w0 k) (keep_reducing (Some c) lks aks st i)
    (λ _, counted_since is_reduce w0 (k + 2)) (λ _ _, True).
Proof.
  unfold keep_reducing.
  eapply hoare_bind; [apply hoare_read_only_frame; [apply read_only_of_option|done]|].
  intros [lk ak]. apply reduce_pair_counted.
Qed.

Lemma crunch_hessian_cell_reductions w0 k f wt s d dl c rank args coords st ci :
  hoare (counted_since is_reduce w0 k)
    (crunch_hessian_cell f wt s d dl (Some c) rank args coords st ci)
    (λ _, counted_since is_reduce w0 (k + 2)) (λ _ _, True).
Proof.
  unfold crunch_hessian_cell, reduce_max, reduce_min. destruct ci as [count ind].
  eapply hoare_bind; [apply hoare_read_only_frame; [apply read_only_of_option|done]|].
  intros coord.
  eapply hoare_bind;
    [apply preserves_weaken, preserves_load_weights_quiet; intros; reflexivity|].
  intros ?.
  eapply hoare_bind.
  { apply preserves_weaken.
    eapply (preserves_eigs_and_record (counted_since is_reduce w0 k)); quiet_reduce_goal. }
  intros [mi ma].
  eapply hoare_bind; [apply reduce_counted|]. intros ma'.
  eapply hoare_bind; [apply reduce_counted|]. intros mi'.
  eapply hoare_bind.
  { instantiate (1 := λ _, counted_since is_reduce w0 (k + 1 + 1)).
    destruct (Nat.eqb rank 0); [|by apply hoare_ret].
    apply preserves_weaken.
    apply preserves_bind; [|intros ?];
      eapply (preserves_h5_assign _ (λ e, is_reduce e = false)); quiet_reduce_goal. }
  intros ?. apply hoare_ret. intros w Hw. by replace (k + 2) with (k + 1 + 1) by lia.
Qed.

Lemma keep_reducing_eigs_counted w0 k c st i :
  hoare (counted_since is_reduce w0 k) (keep_reducing_eigs (Some c) st i)
    (λ _, counted_since is_reduce w0 (k + 2)) (λ _ _, True).
Proof.
  unfold keep_reducing_eigs, reduce_max, reduce_min. destruct st as [mi ma].
  eapply hoare_bind; [apply reduce_counted|]. intros ma'.
  eapply hoare_bind; [apply reduce_counted|]. intros mi'.
  apply hoare_ret. intros w Hw. by replace (k + 2) with (k + 1 + 1) by lia.
Qed.

Lemma open_fields_grid_spec sf dls lks aks rank w0 xs ys :
  stored_grid w0 sf xs ys →
  hoare (λ w, w_fs w = w_fs w0) (open_fields sf dls lks aks rank)
    (λ r _, r.1.1.2 = xs ∧ r.1.2 = ys) (λ _ _, True).
Proof.
  intros Hg w Hw. unfold open_fields. rewrite run_bind.
  destruct (_ && _); [|done]. cbn [py_assert]. rewrite run_ret.
  assert (Hg' : stored_grid w sf xs ys).
  { unfold stored_grid, lookup_dataset in *. by rewrite Hw. }
  assert (Hfile : is_Some (w_fs w !! sf)).
  { destruct Hg' as [Hx _]. unfold lookup_dataset in Hx.
    destruct (w_fs w !! sf); [eauto|done]. }
  rewrite run_bind, (h5_open_existing _ _ _ Hfile).
  rewrite run_bind, (read_grid_run _ xs ys) by exact Hg'.
  rewrite run_bind. destruct (grid_shape xs ys _) as [[shp|e] w2]; [|done].
  rewrite run_bind. destruct (for_each _ _ _ w2) as [[st|e] w3]; [|done].
  by rewrite run_ret.
Qed.

Lemma open_eig_fields_grid_spec sf rank w0 xs ys :
  stored_grid w0 sf xs ys →
  hoare (λ w, w_fs w = w_fs w0) (open_eig_fields sf rank)
    (λ r _, r.1.1.2 = xs ∧ r.1.2 = ys) (λ _ _, True).
Proof.
  intros Hg w Hw. unfold open_eig_fields.
  assert (Hg' : stored_grid w sf xs ys).
  { unfold stored_grid, lookup_dataset in *. by rewrite Hw. }
  assert (Hfile : is_Some (w_fs w !! sf)).
  { destruct Hg' as [Hx _]. unfold lookup_dataset in Hx.
    destruct (w_fs w !! sf); [eauto|done]. }
  rewrite run_bind, (h5_open_existing _ _ _ Hfile).
  rewrite run_bind, (read_grid_run _ xs ys) by exact Hg'.
  rewrite run_bind. destruct (load_eig_fields _ _ _ _ _) as [[st|e] w2]; [|done].
  by rewrite run_ret.
Qed.

Section Counting_reductions.
Variables (w : World) (sf : string).

Let entered (k : nat) := counted_since is_reduce w k.

Ltac stable_goal :=
  first [ exact (counted_since_logged is_reduce w _) | (intros ? ? Hq; exact Hq)
        | (intros; reflexivity) ].

Lemma crunch_reductions wt s d dls lks aks c rank args xs ys key0 vals :
  stored_grid w sf xs ys →
  (∀ lk, lk ∈ lks → ∃ a, lookup_dataset w sf lk = Some (DArr a)) →
  lks !! 0 = Some key0 →
  lookup_dataset w sf key0 = Some (DArr vals) →
  hoare (λ w', entered 0 w' ∧ w_fs w' = w_fs w)
    (crunch sf wt s d dls lks aks (Some c) rank args)
    (λ _, entered
            (2 * length dls * length (get_job_indices vals xs ys (Some c)).1.1
             + 2 * (max_list (get_job_indices vals xs ys (Some c)).2
                    - length (get_job_indices vals xs ys (Some c)).1.1)))
    (λ _ _, True).
Proof.
  intros Hg HF Hk0 Hv. unfold crunch.
  eapply hoare_bind.
  { eapply hoare_conseq.
    - apply hoare_conj.
      + eapply (open_fields_present_spec (entered 0) (λ e, is_reduce e = false)).
        all: try stable_goal. exact HF.
      + apply (open_fields_grid_spec sf dls lks aks rank w xs ys Hg).
    - intros w' Hw'. split; [exact Hw'|exact (proj2 Hw')].
    - intros r w' Hw'. exact Hw'.
    - done. }
  intros [[[f xs'] ys'] st]. apply hoare_pure_pre. cbn [fst snd].
  intros [Hxs Hys]. subst xs' ys'.
  apply hoare_pure_pre. intros (Hl1 & Hl2 & Hst).
  eapply hoare_bind; [by apply hoare_of_option_val|].
  intros key0'. apply hoare_pure_pre. intros Hkey0.
  eapply hoare_bind; [by apply hoare_of_option_val|].
  intros vals'. apply hoare_pure_pre. intros Hvals.
  assert (vals' = vals) as ->.
  { apply Hst in Hvals. change (fs_dataset (w_fs w) sf key0') with (lookup_dataset w sf key0') in Hvals.
    congruence. }
  destruct (get_job_indices vals xs ys (Some c)) as [[inds coords] nums]. cbn [fst snd].
  eapply hoare_bind.
  { eapply hoare_conseq;
      [apply (hoare_for_each_counted is_reduce w (2 * length (zip dls (zip lks aks)))
                (crunch_cell f wt s d dls lks aks (Some c) rank args coords));
       intros; apply crunch_cell_reductions
      |by intros w' [? _]|intros r w' Hw'; exact Hw'|done]. }
  intros st'.
  eapply hoare_bind; [apply hoare_py_max|]. intros most.
  apply hoare_pure_pre. intros ->.
  eapply hoare_bind.
  { apply (hoare_for_each_counted is_reduce w 2 (keep_reducing (Some c) lks aks)).
    intros; apply keep_reducing_counted. }
  intros st'' w' Hw'. unfold h5_close. rewrite log_run.
  apply counted_since_logged; [|done]. unfold enumerate in Hw'.
  rewrite length_imap, length_seq, !length_zip_with in Hw'.
  replace (length dls `min` (length lks `min` length aks)) with (length dls) in Hw' by lia.
  by rewrite Nat.add_0_l in Hw'.
Qed.

Lemma crunch_hessian_reductions wt s d dl c rank args xs ys mi ma :
  stored_grid w sf xs ys →
  lookup_dataset w sf "min_eig" = Some (DArr mi) →
  lookup_dataset w sf "max_eig" = Some (DArr ma) →
  hoare (λ w', entered 0 w' ∧ w_fs w' = w_fs w)
    (crunch_hessian_eigs sf wt s d dl (Some c) rank args)
    (λ _, entered
            (2 * length (get_job_indices ma xs ys (Some c)).1.1
             + 2 * (max_list (get_job_indices ma xs ys (Some c)).2
                    - length (get_job_indices ma xs ys (Some c)).1.1)))
    (λ _ _, True).
Proof.
  intros Hg Hmi Hma. unfold crunch_hessian_eigs.
  eapply hoare_bind.
  { eapply hoare_conseq.
    - apply hoare_conj.
      + eapply (open_eig_fields_present_spec (entered 0) (λ e, is_reduce e = false)).
        all: try stable_goal.
        * exact Hmi.
        * exact Hma.
      + apply (open_eig_fields_grid_spec sf rank w xs ys Hg).
    - intros w' Hw'. split; [exact Hw'|exact (proj2 Hw')].
    - intros r w' Hw'. exact Hw'.
    - done. }
  intros [[[f xs'] ys'] st]. apply hoare_pure_pre. cbn [fst snd].
  intros [Hxs Hys]. subst xs' ys'.
  apply hoare_pure_pre. intros ->. cbn [snd].
  destruct (get_job_indices ma xs ys (Some c)) as [[inds coords] nums]. cbn [fst snd].
  eapply hoare_bind.
  { eapply hoare_conseq;
      [apply (hoare_for_each_counted is_reduce w 2
                (crunch_hessian_cell f wt s d dl (Some c) rank args coords));
       intros; apply crunch_hessian_cell_reductions
      |by intros w' [? _]|intros r w' Hw'; exact Hw'|done]. }
  intros st'.
  eapply hoare_bind; [apply hoare_py_max|]. intros most.
  apply hoare_pure_pre. intros ->.
  eapply hoare_bind.
  { apply (hoare_for_each_counted is_reduce w 2 (keep_reducing_eigs (Some c))).
    intros; apply keep_reducing_eigs_counted. }
  intros st'' w' Hw'. unfold h5_close. rewrite log_run.
  apply counted_since_logged; [|done]. unfold enumerate in Hw'.
  rewrite length_imap, length_seq in Hw'.
  by rewrite Nat.add_0_l in Hw'.
Qed.

End Counting_reductions.

(** X11: how many collective calls a worker of [crunch] enters.  On a
    surface file that holds the grid and every loss field, a run with a
    communicator that ends normally has entered two reductions per
    dataloader for each cell of its own, and two more, whatever the number
    of dataloaders, for each round by which the busiest worker exceeds it:
    [2 n k + 2 (m - k)] for [n] dataloaders, [k] own cells and at most [m]
    cells per worker. *)
Theorem crunch_enters_reductions sf wt s d dls lks aks c rank args w xs ys key0 vals
    inds coords nums :
  stored_grid w sf xs ys →
  (∀ lk, lk ∈ lks → ∃ a, lookup_dataset w sf lk = Some (DArr a)) →
  lks !! 0 = Some key0 →
  lookup_dataset w sf key0 = Some (DArr vals) →
  get_job_indices vals xs ys (Some c) = (inds, coords, nums) →
  is_Ok (crunch sf wt s d dls lks aks (Some c) rank args w).1 = true →
  count_events is_reduce (emitted (crunch sf wt s d dls lks aks (Some c) rank args) w)
  = 2 * length dls * length inds + 2 * (max_list nums - length inds).
Proof.
  intros Hg HF Hk0 Hv Hj HOk. apply emitted_counted.
  pose proof (crunch_reductions w sf wt s d dls lks aks c rank args xs ys key0 vals
                Hg HF Hk0 Hv w (conj (counted_since_refl _ _) eq_refl)) as H.
  rewrite Hj in H. cbn [fst snd] in H.
  by destruct (crunch _ _ _ _ _ _ _ _ _ _ w) as [[?|?] ?].
Qed.

(** X12: in [crunch_hessian_eigs] the workers stay in step.  On a surface
    file that holds the grid and both eigenvalue fields, a run with a
    communicator that ends normally has entered two reductions for each cell
    of its own and two for each round by which the busiest worker exceeds
    it: twice the larger of its own number of cells and the largest number
    of cells of a worker. *)
Theorem crunch_hessian_eigs_enters_reductions sf wt s d dl c rank args w xs ys mi ma
    inds coords nums :
  stored_grid w sf xs ys →
  lookup_dataset w sf "min_eig" = Some (DArr mi) →
  lookup_dataset w sf "max_eig" = Some (DArr ma) →
  get_job_indices ma xs ys (Some c) = (inds, coords, nums) →
  is_Ok (crunch_hessian_eigs sf wt s d dl (Some c) rank args w).1 = true →
  count_events is_reduce (emitted (crunch_hessian_eigs sf wt s d dl (Some c) rank args) w)
  = 2 * (length inds `max` max_list nums).
Proof.
  intros Hg Hmi Hma Hj HOk. apply emitted_counted.
  pose proof (crunch_hessian_reductions w sf wt s d dl c rank args xs ys mi ma
                Hg Hmi Hma w (conj (counted_since_refl _ _) eq_refl)) as H.
  rewrite Hj in H. cbn [fst snd] in H.
  destruct (crunch_hessian_eigs _ _ _ _ _ _ _ _ w) as [[?|?] ?]; [|done].
  cbn [snd].
  by replace (2 * (length inds `max` max_list nums))
    with (2 * length inds + 2 * (max_list nums - length inds)) by lia.
Qed.

(** ** The files of a process of rank other than 0 *)

Section Follower.
Variable fs0 : gmap string (gmap string Dataset).

Let J := files_are fs0.

Lemma follower_log e : preserves J (log e).
Proof. by intros w Hw. Qed.

Lemma follower_put_net n : preserves J (put_net n).
Proof. by intros w Hw. Qed.

Lemma follower_put_peers ps : preserves J (put_peers ps).
Proof. by intros w Hw. Qed.

Lemma follower_h5_create f k ds : h_mode f = ModeR → preserves J (h5_create f k ds).
Proof. intros Hf w Hw. by rewrite h5_create_read_only. Qed.

Lemma follower_h5_assign f k arr : h_mode f = ModeR → preserves J (h5_assign f k arr).
Proof.
  intros Hf w Hw. unfold h5_assign, h5_get. rewrite !run_bind. cbn [get_world].
  destruct (lookup_dataset w (h_path f) k) as [[old|?]|]; cbn [of_option]; try done.
  rewrite run_ret, Hf. done.
Qed.

Lemma follower_h5_open path mode :
  mode ≠ ModeA →
  hoare J (h5_open path mode) (λ f w, J w ∧ h_mode f = mode) (λ _, J).
Proof.
  intros Hm w Hw. unfold h5_open. rewrite run_bind. cbn [get_world].
  destruct (w_fs w !! path).
  - by rewrite run_bind, log_run, run_ret.
  - by destruct mode.
Qed.

Ltac follower_tac :=
  repeat first
    [ assumption
    | match goal with H : context [preserves _ _] |- _ => apply H end
    | apply preserves_ret | apply preserves_raise
    | apply follower_log | apply follower_put_net | apply follower_put_peers
    | apply preserves_read_only;
      first [ apply read_only_get_world | apply read_only_of_option
            | apply read_only_assert | apply read_only_h5_contains
            | apply read_only_h5_get | apply read_only_h5_read
            | apply read_only_ravel_set | apply read_only_np_len
            | apply read_only_py_max | apply read_only_np_linspace
            | apply read_only_grid_shape | apply read_only_read_grid
            | apply read_only_record_result ]
    | apply preserves_bind; [|intros]
    | apply preserves_for_each; intros
    | match goal with
      | |- preserves _ (match ?x with _ => _ end) => destruct x
      | |- preserves _ (if ?b then _ else _) => destruct b
      | |- preserves _ (let '(_, _) := ?x in _) => destruct x
      end ].

Lemma follower_reduce op comm arr : preserves J (reduce op comm arr).
Proof. unfold reduce. follower_tac. Qed.

Lemma follower_barrier comm : preserves J (barrier comm).
Proof. unfold barrier. follower_tac. Qed.

Lemma follower_h5_flush f : preserves J (h5_flush f).
Proof. apply follower_log. Qed.

Lemma follower_h5_close f : preserves J (h5_close f).
Proof. apply follower_log. Qed.

Lemma follower_load_weights args wt s d coord : preserves J (load_weights args wt s d coord).
Proof. unfold load_weights. follower_tac. Qed.

Lemma follower_call_evaluator dl : preserves J (call_evaluator dl).
Proof. unfold call_evaluator. follower_tac. Qed.

Lemma follower_call_hessian dl : preserves J (call_min_max_hessian_eigs dl).
Proof. unfold call_min_max_hessian_eigs. follower_tac. Qed.

Lemma follower_reduce_pair comm lk ak st : preserves J (reduce_pair comm lk ak st).
Proof.
  unfold reduce_pair, reduce_max. destruct st. pose proof follower_reduce. follower_tac.
Qed.

Lemma follower_evaluate_and_record ind st job : preserves J (evaluate_and_record ind st job).
Proof.
  unfold evaluate_and_record. destruct job as [dl [lk ak]].
  pose proof follower_call_evaluator. follower_tac.
Qed.

Lemma follower_eigs_and_record dl ind st : preserves J (eigs_and_record dl ind st).
Proof.
  unfold eigs_and_record. destruct st. pose proof follower_call_hessian. follower_tac.
Qed.

Lemma follower_open_fields sf dls lks aks rank :
  rank ≠ 0 →
  hoare J (open_fields sf dls lks aks rank) (λ r w, J w ∧ h_mode r.1.1.1 = ModeR) (λ _, J).
Proof.
  intros Hr%Nat.eqb_neq. unfold open_fields. rewrite Hr.
  eapply hoare_bind; [apply preserves_read_only, read_only_assert|]. intros ?.
  eapply hoare_bind; [by apply follower_h5_open|]. intros f.
  apply hoare_pure_pre. intros Hf.
  eapply hoare_bind; [apply preserves_read_only, read_only_read_grid|]. intros [xs ys].
  eapply hoare_bind; [apply preserves_read_only, read_only_grid_shape|]. intros shp.
  eapply hoare_bind.
  { apply preserves_for_each. intros [losses accs] [lk ak]. unfold load_field_pair.
    pose proof (follower_h5_create f) as Hc. follower_tac. }
  intros st. by apply hoare_ret.
Qed.

Lemma follower_open_eig_fields sf rank :
  rank ≠ 0 →
  hoare J (open_eig_fields sf rank) (λ r w, J w ∧ h_mode r.1.1.1 = ModeR) (λ _, J).
Proof.
  intros Hr%Nat.eqb_neq. unfold open_eig_fields. rewrite Hr.
  eapply hoare_bind; [by apply follower_h5_open|]. intros f.
  apply hoare_pure_pre. intros Hf.
  eapply hoare_bind; [apply preserves_read_only, read_only_read_grid|]. intros [xs ys].
  eapply hoare_bind.
  { unfold load_eig_fields. rewrite Hr. follower_tac. }
  intros st. by apply hoare_ret.
Qed.

Lemma follower_crunch sf wt s d dls lks aks comm rank args :
  rank ≠ 0 → preserves J (crunch sf wt s d dls lks aks comm rank args).
Proof.
  intros Hr. unfold crunch.
  eapply hoare_bind; [by apply follower_open_fields|].
  intros [[[f xs] ys] st]. apply hoare_pure_pre. cbn [fst]. intros Hf.
  pose proof (follower_h5_assign f) as Ha.
  pose proof follower_load_weights. pose proof follower_evaluate_and_record.
  pose proof follower_reduce_pair. pose proof follower_h5_flush.
  pose proof follower_h5_close.
  unfold crunch_cell, keep_reducing, commit_pair.
  follower_tac.
Qed.

Lemma follower_crunch_2 sf wt s d dls lks aks comm rank args :
  rank ≠ 0 → preserves J (crunch_2 sf wt s d dls lks aks comm rank args).
Proof.
  intros Hr. unfold crunch_2.
  eapply hoare_bind; [by apply follower_open_fields|].
  intros [[[f xs] ys] st]. apply hoare_pure_pre. cbn [fst]. intros Hf.
  pose proof (follower_h5_assign f) as Ha.
  pose proof follower_load_weights. pose proof follower_evaluate_and_record.
  pose proof follower_h5_flush. pose proof follower_h5_close.
  unfold crunch_2_cell, commit_pair.
  follower_tac.
Qed.

Lemma follower_crunch_hessian_eigs sf wt s d dl comm rank args :
  rank ≠ 0 → preserves J (crunch_hessian_eigs sf wt s d dl comm rank args).
Proof.
  intros Hr. unfold crunch_hessian_eigs.
  eapply hoare_bind; [by apply follower_open_eig_fields|].
  intros [[[f xs] ys] st]. apply hoare_pure_pre. cbn [fst]. intros Hf.
  pose proof (follower_h5_assign f) as Ha.
  pose proof follower_load_weights. pose proof follower_eigs_and_record.
  pose proof follower_reduce. pose proof follower_h5_close.
  unfold crunch_hessian_cell, keep_reducing_eigs, reduce_max, reduce_min.
  match goal with |- hoare _ ?m _ _ => change (preserves J m) end.
  follower_tac.
Qed.

Lemma follower_crunch_hessian_eigs_2 sf wt s d dl comm rank args :
  rank ≠ 0 → preserves J (crunch_hessian_eigs_2 sf wt s d dl comm rank args).
Proof.
  intros Hr. unfold crunch_hessian_eigs_2.
  eapply hoare_bind; [by apply follower_open_eig_fields|].
  intros [[[f xs] ys] st]. apply hoare_pure_pre. cbn [fst]. intros Hf.
  pose proof (follower_h5_assign f) as Ha.
  pose proof follower_load_weights. pose proof follower_eigs_and_record.
  pose proof follower_h5_close.
  unfold crunch_hessian_2_cell.
  match goal with |- hoare _ ?m _ _ => change (preserves J m) end.
  follower_tac.
Qed.

Lemma follower_environment_setup args :
  hoare J (environment_setup args)
    (λ r w, J w ∧ r.2 = if a_mpi args then setup_MPI.1 else 0) (λ _, J).
Proof.
  intros w Hw. unfold environment_setup.
  destruct (a_mpi args), (a_cuda args), cuda_is_available;
    cbv [mbind M_bind mret M_ret log raise negb]; cbn; done.
Qed.

Lemma read_only_check_resolution args : read_only (check_resolution args).
Proof. intros w. by rewrite check_resolution_run. Qed.

Lemma read_only_name_surface_file args dir_file :
  read_only (name_surface_file args dir_file).
Proof. unfold name_surface_file. read_only_tac. Qed.

Lemma follower_get_net model_file : preserves J (get_net model_file).
Proof. unfold get_net. follower_tac. Qed.

Lemma follower_setup_dir_file args rank comm :
  rank ≠ 0 → preserves J (setup_dir_file args rank comm).
Proof.
  intros Hr%Nat.eqb_neq. unfold setup_dir_file. rewrite Hr.
  pose proof follower_barrier.
  pose proof (preserves_read_only J _ (read_only_name_surface_file args
                                         (name_direction_file args))).
  follower_tac.
Qed.

Lemma follower_plot_surface args train test save_to :
  a_mpi args = true → setup_MPI.1 ≠ 0 →
  preserves J (plot_surface args train test save_to).
Proof.
  intros Hmpi Hr. unfold plot_surface.
  eapply hoare_bind; [apply preserves_read_only, read_only_assert|]. intros ?.
  eapply hoare_bind; [apply follower_log|]. intros ?.
  eapply hoare_bind.
  { destruct (str_truthy save_to); [apply follower_log|apply preserves_ret]. }
  intros ?.
  assert (Hinit : hoare J (init_plot_surface args)
                    (λ r w, J w ∧ r.2 = setup_MPI.1) (λ _, J)).
  { unfold init_plot_surface.
    eapply hoare_bind; [apply follower_log|]. intros ?.
    eapply hoare_bind; [apply follower_environment_setup|]. intros [comm rank].
    apply hoare_pure_pre. rewrite Hmpi. cbn [snd]. intros ->.
    eapply hoare_bind; [apply preserves_read_only, read_only_check_resolution|].
    intros args0. by apply hoare_ret. }
  eapply hoare_bind; [apply Hinit|].
  intros [[args0 comm] rank]. apply hoare_pure_pre. cbn [snd]. intros ->.
  pose proof follower_get_net. pose proof (follower_setup_dir_file args0 _ comm Hr).
  pose proof (λ sf wt s d dls lks aks,
                follower_crunch sf wt s d dls lks aks comm _ args0 Hr).
  pose proof (λ sf wt s d dls lks aks,
                follower_crunch_2 sf wt s d dls lks aks comm _ args0 Hr).
  match goal with |- hoare _ ?m _ _ => change (preserves J m) end.
  follower_tac.
  all: destruct (a_mpi args0); follower_tac.
Qed.

Lemma follower_plot_hessian_eigen args dl :
  a_mpi args = true → setup_MPI.1 ≠ 0 →
  preserves J (plot_hessian_eigen args dl).
Proof.
  intros Hmpi Hr. unfold plot_hessian_eigen.
  eapply hoare_bind; [apply follower_log|]. intros ?.
  eapply hoare_bind; [apply follower_environment_setup|]. intros [comm rank].
  apply hoare_pure_pre. rewrite Hmpi. cbn [snd]. intros ->.
  eapply hoare_bind; [apply preserves_read_only, read_only_check_resolution|].
  intros args0.
  pose proof follower_get_net. pose proof (follower_setup_dir_file args0 _ comm Hr).
  pose proof (λ sf wt s d dl,
                follower_crunch_hessian_eigs sf wt s d dl comm _ args0 Hr).
  pose proof (λ sf wt s d dl,
                follower_crunch_hessian_eigs_2 sf wt s d dl comm _ args0 Hr).
  match goal with |- hoare _ ?m _ _ => change (preserves J m) end.
  follower_tac.
  all: destruct (a_mpi args0); follower_tac.
Qed.

End Follower.

(** X13: only rank 0 writes.  In each of the four crunch variants a process
    whose rank is not 0 leaves every HDF5 file exactly as it found it,
    however the run ends. *)
Theorem follower_changes_no_file sf wt s d comm rank args w :
  rank ≠ 0 →
  (∀ dls lks aks,
     w_fs (crunch sf wt s d dls lks aks comm rank args w).2 = w_fs w
     ∧ w_fs (crunch_2 sf wt s d dls lks aks comm rank args w).2 = w_fs w)
  ∧ (∀ dl,
       w_fs (crunch_hessian_eigs sf wt s d dl comm rank args w).2 = w_fs w
       ∧ w_fs (crunch_hessian_eigs_2 sf wt s d dl comm rank args w).2 = w_fs w).
Proof.
  intros Hr. split; intros; split;
    apply (run_of_preserves (files_are (w_fs w))); try reflexivity.
  - by apply follower_crunch.
  - by apply follower_crunch_2.
  - by apply follower_crunch_hessian_eigs.
  - by apply follower_crunch_hessian_eigs_2.
Qed.

(** X14: in a run under MPI the process whose rank is not 0 changes no HDF5
    file in the whole of [plot_surface] and of [plot_hessian_eigen]: setting
    up the direction and surface files and every write of a result are left
    to rank 0. *)
Theorem follower_plots_change_no_file args w :
  a_mpi args = true → setup_MPI.1 ≠ 0 →
  (∀ train test save_to, w_fs (plot_surface args train test save_to w).2 = w_fs w)
  ∧ (∀ dl, w_fs (plot_hessian_eigen args dl w).2 = w_fs w).
Proof.
  intros Hmpi Hr. split; intros;
    apply (run_of_preserves (files_are (w_fs w))); try reflexivity.
  - by apply follower_plot_surface.
  - by apply follower_plot_hessian_eigen.
Qed.

(** ** What a crunch run leaves alone *)

Section Frame.
Variables (w0 : World) (sf : string) (keys : list string).

(** The invariant once the surface file is open. *)
Let J (w : World) : Prop := only_touched sf keys w0 w ∧ is_Some (w_fs w !! sf).

Lemma frame_log e : preserves J (log e).
Proof. by intros w Hw. Qed.

Lemma frame_put_net n : preserves J (put_net n).
Proof. by intros w Hw. Qed.

Lemma frame_put_peers ps : preserves J (put_peers ps).
Proof. by intros w Hw. Qed.

Lemma frame_write w k ds :
  J w → k ∈ keys →
  J (MkWorld (<[sf := <[k := ds]> (default ∅ (w_fs w !! sf))]> (w_fs w))
       (w_net w) (w_peers w) (w_trace w)).
Proof.
  intros [(Hother & Hfile & Hk) Hsome] Hin. split; [split; [|split]|].
  - intros path Hne. cbn. rewrite lookup_insert_ne by done. by apply Hother.
  - cbn. rewrite lookup_insert_eq. rewrite <- Hfile. split; eauto.
  - intros k' Hk'. rewrite <- (Hk k' Hk'). unfold lookup_dataset. cbn.
    rewrite lookup_insert_eq. cbn. rewrite lookup_insert_ne by (intros ->; done).
    destruct Hsome as [file ->]. done.
  - cbn. rewrite lookup_insert_eq. eauto.
Qed.

Lemma frame_h5_create f k ds :
  h_path f = sf → k ∈ keys → preserves J (h5_create f k ds).
Proof.
  intros Hf Hin w Hw. unfold h5_create. rewrite Hf.
  destruct (h_mode f); [done| |];
    rewrite run_bind; cbn [get_world];
    (destruct (lookup_dataset w sf k) eqn:Hl; [done|]);
    rewrite run_bind; cbn [put_fs]; rewrite log_run;
    by apply (frame_write w k ds Hw).
Qed.

Lemma frame_h5_assign f k arr :
  h_path f = sf → k ∈ keys → preserves J (h5_assign f k arr).
Proof.
  intros Hf Hin w Hw. unfold h5_assign, h5_get. rewrite !run_bind. cbn [get_world].
  rewrite Hf.
  destruct (lookup_dataset w sf k) as [[old|?]|] eqn:Hk; cbn [of_option]; try done.
  rewrite run_ret.
  destruct (h_mode f); try done;
    (destruct (_ && _); [|done]);
    rewrite run_bind; cbn [get_world]; rewrite run_bind; cbn [put_fs];
    rewrite log_run; by apply (frame_write w k (DArr arr) Hw).
Qed.

Lemma frame_h5_open mode :
  mode ≠ ModeA →
  hoare (only_touched sf keys w0) (h5_open sf mode)
    (λ f w, J w ∧ h_path f = sf) (λ _, only_touched sf keys w0).
Proof.
  intros Hm w Hw. unfold h5_open. rewrite run_bind. cbn [get_world].
  destruct (w_fs w !! sf) as [file|] eqn:Hfile.
  - rewrite run_bind, log_run, run_ret. split; [|done]. split; [done|].
    cbn. rewrite Hfile. eauto.
  - by destruct mode.
Qed.

Ltac frame_tac :=
  repeat first
    [ assumption
    | match goal with H : context [preserves _ _] |- _ => apply H end
    | apply preserves_ret | apply preserves_raise
    | apply frame_log | apply frame_put_net | apply frame_put_peers
    | apply preserves_read_only;
      first [ apply read_only_get_world | apply read_only_of_option
            | apply read_only_assert | apply read_only_h5_contains
            | apply read_only_h5_get | apply read_only_h5_read
            | apply read_only_ravel_set | apply read_only_np_len
            | apply read_only_py_max | apply read_only_np_linspace
            | apply read_only_grid_shape | apply read_only_read_grid
            | apply read_only_record_result ]
    | apply preserves_bind; [|intros]
    | apply preserves_for_each; intros
    | match goal with
      | |- preserves _ (match ?x with _ => _ end) => destruct x
      | |- preserves _ (if ?b then _ else _) => destruct b
      | |- preserves _ (let '(_, _) := ?x in _) => destruct x
      end ].

Lemma frame_reduce op comm arr : preserves J (reduce op comm arr).
Proof. unfold reduce. frame_tac. Qed.

Lemma frame_load_weights args wt s d coord : preserves J (load_weights args wt s d coord).
Proof. unfold load_weights. frame_tac. Qed.

Lemma frame_call_evaluator dl : preserves J (call_evaluator dl).
Proof. unfold call_evaluator. frame_tac. Qed.

Lemma frame_call_hessian dl : preserves J (call_min_max_hessian_eigs dl).
Proof. unfold call_min_max_hessian_eigs. frame_tac. Qed.

Lemma frame_reduce_pair comm lk ak st : preserves J (reduce_pair comm lk ak st).
Proof.
  unfold reduce_pair, reduce_max. destruct st. pose proof frame_reduce. frame_tac.
Qed.

Lemma frame_evaluate_and_record ind st job : preserves J (evaluate_and_record ind st job).
Proof.
  unfold evaluate_and_record. destruct job as [dl [lk ak]].
  pose proof frame_call_evaluator. frame_tac.
Qed.

Lemma frame_eigs_and_record dl ind st : preserves J (eigs_and_record dl ind st).
Proof.
  unfold eigs_and_record. destruct st. pose proof frame_call_hessian. frame_tac.
Qed.

Lemma elem_of_zip_keys (lks aks : list string) lk ak :
  (lk, ak) ∈ zip lks aks → lk ∈ lks ++ aks ∧ ak ∈ lks ++ aks.
Proof.
  intros Hin. apply list_elem_of_lookup in Hin as [i Hi].
  apply lookup_zip_with_Some in Hi as (x & y & [= <- <-] & Hx & Hy).
  split; apply elem_of_app; [left|right]; apply list_elem_of_lookup; eauto.
Qed.

(** The loops over the key pairs of [crunch] and [crunch_2]. *)
Lemma frame_load_fields f shp lks aks st :
  h_path f = sf → (∀ k, k ∈ lks ++ aks → k ∈ keys) →
  preserves J (for_each (load_field_pair f shp) (zip lks aks) st).
Proof.
  intros Hf Hkeys. apply (hoare_for_each _ (λ _, J)).
  intros [losses accs] [lk ak] [Hlk Hak]%elem_of_zip_keys.
  unfold load_field_pair.
  pose proof (frame_h5_create f lk (DArr (np_neg (np_ones shp))) Hf (Hkeys _ Hlk)).
  pose proof (frame_h5_create f ak (DArr (np_neg (np_ones shp))) Hf (Hkeys _ Hak)).
  change (hoare J ?m (λ _, J) (λ _, J)) with (preserves J m).
  frame_tac.
Qed.

Lemma frame_commit_loop f lks aks st :
  h_path f = sf → (∀ k, k ∈ lks ++ aks → k ∈ keys) →
  preserves J (for_each (commit_pair f) (zip lks aks) st).
Proof.
  intros Hf Hkeys. apply (hoare_for_each _ (λ _, J)).
  intros [losses accs] [lk ak] [Hlk Hak]%elem_of_zip_keys.
  unfold commit_pair.
  pose proof (λ arr, frame_h5_assign f lk arr Hf (Hkeys _ Hlk)).
  pose proof (λ arr, frame_h5_assign f ak arr Hf (Hkeys _ Hak)).
  change (hoare J ?m (λ _, J) (λ _, J)) with (preserves J m).
  frame_tac.
Qed.

Lemma frame_open_fields dls lks aks rank :
  (∀ k, k ∈ lks ++ aks → k ∈ keys) →
  hoare (only_touched sf keys w0) (open_fields sf dls lks aks rank)
    (λ r w, J w ∧ h_path r.1.1.1 = sf) (λ _, only_touched sf keys w0).
Proof.
  intros Hkeys. unfold open_fields.
  eapply hoare_bind; [apply preserves_read_only, read_only_assert|]. intros ?.
  eapply hoare_bind.
  { apply frame_h5_open. by destruct (Nat.eqb rank 0). }
  intros f. apply hoare_pure_pre. intros Hf.
  eapply hoare_conseq with (E' := λ _, J); [|done|intros r w Hw; exact Hw|by intros e w [? _]].
  eapply hoare_bind; [apply preserves_read_only, read_only_read_grid|]. intros [xs ys].
  eapply hoare_bind; [apply preserves_read_only, read_only_grid_shape|]. intros shp.
  eapply hoare_bind; [by apply frame_load_fields|].
  intros st. by apply hoare_ret.
Qed.

Lemma frame_open_eig_fields rank :
  "min_eig" ∈ keys → "max_eig" ∈ keys →
  hoare (only_touched sf keys w0) (open_eig_fields sf rank)
    (λ r w, J w ∧ h_path r.1.1.1 = sf) (λ _, only_touched sf keys w0).
Proof.
  intros Hmin Hmax. unfold open_eig_fields.
  eapply hoare_bind.
  { apply frame_h5_open. by destruct (Nat.eqb rank 0). }
  intros f. apply hoare_pure_pre. intros Hf.
  eapply hoare_conseq with (E' := λ _, J); [|done|intros r w Hw; exact Hw|by intros e w [? _]].
  eapply hoare_bind; [apply preserves_read_only, read_only_read_grid|]. intros [xs ys].
  eapply hoare_bind.
  { unfold load_eig_fields.
    pose proof (λ ds, frame_h5_create f "min_eig" ds Hf Hmin).
    pose proof (λ ds, frame_h5_create f "max_eig" ds Hf Hmax).
    change (hoare J ?m (λ _, J) (λ _, J)) with (preserves J m).
    frame_tac. }
  intros st. by apply hoare_ret.
Qed.

Lemma frame_crunch wt s d dls lks aks comm rank args :
  (∀ k, k ∈ lks ++ aks → k ∈ keys) →
  hoare (only_touched sf keys w0) (crunch sf wt s d dls lks aks comm rank args)
    (λ _, only_touched sf keys w0) (λ _, only_touched sf keys w0).
Proof.
  intros Hkeys. unfold crunch.
  eapply hoare_bind; [by apply frame_open_fields|].
  intros [[[f xs] ys] st]. apply hoare_pure_pre. cbn [fst]. intros Hf.
  eapply hoare_conseq with (Q' := λ _, J) (E' := λ _, J);
    [|done|by intros r w [? _]|by intros e w [? _]].
  pose proof frame_load_weights. pose proof frame_evaluate_and_record.
  pose proof frame_reduce_pair.
  pose proof (λ st, frame_commit_loop f lks aks st Hf Hkeys).
  pose proof (frame_log (EvFlush (h_path f))). pose proof (frame_log (EvClose (h_path f))).
  unfold crunch_cell, keep_reducing, h5_flush, h5_close.
  change (hoare J ?m (λ _, J) (λ _, J)) with (preserves J m).
  frame_tac.
Qed.

Lemma frame_crunch_2 wt s d dls lks aks comm rank args :
  (∀ k, k ∈ lks ++ aks → k ∈ keys) →
  hoare (only_touched sf keys w0) (crunch_2 sf wt s d dls lks aks comm rank args)
    (λ _, only_touched sf keys w0) (λ _, only_touched sf keys w0).
Proof.
  intros Hkeys. unfold crunch_2.
  eapply hoare_bind; [by apply frame_open_fields|].
  intros [[[f xs] ys] st]. apply hoare_pure_pre. cbn [fst]. intros Hf.
  eapply hoare_conseq with (Q' := λ _, J) (E' := λ _, J);
    [|done|by intros r w [? _]|by intros e w [? _]].
  pose proof frame_load_weights. pose proof frame_evaluate_and_record.
  pose proof (λ st, frame_commit_loop f lks aks st Hf Hkeys).
  pose proof (frame_log (EvFlush (h_path f))). pose proof (frame_log (EvClose (h_path f))).
  unfold crunch_2_cell, h5_flush, h5_close.
  change (hoare J ?m (λ _, J) (λ _, J)) with (preserves J m).
  frame_tac.
Qed.

Lemma frame_crunch_hessian_eigs wt s d dl comm rank args :
  "min_eig" ∈ keys → "max_eig" ∈ keys →
  hoare (only_touched sf keys w0) (crunch_hessian_eigs sf wt s d dl comm rank args)
    (λ _, only_touched sf keys w0) (λ _, only_touched sf keys w0).
Proof.
  intros Hmin Hmax. unfold crunch_hessian_eigs.
  eapply hoare_bind; [by apply frame_open_eig_fields|].
  intros [[[f xs] ys] st]. apply hoare_pure_pre. cbn [fst]. intros Hf.
  eapply hoare_conseq with (Q' := λ _, J) (E' := λ _, J);
    [|done|by intros r w [? _]|by intros e w [? _]].
  pose proof frame_load_weights. pose proof frame_eigs_and_record.
  pose proof frame_reduce.
  pose proof (λ arr, frame_h5_assign f "min_eig" arr Hf Hmin).
  pose proof (λ arr, frame_h5_assign f "max_eig" arr Hf Hmax).
  pose proof (frame_log (EvClose (h_path f))).
  unfold crunch_hessian_cell, keep_reducing_eigs, reduce_max, reduce_min, h5_close.
  change (hoare J ?m (λ _, J) (λ _, J)) with (preserves J m).
  frame_tac.
Qed.

Lemma frame_crunch_hessian_eigs_2 wt s d dl comm rank args :
  "min_eig" ∈ keys → "max_eig" ∈ keys →
  hoare (only_touched sf keys w0) (crunch_hessian_eigs_2 sf wt s d dl comm rank args)
    (λ _, only_touched sf keys w0) (λ _, only_touched sf keys w0).
Proof.
  intros Hmin Hmax. unfold crunch_hessian_eigs_2.
  eapply hoare_bind; [by apply frame_open_eig_fields|].
  intros [[[f xs] ys] st]. apply hoare_pure_pre. cbn [fst]. intros Hf.
  eapply hoare_conseq with (Q' := λ _, J) (E' := λ _, J);
    [|done|by intros r w [? _]|by intros e w [? _]].
  pose proof frame_load_weights. pose proof frame_eigs_and_record.
  pose proof (λ arr, frame_h5_assign f "min_eig" arr Hf Hmin).
  pose proof (λ arr, frame_h5_assign f "max_eig" arr Hf Hmax).
  pose proof (frame_log (EvClose (h_path f))).
  unfold crunch_hessian_2_cell, h5_close.
  change (hoare J ?m (λ _, J) (λ _, J)) with (preserves J m).
  frame_tac.
Qed.

End Frame.

Lemma only_touched_refl sf keys w : only_touched sf keys w w.
Proof. by repeat split. Qed.

(** X15: a crunch run touches nothing but its own fields.  However it ends,
    a run of [crunch] or [crunch_2] leaves every other file, and in the
    surface file every dataset other than the loss and accuracy fields it
    was given (the axes and the back-reference to the direction file
    included), exactly as it found them; a run of [crunch_hessian_eigs] or
    [crunch_hessian_eigs_2] everything but [min_eig] and [max_eig]; and none
    of them creates or removes the surface file. *)
Theorem crunch_touches_only_its_fields sf wt s d comm rank args w :
  (∀ dls lks aks,
     only_touched sf (lks ++ aks) w (crunch sf wt s d dls lks aks comm rank args w).2
     ∧ only_touched sf (lks ++ aks) w (crunch_2 sf wt s d dls lks aks comm rank args w).2)
  ∧ (∀ dl,
       only_touched sf ["min_eig"; "max_eig"] w
         (crunch_hessian_eigs sf wt s d dl comm rank args w).2
       ∧ only_touched sf ["min_eig"; "max_eig"] w
           (crunch_hessian_eigs_2 sf wt s d dl comm rank args w).2).
Proof.
  split.
  - intros dls lks aks. split.
    + pose proof (frame_crunch w sf (lks ++ aks) wt s d dls lks aks comm rank args
                    ltac:(done) w (only_touched_refl _ _ _)) as H.
      by destruct (crunch _ _ _ _ _ _ _ _ _ _ w) as [[?|?] ?].
    + pose proof (frame_crunch_2 w sf (lks ++ aks) wt s d dls lks aks comm rank args
                    ltac:(done) w (only_touched_refl _ _ _)) as H.
      by destruct (crunch_2 _ _ _ _ _ _ _ _ _ _ w) as [[?|?] ?].
  - intros dl. split.
    + pose proof (frame_crunch_hessian_eigs w sf ["min_eig"; "max_eig"] wt s d dl comm rank
                    args ltac:(set_solver) ltac:(set_solver) w (only_touched_refl _ _ _))
        as H.
      by destruct (crunch_hessian_eigs _ _ _ _ _ _ _ _ w) as [[?|?] ?].
    + pose proof (frame_crunch_hessian_eigs_2 w sf ["min_eig"; "max_eig"] wt s d dl comm rank
                    args ltac:(set_solver) ltac:(set_solver) w (only_touched_refl _ _ _))
        as H.
      by destruct (crunch_hessian_eigs_2 _ _ _ _ _ _ _ _ w) as [[?|?] ?].
Qed.

(** ** What a run evaluates and what rank 0 writes, cell by cell *)

Lemma counted_since_trace p w0 k w w' t :
  counted_since p w0 k w → w_trace w' = w_trace w ++ t →
  counted_since p w0 (k + count_events p t) w'.
Proof.
  intros (t0 & Ht0 & Hk) Ht. exists (t0 ++ t). rewrite Ht, Ht0, app_assoc.
  split; [done|]. by rewrite count_events_app, Hk.
Qed.

(** A census of the events of a crunch run, by a predicate [p] on events
    that holds of [ne] of the calls of the evaluator or of the eigenvalue
    solver, of [nc] of the commits of one dataset and of [nf] of the flushes
    (each of them 0 or 1), and of nothing else. *)
Section Census.
Variable p : Event → bool.
Variables ne nc nf : nat.
Hypothesis p_eval : ∀ n dl, count_events p [EvEval n dl] = ne.
Hypothesis p_hessian : ∀ n dl, count_events p [EvHessian n dl] = ne.
Hypothesis p_commit : ∀ path key, count_events p [EvCommit path key] = nc.
Hypothesis p_flush : ∀ path, count_events p [EvFlush path] = nf.
Hypothesis p_open : ∀ path mode, p (EvOpen path mode) = false.
Hypothesis p_create : ∀ path key, p (EvCreate path key) = false.
Hypothesis p_close : ∀ path, p (EvClose path) = false.
Hypothesis p_reduce : ∀ op, p (EvReduce op) = false.
Hypothesis p_weights : ∀ c, p (EvSetWeights c) = false.
Hypothesis p_states : ∀ c, p (EvSetStates c) = false.

(** What a process of rank [rank] writes after a cell, for [n] datasets. *)
Let written (rank n : nat) : nat :=
  if Nat.eqb rank 0 then nc * n + nf else 0.

Lemma h5_assign_written w0 k f key arr :
  hoare (counted_since p w0 k) (h5_assign f key arr)
    (λ _, counted_since p w0 (k + nc)) (λ _ _, True).
Proof.
  intros w Hw. destruct (h5_assign f key arr w) as [[[]|e] w'] eqn:H; [|done].
  apply h5_assign_Ok in H. rewrite <- (p_commit (h_path f) key).
  by eapply counted_since_trace.
Qed.

Lemma commit_pair_written w0 k f st keys :
  hoare (counted_since p w0 k) (commit_pair f st keys)
    (λ _, counted_since p w0 (k + 2 * nc)) (λ _ _, True).
Proof.
  unfold commit_pair. destruct st as [losses accs], keys as [lk ak].
  eapply hoare_bind; [apply hoare_read_only_frame; [apply read_only_of_option|done]|].
  intros la. eapply hoare_bind; [apply h5_assign_written|]. intros ?.
  eapply hoare_bind; [apply hoare_read_only_frame; [apply read_only_of_option|done]|].
  intros aa. eapply hoare_bind; [apply h5_assign_written|]. intros ?.
  apply hoare_ret. intros w Hw. by replace (k + 2 * nc) with (k + nc + nc) by lia.
Qed.

Lemma call_evaluator_census w0 k dl :
  hoare (counted_since p w0 k) (call_evaluator dl)
    (λ _, counted_since p w0 (k + ne)) (λ _ _, True).
Proof.
  intros w Hw. unfold call_evaluator. rewrite run_bind. cbn [get_world].
  rewrite run_bind, log_run, run_ret. rewrite <- (p_eval (w_net w) dl).
  by eapply counted_since_trace.
Qed.

Lemma call_hessian_census w0 k dl :
  hoare (counted_since p w0 k) (call_min_max_hessian_eigs dl)
    (λ _, counted_since p w0 (k + ne)) (λ _ _, True).
Proof.
  intros w Hw. unfold call_min_max_hessian_eigs. rewrite run_bind. cbn [get_world].
  rewrite run_bind, log_run, run_ret. rewrite <- (p_hessian (w_net w) dl).
  by eapply counted_since_trace.
Qed.

Ltac silent_goal :=
  first [ exact (counted_since_logged p _ _)
        | (intros ? ? Hq; exact Hq)
        | (intros; apply preserves_load_weights_quiet; intros;
           first [apply p_weights | apply p_states])
        | (intros; first [ apply p_open | apply p_create | apply p_close
                         | apply p_reduce ]) ].

Lemma crunch_cell_census w0 k f wt s d dls lks aks comm rank args coords st ci :
  hoare (counted_since p w0 k)
    (crunch_cell f wt s d dls lks aks comm rank args coords st ci)
    (λ _, counted_since p w0
            (k + (ne * length (zip dls (zip lks aks))
                  + written rank (2 * length (zip lks aks)))))
    (λ _ _, True).
Proof.
  unfold crunch_cell. destruct ci as [count ind].
  eapply hoare_bind; [apply hoare_read_only_frame; [apply read_only_of_option|done]|].
  intros coord.
  eapply hoare_bind.
  { apply preserves_weaken, preserves_load_weights_quiet; [apply p_weights|apply p_states]. }
  intros ?.
  eapply hoare_bind.
  { apply (hoare_for_each_counted p w0 ne). intros st' job k'.
    eapply hoare_bind.
    - unfold evaluate_and_record. destruct job as [dl [lk ak]].
      eapply hoare_bind; [apply call_evaluator_census|]. intros result.
      apply hoare_read_only_frame; [apply read_only_record_result|done].
    - intros st''. apply preserves_weaken.
      eapply (preserves_reduce_pair (counted_since p w0 (k' + ne)) (λ e, p e = false));
        silent_goal. }
  intros st'.
  eapply hoare_bind
    with (R := λ _, counted_since p w0
                      (k + ne * length (zip dls (zip lks aks))
                       + written rank (2 * length (zip lks aks)))).
  { unfold written. destruct (Nat.eqb rank 0).
    - eapply hoare_bind.
      + apply (hoare_for_each_counted p w0 (2 * nc) (commit_pair f)).
        intros. apply commit_pair_written.
      + intros ? w Hw. unfold h5_flush. rewrite log_run.
        rewrite <- (p_flush (h_path f)).
        replace (nc * (2 * length (zip lks aks))) with (2 * nc * length (zip lks aks))
          by lia.
        rewrite Nat.add_assoc.
        eapply (counted_since_trace p w0 _ w); [exact Hw|done].
    - apply hoare_ret. intros w Hw. by rewrite Nat.add_0_r. }
  intros ?. apply hoare_ret. intros w Hw. by rewrite Nat.add_assoc.
Qed.

Lemma crunch_census (w : World) sf wt s d dls lks aks comm rank args xs ys key0 vals :
  stored_grid w sf xs ys →
  (∀ lk, lk ∈ lks → ∃ a, lookup_dataset w sf lk = Some (DArr a)) →
  lks !! 0 = Some key0 →
  lookup_dataset w sf key0 = Some (DArr vals) →
  hoare (λ w', counted_since p w 0 w' ∧ w_fs w' = w_fs w)
    (crunch sf wt s d dls lks aks comm rank args)
    (λ _, counted_since p w
            ((ne * length dls + written rank (2 * length dls))
             * length (get_job_indices vals xs ys comm).1.1))
    (λ _ _, True).
Proof.
  intros Hg HF Hk0 Hv. unfold crunch.
  eapply hoare_bind.
  { eapply hoare_conseq.
    - apply hoare_conj.
      + eapply (open_fields_present_spec (counted_since p w 0) (λ e, p e = false)).
        all: try silent_goal. exact HF.
      + apply (open_fields_grid_spec sf dls lks aks rank w xs ys Hg).
    - intros w' Hw'. split; [exact Hw'|exact (proj2 Hw')].
    - intros r w' Hw'. exact Hw'.
    - done. }
  intros [[[f xs'] ys'] st]. apply hoare_pure_pre. cbn [fst snd].
  intros [Hxs Hys]. subst xs' ys'.
  apply hoare_pure_pre. intros (Hl1 & Hl2 & Hst).
  eapply hoare_bind; [by apply hoare_of_option_val|].
  intros key0'. apply hoare_pure_pre. intros Hkey0.
  eapply hoare_bind; [by apply hoare_of_option_val|].
  intros vals'. apply hoare_pure_pre. intros Hvals.
  assert (vals' = vals) as ->.
  { apply Hst in Hvals.
    change (fs_dataset (w_fs w) sf key0') with (lookup_dataset w sf key0') in Hvals.
    congruence. }
  destruct (get_job_indices vals xs ys comm) as [[inds coords] nums]. cbn [fst snd].
  eapply hoare_bind.
  { eapply hoare_conseq;
      [apply (hoare_for_each_counted p w
                (ne * length (zip dls (zip lks aks))
                 + written rank (2 * length (zip lks aks)))
                (crunch_cell f wt s d dls lks aks comm rank args coords));
       intros; apply crunch_cell_census
      |by intros w' [? _]|intros r w' Hw'; exact Hw'|done]. }
  intros st'.
  eapply hoare_bind; [apply hoare_read_only_frame; [apply read_only_py_max|done]|].
  intros most.
  eapply hoare_bind.
  { apply preserves_weaken, preserves_for_each. intros.
    eapply (preserves_keep_reducing _ (λ e, p e = false)); silent_goal. }
  intros st'' w' Hw'. unfold h5_close. rewrite log_run.
  apply counted_since_logged; [|apply p_close]. unfold enumerate in Hw'.
  rewrite length_imap, !length_zip_with in Hw'.
  replace (length dls `min` (length lks `min` length aks)) with (length dls) in Hw' by lia.
  replace (length lks `min` length aks) with (length dls) in Hw' by lia.
  by rewrite Nat.add_0_l in Hw'.
Qed.

Lemma crunch_hessian_cell_census w0 k f wt s d dl comm rank args coords st ci :
  hoare (counted_since p w0 k)
    (crunch_hessian_cell f wt s d dl comm rank args coords st ci)
    (λ _, counted_since p w0 (k + (ne + (if Nat.eqb rank 0 then 2 * nc else 0))))
    (λ _ _, True).
Proof.
  unfold crunch_hessian_cell, reduce_max, reduce_min. destruct ci as [count ind].
  eapply hoare_bind; [apply hoare_read_only_frame; [apply read_only_of_option|done]|].
  intros coord.
  eapply hoare_bind.
  { apply preserves_weaken, preserves_load_weights_quiet; [apply p_weights|apply p_states]. }
  intros ?.
  eapply hoare_bind.
  { unfold eigs_and_record. destruct st as [mi ma].
    eapply hoare_bind; [apply call_hessian_census|]. intros result.
    apply hoare_read_only_frame; [|done].
    pose proof read_only_ravel_set as Hrs.
    repeat first [apply read_only_bind; [|intros] | apply Hrs | apply read_only_ret]. }
  intros [mi ma].
  eapply hoare_bind.
  { apply preserves_weaken.
    eapply (preserves_reduce (counted_since p w0 (k + ne)) (λ e, p e = false));
      silent_goal. }
  intros ma'.
  eapply hoare_bind.
  { apply preserves_weaken.
    eapply (preserves_reduce (counted_since p w0 (k + ne)) (λ e, p e = false));
      silent_goal. }
  intros mi'.
  eapply hoare_bind
    with (R := λ _, counted_since p w0
                      (k + ne + (if Nat.eqb rank 0 then 2 * nc else 0))).
  { destruct (Nat.eqb rank 0).
    - eapply hoare_bind; [apply h5_assign_written|]. intros ?.
      eapply hoare_conseq; [apply h5_assign_written|done| |done].
      intros ? w Hw. by replace (k + ne + 2 * nc) with (k + ne + nc + nc) by lia.
    - apply hoare_ret. intros w Hw. by rewrite Nat.add_0_r. }
  intros ?. apply hoare_ret. intros w Hw. by rewrite Nat.add_assoc.
Qed.

Lemma crunch_hessian_census (w : World) sf wt s d dl comm rank args xs ys mi ma :
  stored_grid w sf xs ys →
  lookup_dataset w sf "min_eig" = Some (DArr mi) →
  lookup_dataset w sf "max_eig" = Some (DArr ma) →
  hoare (λ w', counted_since p w 0 w' ∧ w_fs w' = w_fs w)
    (crunch_hessian_eigs sf wt s d dl comm rank args)
    (λ _, counted_since p w
            ((ne + (if Nat.eqb rank 0 then 2 * nc else 0))
             * length (get_job_indices ma xs ys comm).1.1))
    (λ _ _, True).
Proof.
  intros Hg Hmi Hma. unfold crunch_hessian_eigs.
  eapply hoare_bind.
  { eapply hoare_conseq.
    - apply hoare_conj.
      + eapply (open_eig_fields_present_spec (counted_since p w 0) (λ e, p e = false)).
        all: try silent_goal.
        * exact Hmi.
        * exact Hma.
      + apply (open_eig_fields_grid_spec sf rank w xs ys Hg).
    - intros w' Hw'. split; [exact Hw'|exact (proj2 Hw')].
    - intros r w' Hw'. exact Hw'.
    - done. }
  intros [[[f xs'] ys'] st]. apply hoare_pure_pre. cbn [fst snd].
  intros [Hxs Hys]. subst xs' ys'.
  apply hoare_pure_pre. intros ->. cbn [snd].
  destruct (get_job_indices ma xs ys comm) as [[inds coords] nums]. cbn [fst snd].
  eapply hoare_bind.
  { eapply hoare_conseq;
      [apply (hoare_for_each_counted p w (ne + (if Nat.eqb rank 0 then 2 * nc else 0))
                (crunch_hessian_cell f wt s d dl comm rank args coords));
       intros; apply crunch_hessian_cell_census
      |by intros w' [? _]|intros r w' Hw'; exact Hw'|done]. }
  intros st'.
  eapply hoare_bind; [apply hoare_read_only_frame; [apply read_only_py_max|done]|].
  intros most.
  eapply hoare_bind.
  { apply preserves_weaken, preserves_for_each. intros.
    eapply (preserves_keep_reducing_eigs _ (λ e, p e = false)); silent_goal. }
  intros st'' w' Hw'. unfold h5_close. rewrite log_run.
  apply counted_since_logged; [|apply p_close]. unfold enumerate in Hw'.
  rewrite length_imap in Hw'.
  by rewrite Nat.add_0_l in Hw'.
Qed.

End Census.

Ltac census_goal :=
  first [ eassumption | (intros; reflexivity) ].

(** X16: rank 0 saves its results cell by cell.  On a surface file that
    holds the grid and every loss field, a run of [crunch] on rank 0 that
    ends normally has committed both arrays of every dataloader and flushed
    the file once for each cell it computed: [2 n k] commits and [k] flushes
    for [n] dataloaders and [k] cells. *)
Theorem crunch_commits_cell_by_cell sf wt s d dls lks aks comm args w xs ys key0 vals
    inds coords nums :
  stored_grid w sf xs ys →
  (∀ lk, lk ∈ lks → ∃ a, lookup_dataset w sf lk = Some (DArr a)) →
  lks !! 0 = Some key0 →
  lookup_dataset w sf key0 = Some (DArr vals) →
  get_job_indices vals xs ys comm = (inds, coords, nums) →
  is_Ok (crunch sf wt s d dls lks aks comm 0 args w).1 = true →
  count_events is_commit (emitted (crunch sf wt s d dls lks aks comm 0 args) w)
  = 2 * length dls * length inds
  ∧ count_events is_flush (emitted (crunch sf wt s d dls lks aks comm 0 args) w)
    = length inds.
Proof.
  intros Hg HF Hk0 Hv Hj HOk.
  assert (Hc : hoare (λ w', counted_since is_commit w 0 w' ∧ w_fs w' = w_fs w)
                 (crunch sf wt s d dls lks aks comm 0 args)
                 (λ _, counted_since is_commit w
                         ((0 * length dls + (1 * (2 * length dls) + 0))
                          * length (get_job_indices vals xs ys comm).1.1))
                 (λ _ _, True)).
  { eapply (crunch_census is_commit 0 1 0);
      census_goal. }
  assert (Hf : hoare (λ w', counted_since is_flush w 0 w' ∧ w_fs w' = w_fs w)
                 (crunch sf wt s d dls lks aks comm 0 args)
                 (λ _, counted_since is_flush w
                         ((0 * length dls + (0 * (2 * length dls) + 1))
                          * length (get_job_indices vals xs ys comm).1.1))
                 (λ _ _, True)).
  { eapply (crunch_census is_flush 0 0 1);
      census_goal. }
  specialize (Hc w (conj (counted_since_refl _ _) eq_refl)).
  specialize (Hf w (conj (counted_since_refl _ _) eq_refl)).
  rewrite Hj in Hc, Hf. cbn [fst snd] in Hc, Hf.
  split; apply emitted_counted;
    destruct (crunch _ _ _ _ _ _ _ _ _ _ w) as [[?|?] ?]; try done; cbn [snd].
  - by replace (2 * length dls * length inds)
      with ((0 * length dls + (1 * (2 * length dls) + 0)) * length inds) by lia.
  - by replace (length inds)
      with ((0 * length dls + (0 * (2 * length dls) + 1)) * length inds) by lia.
Qed.

(** X17: the synchronized variants evaluate the cells that the scheduler
    gave them, and no other.  On a surface file that holds the grid and the
    fields, a run of [crunch] that ends normally has called the evaluator
    once per dataloader for each of its cells, and a run of
    [crunch_hessian_eigs] has called the eigenvalue solver once for each of
    its cells; the rounds in which a worker only keeps the others company
    evaluate nothing. *)
Theorem synchronized_variants_evaluate_their_cells sf wt s d comm rank args w xs ys :
  stored_grid w sf xs ys →
  (∀ dls lks aks key0 vals inds coords nums,
     (∀ lk, lk ∈ lks → ∃ a, lookup_dataset w sf lk = Some (DArr a)) →
     lks !! 0 = Some key0 →
     lookup_dataset w sf key0 = Some (DArr vals) →
     get_job_indices vals xs ys comm = (inds, coords, nums) →
     is_Ok (crunch sf wt s d dls lks aks comm rank args w).1 = true →
     count_events is_eval (emitted (crunch sf wt s d dls lks aks comm rank args) w)
     = length dls * length inds)
  ∧ (∀ dl mi ma inds coords nums,
       lookup_dataset w sf "min_eig" = Some (DArr mi) →
       lookup_dataset w sf "max_eig" = Some (DArr ma) →
       get_job_indices ma xs ys comm = (inds, coords, nums) →
       is_Ok (crunch_hessian_eigs sf wt s d dl comm rank args w).1 = true →
       count_events is_eval (emitted (crunch_hessian_eigs sf wt s d dl comm rank args) w)
       = length inds).
Proof.
  intros Hg. split.
  - intros dls lks aks key0 vals inds coords nums HF Hk0 Hv Hj HOk.
    apply emitted_counted.
    assert (H : hoare (λ w', counted_since is_eval w 0 w' ∧ w_fs w' = w_fs w)
                  (crunch sf wt s d dls lks aks comm rank args)
                  (λ _, counted_since is_eval w
                          ((1 * length dls + (if Nat.eqb rank 0 then 0 * (2 * length dls) + 0 else 0))
                           * length (get_job_indices vals xs ys comm).1.1))
                  (λ _ _, True)).
    { eapply (crunch_census is_eval 1 0 0);
        census_goal. }
    specialize (H w (conj (counted_since_refl _ _) eq_refl)).
    rewrite Hj in H. cbn [fst snd] in H.
    destruct (crunch _ _ _ _ _ _ _ _ _ _ w) as [[?|?] ?]; [|done]. cbn [snd].
    replace (length dls * length inds)
      with ((1 * length dls + (if Nat.eqb rank 0 then 0 * (2 * length dls) + 0 else 0)) * length inds); [done|].
    destruct (Nat.eqb rank 0); lia.
  - intros dl mi ma inds coords nums Hmi Hma Hj HOk.
    apply emitted_counted.
    assert (H : hoare (λ w', counted_since is_eval w 0 w' ∧ w_fs w' = w_fs w)
                  (crunch_hessian_eigs sf wt s d dl comm rank args)
                  (λ _, counted_since is_eval w
                          ((1 + (if Nat.eqb rank 0 then 2 * 0 else 0))
                           * length (get_job_indices ma xs ys comm).1.1))
                  (λ _ _, True)).
    { eapply (crunch_hessian_census is_eval 1 0);
        census_goal. }
    specialize (H w (conj (counted_since_refl _ _) eq_refl)).
    rewrite Hj in H. cbn [fst snd] in H.
    destruct (crunch_hessian_eigs _ _ _ _ _ _ _ _ w) as [[?|?] ?]; [|done]. cbn [snd].
    replace (length inds)
      with ((1 + (if Nat.eqb rank 0 then 2 * 0 else 0)) * length inds); [done|].
    destruct (Nat.eqb rank 0); lia.
Qed.

(** X18: in [crunch_hessian_eigs] rank 0 writes both eigenvalue fields after
    every cell it computed and never flushes the file: on a surface file
    that holds the grid and both fields, a run on rank 0 that ends normally
    has committed [2 k] datasets for its [k] cells and called no flush. *)
Theorem crunch_hessian_eigs_commits_without_flush sf wt s d dl comm args w xs ys mi ma
    inds coords nums :
  stored_grid w sf xs ys →
  lookup_dataset w sf "min_eig" = Some (DArr mi) →
  lookup_dataset w sf "max_eig" = Some (DArr ma) →
  get_job_indices ma xs ys comm = (inds, coords, nums) →
  is_Ok (crunch_hessian_eigs sf wt s d dl comm 0 args w).1 = true →
  count_events is_commit (emitted (crunch_hessian_eigs sf wt s d dl comm 0 args) w)
  = 2 * length inds
  ∧ count_events is_flush (emitted (crunch_hessian_eigs sf wt s d dl comm 0 args) w) = 0.
Proof.
  intros Hg Hmi Hma Hj HOk.
  assert (Hc : hoare (λ w', counted_since is_commit w 0 w' ∧ w_fs w' = w_fs w)
                 (crunch_hessian_eigs sf wt s d dl comm 0 args)
                 (λ _, counted_since is_commit w
                         ((0 + 2 * 1) * length (get_job_indices ma xs ys comm).1.1))
                 (λ _ _, True)).
  { eapply (crunch_hessian_census is_commit 0 1);
      census_goal. }
  assert (Hf : hoare (λ w', counted_since is_flush w 0 w' ∧ w_fs w' = w_fs w)
                 (crunch_hessian_eigs sf wt s d dl comm 0 args)
                 (λ _, counted_since is_flush w
                         ((0 + 2 * 0) * length (get_job_indices ma xs ys comm).1.1))
                 (λ _ _, True)).
  { eapply (crunch_hessian_census is_flush 0 0);
      census_goal. }
  specialize (Hc w (conj (counted_since_refl _ _) eq_refl)).
  specialize (Hf w (conj (counted_since_refl _ _) eq_refl)).
  rewrite Hj in Hc, Hf. cbn [fst snd] in Hc, Hf.
  split; apply emitted_counted;
    by destruct (crunch_hessian_eigs _ _ _ _ _ _ _ _ w) as [[?|?] ?].
Qed.

(** ** What the variants without synchronization store *)

Lemma enumerate_seq n : enumerate (seq 0 n) = (λ i, (i, i)) <$> seq 0 n.
Proof.
  apply list_eq. intros i. unfold enumerate.
  rewrite list_lookup_imap, list_lookup_fmap.
  destruct (seq 0 n !! i) as [j|] eqn:E; [|done].
  apply lookup_seq in E as [-> _]. done.
Qed.

Lemma load_weights_run args wt s d coord w :
  ∃ w', load_weights args wt s d coord w = (Ok tt, w')
        ∧ w_net w' = perturbed args wt s d (w_net w) coord
        ∧ w_fs w' = w_fs w.
Proof.
  unfold load_weights, perturbed.
  destruct (String.eqb _ "weights"); [|destruct (String.eqb _ "states")];
    eexists; (split; [reflexivity|]); done.
Qed.

Lemma eigs_and_record_Ok_full dl ind mi ma w st' w' :
  eigs_and_record dl ind (mi, ma) w = (Ok st', w') →
  w_fs w' = w_fs w ∧ w_net w' = w_net w
  ∧ size st'.1 = size mi ∧ size st'.2 = size ma
  ∧ shape st'.1 = shape mi ∧ shape st'.2 = shape ma
  ∧ data st'.2 !! ind = Some (min_max_hessian_eigs (w_net w) dl).1.1
  ∧ data st'.1 !! ind = Some (min_max_hessian_eigs (w_net w) dl).1.2
  ∧ ∀ j, j ≠ ind → data st'.2 !! j = data ma !! j ∧ data st'.1 !! j = data mi !! j.
Proof.
  intros H. unfold eigs_and_record in H. rewrite run_bind in H.
  unfold call_min_max_hessian_eigs in H. rewrite run_bind in H. cbn [get_world] in H.
  rewrite run_bind, log_run, run_ret in H.
  rewrite run_bind in H.
  destruct (ravel_set ma ind _ _) as [[ma'|e] w1] eqn:H1; [|done].
  apply ravel_set_Ok in H1 as (-> & Hma & Hsma & Hzma & Hma').
  rewrite run_bind in H.
  destruct (ravel_set mi ind _ _) as [[mi'|e] w2] eqn:H2; [|done].
  apply ravel_set_Ok in H2 as (-> & Hmi & Hsmi & Hzmi & Hmi').
  rewrite run_ret in H. injection H as <- <-. cbn [fst snd].
  repeat split; try done; auto.
Qed.

Lemma hessian_2_loop wt s d dl args coords b :
  ∀ a st w st' w',
    for_each (crunch_hessian_2_cell wt s d dl args coords)
      ((λ i, (i, i)) <$> seq a b) st w = (Ok st', w') →
    w_fs w' = w_fs w
    ∧ size st'.1 = size st.1 ∧ size st'.2 = size st.2
    ∧ shape st'.1 = shape st.1 ∧ shape st'.2 = shape st.2
    ∧ (∀ i, a ≤ i < a + b →
         data st'.2 !! i
         = Some (min_max_hessian_eigs
                   (foldl (perturbed args wt s d) (w_net w)
                      (take (S i - a) (drop a coords))) dl).1.1
         ∧ data st'.1 !! i
           = Some (min_max_hessian_eigs
                     (foldl (perturbed args wt s d) (w_net w)
                        (take (S i - a) (drop a coords))) dl).1.2)
    ∧ (∀ i, i < a → data st'.2 !! i = data st.2 !! i ∧ data st'.1 !! i = data st.1 !! i).
Proof.
  induction b as [|b IH]; intros a st w st' w'; cbn [seq fmap list_fmap for_each].
  - rewrite run_ret. intros [= <- <-].
    repeat match goal with |- _ ∧ _ => split end; try done; intros i Hi; lia.
  - rewrite run_bind. unfold crunch_hessian_2_cell at 1. rewrite run_bind.
    destruct (coords !! a) as [coord|] eqn:Hc; cbn [of_option]; [|done].
    rewrite run_ret, run_bind.
    destruct (load_weights_run args wt s d coord w) as (w1 & -> & Hn1 & Hf1).
    destruct st as [mi ma].
    destruct (eigs_and_record dl a (mi, ma) w1) as [[st1|e] w2] eqn:He; [|done].
    apply eigs_and_record_Ok_full in He
      as (Hf2 & Hn2 & Hz1 & Hz2 & Hs1 & Hs2 & Hma & Hmi & Hother).
    intros Hloop. apply IH in Hloop as (Hf3 & Hz1' & Hz2' & Hs1' & Hs2' & Hnew & Hold).
    cbn [fst snd] in *.
    repeat match goal with |- _ ∧ _ => split end; try congruence.
    all: intros i Hi; split.
    + destruct (decide (i = a)) as [->|Hne].
      * destruct (Hold a ltac:(lia)) as [-> _]. rewrite Hma, Hn1.
        replace (S a - a) with 1 by lia. by rewrite (drop_S _ _ _ Hc).
      * destruct (Hnew i ltac:(lia)) as [-> _]. rewrite Hn2, Hn1.
        replace (S i - a) with (S (S i - S a)) by lia.
        by rewrite (drop_S _ _ _ Hc).
    + destruct (decide (i = a)) as [->|Hne].
      * destruct (Hold a ltac:(lia)) as [_ ->]. rewrite Hmi, Hn1.
        replace (S a - a) with 1 by lia. by rewrite (drop_S _ _ _ Hc).
      * destruct (Hnew i ltac:(lia)) as [_ ->]. rewrite Hn2, Hn1.
        replace (S i - a) with (S (S i - S a)) by lia.
        by rewrite (drop_S _ _ _ Hc).
    + destruct (Hold i ltac:(lia)) as [-> _]. apply Hother. lia.
    + destruct (Hold i ltac:(lia)) as [_ ->]. apply Hother. lia.
Qed.

Lemma h5_assign_Ok_full f k arr w r w' :
  h5_assign f k arr w = (Ok r, w') →
  lookup_dataset w' (h_path f) k = Some (DArr arr)
  ∧ (∀ k', k' ≠ k → lookup_dataset w' (h_path f) k' = lookup_dataset w (h_path f) k').
Proof.
  unfold h5_assign, h5_get. rewrite !run_bind. cbn [get_world].
  destruct (lookup_dataset w (h_path f) k) as [[old|?]|] eqn:Hk; cbn [of_option]; try done.
  rewrite run_ret.
  assert (Hgoal : ∀ w1,
            w1 = logged (MkWorld (<[h_path f := <[k := DArr arr]>
                                     (default ∅ (w_fs w !! h_path f))]> (w_fs w))
                           (w_net w) (w_peers w) (w_trace w)) (EvCommit (h_path f) k) →
            lookup_dataset w1 (h_path f) k = Some (DArr arr)
            ∧ (∀ k', k' ≠ k →
                 lookup_dataset w1 (h_path f) k' = lookup_dataset w (h_path f) k')).
  { intros w1 ->. unfold lookup_dataset. cbn. rewrite lookup_insert_eq. cbn.
    rewrite lookup_insert_eq. split; [done|]. intros k' Hne.
    rewrite lookup_insert_ne by done. unfold lookup_dataset in Hk.
    destruct (w_fs w !! h_path f); [done|]. done. }
  destruct (h_mode f); try done;
    (destruct (_ && _); [|done]);
    rewrite run_bind; cbn [get_world]; rewrite run_bind; cbn [put_fs];
    rewrite log_run; intros [= _ <-]; by apply Hgoal.
Qed.

(** X19: what [crunch_hessian_eigs_2] stores.  After a run that ends normally
    the surface file holds, at every cell [i] of the fields [max_eig] and
    [min_eig], the largest and the smallest eigenvalue that the solver
    computed on the net perturbed to the coordinates of the cells up to
    [i], visited in index order from the net the run started with. *)
Theorem crunch_hessian_eigs_2_stores_the_eigenvalues sf wt s d dl comm rank args w xs ys w' :
  stored_grid w sf xs ys →
  crunch_hessian_eigs_2 sf wt s d dl comm rank args w = (Ok tt, w') →
  ∃ min_eig max_eig,
    lookup_dataset w' sf "min_eig" = Some (DArr min_eig)
    ∧ lookup_dataset w' sf "max_eig" = Some (DArr max_eig)
    ∧ ∀ i, i < size max_eig →
        data max_eig !! i
        = Some (min_max_hessian_eigs
                  (net_at args wt s d (w_net w) (all_coords xs ys) i) dl).1.1
        ∧ data min_eig !! i
          = Some (min_max_hessian_eigs
                    (net_at args wt s d (w_net w) (all_coords xs ys) i) dl).1.2.
Proof.
  intros Hg. unfold crunch_hessian_eigs_2, open_eig_fields.
  assert (Hfile : is_Some (w_fs w !! sf)).
  { destruct Hg as [Hx _]. unfold lookup_dataset in Hx.
    destruct (w_fs w !! sf); [eauto|done]. }
  rewrite !run_bind, (h5_open_existing _ _ _ Hfile). cbv beta iota.
  set (mode := if Nat.eqb rank 0 then ModeRW else ModeR).
  set (w1 := logged w (EvOpen sf mode)).
  rewrite !run_bind, (read_grid_run _ xs ys) by exact Hg. cbv beta iota.
  rewrite run_bind.
  destruct (load_eig_fields (MkHandle sf mode) rank xs ys w1) as [[[mi ma]|e] w2] eqn:Hl;
    [|done].
  assert (Hn2 : w_net w2 = w_net w).
  { assert (Hp : preserves (λ w0, w_net w0 = w_net w)
                   (load_eig_fields (MkHandle sf mode) rank xs ys)).
    { eapply (preserves_load_eig_fields _ (λ _, True)); by intros. }
    pose proof (run_of_preserves _ _ w1 Hp eq_refl) as H.
    by rewrite Hl in H. }
  rewrite run_ret. cbv beta iota. cbn [fst snd]. rewrite enumerate_seq, run_bind.
  destruct (for_each _ _ (mi, ma) w2) as [[[mi' ma']|e] w3] eqn:Hloop; [|done].
  apply hessian_2_loop in Hloop as (_ & _ & Hz & _ & _ & Hnew & _).
  cbn [fst snd] in *. rewrite run_bind.
  destruct (h5_assign _ "max_eig" ma' w3) as [[[]|e] w4] eqn:H1; [|done].
  apply h5_assign_Ok_full in H1 as [Hmax _]. rewrite run_bind.
  destruct (h5_assign _ "min_eig" mi' w4) as [[[]|e] w5] eqn:H2; [|done].
  apply h5_assign_Ok_full in H2 as [Hmin Hrest]. cbn [h_path] in *.
  unfold h5_close. rewrite log_run. intros [= <-].
  exists mi', ma'.
  change (lookup_dataset (logged w5 ?e)) with (lookup_dataset w5).
  split; [exact Hmin|]. split; [by rewrite Hrest|].
  intros i Hi. destruct (Hnew i ltac:(lia)) as [-> ->].
  rewrite Hn2, drop_0. replace (S i - 0) with (S i) by lia. done.
Qed.

Lemma evaluate_and_record_Ok_full ind losses accs dl lk ak w st' w' :
  evaluate_and_record ind (losses, accs) (dl, (lk, ak)) w = (Ok st', w') →
  w_fs w' = w_fs w ∧ w_net w' = w_net w
  ∧ ∃ la aa la' aa',
      losses !! lk = Some la ∧ accs !! ak = Some aa
      ∧ st' = (<[lk := la']> losses, <[ak := aa']> accs)
      ∧ size la' = size la ∧ size aa' = size aa
      ∧ data la' !! ind = Some (evaluator (w_net w) dl).1
      ∧ data aa' !! ind = Some (evaluator (w_net w) dl).2
      ∧ (∀ j, j ≠ ind → data la' !! j = data la !! j)
      ∧ (∀ j, j ≠ ind → data aa' !! j = data aa !! j).
Proof.
  intros H. unfold evaluate_and_record in H. rewrite run_bind in H.
  unfold call_evaluator in H. rewrite run_bind in H. cbn [get_world] in H.
  rewrite run_bind, log_run, run_ret in H.
  unfold record_result in H.
  rewrite run_bind in H. destruct (losses !! lk) as [la|]; [|done].
  rewrite of_option_Some, run_bind in H.
  destruct (ravel_set la ind _ _) as [[la'|e] w1] eqn:H1; [|done].
  apply ravel_set_Ok in H1 as (-> & Hla & _ & Hzl & Hla').
  rewrite run_bind in H. destruct (accs !! ak) as [aa|]; [|done].
  rewrite of_option_Some, run_bind in H.
  destruct (ravel_set aa ind _ _) as [[aa'|e] w2] eqn:H2; [|done].
  apply ravel_set_Ok in H2 as (-> & Haa & _ & Hza & Haa').
  rewrite run_ret in H. injection H as <- <-.
  split; [done|]. split; [done|].
  exists la, aa, la', aa'. repeat match goal with |- _ ∧ _ => split end; done.
Qed.

(** One cell: every dataloader's arrays get the result of the evaluator at
    index [ind], and nothing else changes. *)
Lemma cell_jobs ind jobs :
  ∀ st w st' w',
    for_each (evaluate_and_record ind) jobs st w = (Ok st', w') →
    NoDup (jobs.*2.*1) → NoDup (jobs.*2.*2) →
    w_fs w' = w_fs w ∧ w_net w' = w_net w
    ∧ (∀ k la', st'.1 !! k = Some la' →
         ∃ la, st.1 !! k = Some la ∧ size la' = size la
           ∧ (∀ j, j ≠ ind → data la' !! j = data la !! j)
           ∧ (k ∉ jobs.*2.*1 → la' = la)
           ∧ (∀ dl ak, (dl, (k, ak)) ∈ jobs →
                data la' !! ind = Some (evaluator (w_net w) dl).1))
    ∧ (∀ k aa', st'.2 !! k = Some aa' →
         ∃ aa, st.2 !! k = Some aa ∧ size aa' = size aa
           ∧ (∀ j, j ≠ ind → data aa' !! j = data aa !! j)
           ∧ (k ∉ jobs.*2.*2 → aa' = aa)
           ∧ (∀ dl lk, (dl, (lk, k)) ∈ jobs →
                data aa' !! ind = Some (evaluator (w_net w) dl).2)).
Proof.
  induction jobs as [|[dl [lk ak]] jobs IH]; intros st w st' w'; cbn [for_each].
  - rewrite run_ret. intros [= <- <-] _ _.
    repeat match goal with |- _ ∧ _ => split end; try done.
    + intros k la Hk. exists la. repeat match goal with |- _ ∧ _ => split end; try done.
      intros dl ak Hin. by apply elem_of_nil in Hin.
    + intros k aa Hk. exists aa. repeat match goal with |- _ ∧ _ => split end; try done.
      intros dl lk Hin. by apply elem_of_nil in Hin.
  - rewrite run_bind. destruct st as [losses accs].
    destruct (evaluate_and_record ind _ _ w) as [[st1|e] w1] eqn:H1; [|done].
    apply evaluate_and_record_Ok_full in H1
      as (Hf1 & Hn1 & la & aa & la1 & aa1 & Hl & Ha & -> & Hzl & Hza & Hvl & Hva & Hol & Hoa).
    cbn [fmap list_fmap fst snd]. intros Hrest Hdl Hda.
    apply NoDup_cons in Hdl as [Hlk Hdl]. apply NoDup_cons in Hda as [Hak Hda].
    apply IH in Hrest as (Hf2 & Hn2 & HL & HA); [|done|done].
    cbn [fst snd] in *.
    split; [congruence|]. split; [congruence|]. split.
    + intros k la' Hk. destruct (HL k la' Hk) as (lm & Hlm & Hz & Ho & Hout & Hin).
      destruct (decide (k = lk)) as [->|Hne].
      * rewrite lookup_insert_eq in Hlm. injection Hlm as <-.
        exists la. repeat match goal with |- _ ∧ _ => split end; try done.
        -- congruence.
        -- intros j Hj. rewrite Ho by done. by apply Hol.
        -- intros Hnot. exfalso. apply Hnot. left.
        -- intros dl' ak' [Heq|Hin']%elem_of_cons.
           ++ injection Heq as -> ->. by rewrite (Hout Hlk).
           ++ rewrite (Hin dl' ak' Hin'). by rewrite Hn1.
      * rewrite lookup_insert_ne in Hlm by done.
        exists lm. repeat match goal with |- _ ∧ _ => split end; try done.
        -- intros Hnot. apply Hout. intros Hin'. apply Hnot. by right.
        -- intros dl' ak' [Heq|Hin']%elem_of_cons.
           ++ by injection Heq as -> ->.
           ++ rewrite (Hin dl' ak' Hin'). by rewrite Hn1.
    + intros k aa' Hk. destruct (HA k aa' Hk) as (am & Ham & Hz & Ho & Hout & Hin).
      destruct (decide (k = ak)) as [->|Hne].
      * rewrite lookup_insert_eq in Ham. injection Ham as <-.
        exists aa. repeat match goal with |- _ ∧ _ => split end; try done.
        -- congruence.
        -- intros j Hj. rewrite Ho by done. by apply Hoa.
        -- intros Hnot. exfalso. apply Hnot. left.
        -- intros dl' lk' [Heq|Hin']%elem_of_cons.
           ++ injection Heq as -> ->. by rewrite (Hout Hak).
           ++ rewrite (Hin dl' lk' Hin'). by rewrite Hn1.
      * rewrite lookup_insert_ne in Ham by done.
        exists am. repeat match goal with |- _ ∧ _ => split end; try done.
        -- intros Hnot. apply Hout. intros Hin'. apply Hnot. by right.
        -- intros dl' lk' [Heq|Hin']%elem_of_cons.
           ++ by injection Heq as -> ->.
           ++ rewrite (Hin dl' lk' Hin'). by rewrite Hn1.
Qed.

(** The loop of [crunch_2] over the cells [a, a + b). *)
Lemma crunch_2_loop wt s d dls lks aks args coords b :
  NoDup ((zip dls (zip lks aks)).*2.*1) → NoDup ((zip dls (zip lks aks)).*2.*2) →
  ∀ a st w st' w',
    for_each (crunch_2_cell wt s d dls lks aks args coords)
      ((λ i, (i, i)) <$> seq a b) st w = (Ok st', w') →
    w_fs w' = w_fs w
    ∧ (∀ k la', st'.1 !! k = Some la' →
         ∃ la, st.1 !! k = Some la ∧ size la' = size la
           ∧ (∀ j, j < a → data la' !! j = data la !! j)
           ∧ (∀ dl ak, (dl, (k, ak)) ∈ zip dls (zip lks aks) →
                ∀ i, a ≤ i < a + b →
                  data la' !! i
                  = Some (evaluator
                            (foldl (perturbed args wt s d) (w_net w)
                               (take (S i - a) (drop a coords))) dl).1))
    ∧ (∀ k aa', st'.2 !! k = Some aa' →
         ∃ aa, st.2 !! k = Some aa ∧ size aa' = size aa
           ∧ (∀ j, j < a → data aa' !! j = data aa !! j)
           ∧ (∀ dl lk, (dl, (lk, k)) ∈ zip dls (zip lks aks) →
                ∀ i, a ≤ i < a + b →
                  data aa' !! i
                  = Some (evaluator
                            (foldl (perturbed args wt s d) (w_net w)
                               (take (S i - a) (drop a coords))) dl).2)).
Proof.
  intros Hdl Hda.
  induction b as [|b IH]; intros a st w st' w'; cbn [seq fmap list_fmap for_each].
  - rewrite run_ret. intros [= <- <-]. split; [done|]. split.
    + intros k la Hk. exists la. repeat match goal with |- _ ∧ _ => split end; try done.
      intros dl ak _ i Hi. lia.
    + intros k aa Hk. exists aa. repeat match goal with |- _ ∧ _ => split end; try done.
      intros dl lk _ i Hi. lia.
  - rewrite run_bind. unfold crunch_2_cell at 1. rewrite run_bind.
    destruct (coords !! a) as [coord|] eqn:Hc; cbn [of_option]; [|done].
    rewrite run_ret, run_bind.
    destruct (load_weights_run args wt s d coord w) as (w1 & -> & Hn1 & Hf1).
    destruct (for_each (evaluate_and_record a) _ st w1) as [[st1|e] w2] eqn:Hcell; [|done].
    apply cell_jobs in Hcell as (Hf2 & Hn2 & HL & HA); [|done|done].
    intros Hloop. apply IH in Hloop as (Hf3 & HL' & HA').
    assert (Hfold : ∀ i, a < i →
              foldl (perturbed args wt s d) (w_net w2) (take (S i - S a) (drop (S a) coords))
              = foldl (perturbed args wt s d) (w_net w) (take (S i - a) (drop a coords))).
    { intros i Hi. rewrite Hn2, Hn1. replace (S i - a) with (S (S i - S a)) by lia.
      by rewrite (drop_S _ _ _ Hc). }
    assert (Hhere : perturbed args wt s d (w_net w) coord
                    = foldl (perturbed args wt s d) (w_net w) (take (S a - a) (drop a coords))).
    { replace (S a - a) with 1 by lia. by rewrite (drop_S _ _ _ Hc). }
    split; [congruence|]. split.
    + intros k la' Hk. destruct (HL' k la' Hk) as (lm & Hlm & Hz & Hold & Hnew).
      destruct (HL k lm Hlm) as (la & Hla & Hz' & Ho & _ & Hin).
      exists la. repeat match goal with |- _ ∧ _ => split end; try done.
      * congruence.
      * intros j Hj. rewrite Hold by lia. apply Ho. lia.
      * intros dl ak Hjob i Hi. destruct (decide (i = a)) as [->|Hne].
        -- rewrite Hold by lia. rewrite (Hin dl ak Hjob). by rewrite Hn1, Hhere.
        -- rewrite (Hnew dl ak Hjob i) by lia. rewrite Hfold by lia. done.
    + intros k aa' Hk. destruct (HA' k aa' Hk) as (am & Ham & Hz & Hold & Hnew).
      destruct (HA k am Ham) as (aa & Haa & Hz' & Ho & _ & Hin).
      exists aa. repeat match goal with |- _ ∧ _ => split end; try done.
      * congruence.
      * intros j Hj. rewrite Hold by lia. apply Ho. lia.
      * intros dl lk Hjob i Hi. destruct (decide (i = a)) as [->|Hne].
        -- rewrite Hold by lia. rewrite (Hin dl lk Hjob). by rewrite Hn1, Hhere.
        -- rewrite (Hnew dl lk Hjob i) by lia. rewrite Hfold by lia. done.
Qed.

(** The commits of lines 235-237: every array reaches the file under its
    key when the keys are distinct. *)
Lemma commit_loop_stores f pairs :
  NoDup (pairs.*1) → NoDup (pairs.*2) →
  (∀ lk ak, lk ∈ pairs.*1 → ak ∈ pairs.*2 → lk ≠ ak) →
  ∀ st w r w',
    for_each (commit_pair f) pairs st w = (Ok r, w') →
    r = st
    ∧ (∀ lk ak, (lk, ak) ∈ pairs →
         ∃ la aa, st.1 !! lk = Some la ∧ st.2 !! ak = Some aa
           ∧ lookup_dataset w' (h_path f) lk = Some (DArr la)
           ∧ lookup_dataset w' (h_path f) ak = Some (DArr aa))
    ∧ (∀ k, k ∉ pairs.*1 → k ∉ pairs.*2 →
         lookup_dataset w' (h_path f) k = lookup_dataset w (h_path f) k).
Proof.
  induction pairs as [|[lk ak] pairs IH]; intros Hdl Hda Hdisj st w r w'; cbn [for_each].
  - rewrite run_ret. intros [= <- <-]. split; [done|]. split; [|done].
    intros lk ak Hin. by apply elem_of_nil in Hin.
  - cbn [fmap list_fmap fst snd] in *.
    apply NoDup_cons in Hdl as [Hlk Hdl]. apply NoDup_cons in Hda as [Hak Hda].
    rewrite run_bind. unfold commit_pair at 1. destruct st as [losses accs].
    rewrite run_bind. destruct (losses !! lk) as [la|] eqn:Hla; [|done].
    rewrite of_option_Some, run_bind.
    destruct (h5_assign f lk la w) as [[[]|e] w1] eqn:H1; [|done].
    apply h5_assign_Ok_full in H1 as [Hs1 Hr1]. rewrite run_bind.
    destruct (accs !! ak) as [aa|] eqn:Haa; [|done].
    rewrite of_option_Some, run_bind.
    destruct (h5_assign f ak aa w1) as [[[]|e] w2] eqn:H2; [|done].
    apply h5_assign_Ok_full in H2 as [Hs2 Hr2]. rewrite run_ret.
    intros Hrest. apply IH in Hrest as (-> & Hin & Hout); [|done|done|].
    2:{ intros lk' ak' H1' H2'. apply Hdisj; by right. }
    assert (Hne : lk ≠ ak) by (apply Hdisj; left).
    split; [done|]. split.
    + intros lk' ak' [Heq|Hin']%elem_of_cons.
      * injection Heq as -> ->. exists la, aa. cbn [fst snd].
        split; [done|]. split; [done|]. split.
        -- rewrite Hout; [by rewrite Hr2|done|].
           intros Hin'. by apply (Hdisj lk lk); [left|right|].
        -- rewrite Hout; [done| |done].
           intros Hin'. by apply (Hdisj ak ak); [right|left|].
      * by apply Hin.
    + intros k Hk1 Hk2. rewrite Hout.
      * rewrite Hr2, Hr1; [done| |]; intros ->; [apply Hk1|apply Hk2]; left.
      * intros Hin'. apply Hk1. by right.
      * intros Hin'. apply Hk2. by right.
Qed.

Lemma open_fields_Ok sf dls lks aks rank w xs ys f xs' ys' st w1 :
  stored_grid w sf xs ys →
  open_fields sf dls lks aks rank w = (Ok (f, xs', ys', st), w1) →
  h_path f = sf ∧ xs' = xs ∧ ys' = ys ∧ w_net w1 = w_net w
  ∧ length dls = length lks ∧ length lks = length aks.
Proof.
  intros Hg H.
  assert (Hn : w_net w1 = w_net w).
  { assert (Hp : preserves (λ w0, w_net w0 = w_net w) (open_fields sf dls lks aks rank)).
    { eapply (preserves_open_fields _ (λ _, True)); by intros. }
    pose proof (run_of_preserves _ _ w Hp eq_refl) as H'. by rewrite H in H'. }
  revert H. unfold open_fields. rewrite run_bind.
  destruct (_ && _) eqn:Hlen; [|done]. cbn [py_assert]. rewrite run_ret.
  apply andb_true_iff in Hlen as [Hl1%Nat.eqb_eq Hl2%Nat.eqb_eq].
  assert (Hfile : is_Some (w_fs w !! sf)).
  { destruct Hg as [Hx _]. unfold lookup_dataset in Hx.
    destruct (w_fs w !! sf); [eauto|done]. }
  rewrite run_bind, (h5_open_existing _ _ _ Hfile).
  rewrite run_bind, (read_grid_run _ xs ys) by exact Hg.
  rewrite run_bind. destruct (grid_shape xs ys _) as [[shp|e] w2]; [|done].
  rewrite run_bind. destruct (for_each _ _ _ w2) as [[st0|e] w3]; [|done].
  rewrite run_ret. intros [= <- <- <- <- <-]. done.
Qed.

(** X20: what [crunch_2] stores.  When the field names are distinct, after a
    run that ends normally the surface file holds for every dataloader, at
    every cell [i] of its loss field and of its accuracy field, the loss and
    the accuracy that the evaluator returned for that dataloader on the net
    perturbed to the coordinates of the cells up to [i], visited in index
    order from the net the run started with.  The cells are those of the
    first loss field. *)
Theorem crunch_2_stores_the_surface sf wt s d dls lks aks comm rank args w xs ys w' :
  stored_grid w sf xs ys →
  NoDup (lks ++ aks) →
  crunch_2 sf wt s d dls lks aks comm rank args w = (Ok tt, w') →
  ∃ key0 first,
    lks !! 0 = Some key0
    ∧ lookup_dataset w' sf key0 = Some (DArr first)
    ∧ ∀ j dl lk ak,
        dls !! j = Some dl → lks !! j = Some lk → aks !! j = Some ak →
        ∃ la aa,
          lookup_dataset w' sf lk = Some (DArr la)
          ∧ lookup_dataset w' sf ak = Some (DArr aa)
          ∧ ∀ i, i < size first →
              data la !! i
              = Some (evaluator
                        (net_at args wt s d (w_net w) (all_coords xs ys) i) dl).1
              ∧ data aa !! i
                = Some (evaluator
                          (net_at args wt s d (w_net w) (all_coords xs ys) i) dl).2.
Proof.
  intros Hg Hnd. unfold crunch_2. rewrite run_bind.
  destruct (open_fields sf dls lks aks rank w) as [[[[[f xs'] ys'] st0]|e] w1] eqn:Ho;
    [|done].
  apply (open_fields_Ok _ _ _ _ _ _ xs ys) in Ho as (Hf & -> & -> & Hn1 & Hl1 & Hl2);
    [|done].
  rewrite run_bind. destruct (lks !! 0) as [key0|] eqn:Hk0; cbn [of_option]; [|done].
  rewrite run_ret, run_bind.
  destruct (st0.1 !! key0) as [vals|] eqn:Hv; cbn [of_option]; [|done].
  rewrite run_ret, enumerate_seq, run_bind.
  apply NoDup_app in Hnd as (Hdl & Hdisj & Hda).
  assert (Hj1 : (zip dls (zip lks aks)).*2.*1 = lks).
  { rewrite snd_zip by (rewrite length_zip_with; lia). apply fst_zip. lia. }
  assert (Hj2 : (zip dls (zip lks aks)).*2.*2 = aks).
  { rewrite snd_zip by (rewrite length_zip_with; lia). apply snd_zip. lia. }
  destruct (for_each (crunch_2_cell _ _ _ _ _ _ _ _) _ st0 w1) as [[st1|e] w2] eqn:Hloop;
    [|done].
  apply crunch_2_loop in Hloop as (Hf2 & HL & HA); [|by rewrite Hj1|by rewrite Hj2].
  rewrite run_bind.
  destruct (for_each (commit_pair f) _ st1 w2) as [[st2|e] w3] eqn:Hcommit; [|done].
  apply commit_loop_stores in Hcommit as (-> & Hin & _).
  2:{ rewrite fst_zip by lia. done. }
  2:{ rewrite snd_zip by lia. done. }
  2:{ rewrite fst_zip, snd_zip by lia. intros lk ak H1 H2 ->. by apply (Hdisj ak). }
  unfold h5_flush, h5_close. rewrite run_bind, log_run, log_run. intros [= <-].
  change (lookup_dataset (logged (logged w3 ?a) ?b)) with (lookup_dataset w3).
  rewrite Hf in Hin.
  assert (Hpair : ∀ j lk ak, lks !! j = Some lk → aks !! j = Some ak →
                             (lk, ak) ∈ zip lks aks).
  { intros j lk ak H1 H2. apply list_elem_of_lookup. exists j.
    apply lookup_zip_with_Some. eauto. }
  assert (Hak0 : ∃ ak0, aks !! 0 = Some ak0).
  { apply lookup_lt_is_Some. apply lookup_lt_Some in Hk0. lia. }
  destruct Hak0 as [ak0 Hak0].
  destruct (Hin key0 ak0 (Hpair 0 _ _ Hk0 Hak0)) as (first & _ & Hfirst & _ & Hsf & _).
  destruct (HL key0 first Hfirst) as (vals' & Hv' & Hz & _).
  assert (vals' = vals) as -> by congruence.
  exists key0, first. split; [done|]. split; [exact Hsf|].
  intros j dl lk ak Hdlj Hlkj Hakj.
  destruct (Hin lk ak (Hpair j _ _ Hlkj Hakj)) as (la & aa & Hla & Haa & Hsl & Hsa).
  exists la, aa. split; [exact Hsl|]. split; [exact Hsa|].
  assert (Hjob : (dl, (lk, ak)) ∈ zip dls (zip lks aks)).
  { apply list_elem_of_lookup. exists j. apply lookup_zip_with_Some.
    exists dl, (lk, ak). split; [done|]. split; [done|].
    apply lookup_zip_with_Some. eauto. }
  destruct (HL lk la Hla) as (? & _ & _ & _ & Hl).
  destruct (HA ak aa Haa) as (? & _ & _ & _ & Ha).
  intros i Hi. rewrite (Hl dl ak Hjob i), (Ha dl lk Hjob i) by lia.
  rewrite Hn1, drop_0. replace (S i - 0) with (S i) by lia. done.
Qed.

(** ** Reading the surface back, the model files of an epoch, the eigenvalues of a list of models *)

Lemma py_index_nonneg {A} (l : list A) (i : Z) :
  (0 ≤ i)%Z → py_index l i = l !! Z.to_nat i.
Proof. intros H. unfold py_index. by rewrite (proj2 (Z.leb_le _ _)). Qed.

(** X21: with the direction ['i-1'] the second model file of an epoch is the
    file of the epoch before, and for epoch 0 it is the last file of the
    list: the index -1 wraps around instead of failing. *)
Theorem select_previous_wraps_around model_files epoch model_file :
  (0 ≤ epoch)%Z →
  model_files !! Z.to_nat epoch = Some model_file →
  ∃ model_file2,
    select_model_files "i-1" model_files epoch = Selected model_file model_file2
    ∧ model_files !! Z.to_nat ((epoch - 1) `mod` Z.of_nat (length model_files))
      = Some model_file2
    ∧ (epoch = 0%Z → last model_files = Some model_file2).
Proof.
  intros H0 Hm. pose proof (lookup_lt_Some _ _ _ Hm) as Hlt.
  unfold select_model_files. rewrite py_index_nonneg, Hm by done.
  change (String.eqb "i-1" "random") with false.
  change (String.eqb "i-1" "from_init") with false.
  change (String.eqb "i-1" "i-1") with true. cbv iota.
  destruct (decide (epoch = 0%Z)) as [->|Hne].
  - unfold py_index. cbn [Z.sub Z.add Z.opp Z.leb Z.compare Z.pos_sub].
    destruct model_files as [|m l]; [done|].
    assert (Hidx : Z.to_nat (Z.of_nat (length (m :: l)) + -1) = length l)
      by (cbn [length]; lia).
    assert (Hle : (- Z.of_nat (length (m :: l)) <=? -1)%Z = true)
      by (apply Z.leb_le; cbn [length]; lia).
    change (0 - 1)%Z with (-1)%Z. change (0 <=? -1)%Z with false. cbv iota.
    rewrite Hle, Hidx.
    destruct (lookup_lt_is_Some_2 (m :: l) (length l)) as [m2 Hm2]; [cbn; lia|].
    rewrite Hm2. exists m2. split; [done|]. split.
    + replace ((-1) `mod` Z.of_nat (length (m :: l)))%Z
        with (Z.of_nat (length l)).
      * by rewrite Nat2Z.id.
      * apply Z.mod_unique_pos with (q := (-1)%Z); cbn [length]; lia.
    + intros _. rewrite last_lookup. exact Hm2.
  - assert (Hp : (0 ≤ epoch - 1)%Z) by lia.
    rewrite py_index_nonneg by done.
    destruct (lookup_lt_is_Some_2 model_files (Z.to_nat (epoch - 1))) as [m2 Hm2]; [lia|].
    rewrite Hm2. exists m2. split; [done|]. split; [|done].
    rewrite Z.mod_small by lia. exact Hm2.
Qed.

(** X22: the direction ['i+1'] does not wrap around: for the epochs of the
    list it selects the file of the next epoch, and for the last epoch the
    list access raises [IndexError]. *)
Theorem select_next_fails_at_the_end model_files epoch model_file :
  (0 ≤ epoch)%Z →
  model_files !! Z.to_nat epoch = Some model_file →
  select_model_files "i+1" model_files epoch
  = match model_files !! S (Z.to_nat epoch) with
    | Some model_file2 => Selected model_file model_file2
    | None => SelectionIndexError
    end
  ∧ (S (Z.to_nat epoch) = length model_files →
     select_model_files "i+1" model_files epoch = SelectionIndexError).
Proof.
  intros H0 Hm.
  assert (Heq : select_model_files "i+1" model_files epoch
                = match model_files !! S (Z.to_nat epoch) with
                  | Some model_file2 => Selected model_file model_file2
                  | None => SelectionIndexError
                  end).
  { unfold select_model_files. rewrite py_index_nonneg, Hm by done.
    change (String.eqb "i+1" "random") with false.
    change (String.eqb "i+1" "from_init") with false.
    change (String.eqb "i+1" "i-1") with false.
    change (String.eqb "i+1" "i+1") with true. cbv iota.
    rewrite py_index_nonneg by lia.
    by replace (Z.to_nat (epoch + 1)) with (S (Z.to_nat epoch)) by lia. }
  split; [exact Heq|]. intros Hlast. rewrite Heq.
  by rewrite lookup_ge_None_2 by lia.
Qed.

Lemma h5_read_Ok f k w a w' :
  h5_read f k w = (Ok a, w') → w' = w ∧ lookup_dataset w (h_path f) k = Some (DArr a).
Proof.
  unfold h5_read, h5_get. rewrite !run_bind. cbn [get_world].
  destruct (lookup_dataset w (h_path f) k) as [[a'|?]|]; cbn [of_option]; try done.
  rewrite run_ret. by intros [= <- <-].
Qed.

(** X23: [get_data_from_file] returns data for the plot type ["1d"] only.
    For any other plot type, ["2d"] and ["traj"] included, it never returns
    normally: on a file that exists it opens and closes the file and then
    fails on the unbound name [data]; no file is changed. *)
Theorem get_data_from_file_only_1d sf plot_type w :
  plot_type ≠ "1d" →
  is_Ok (get_data_from_file sf plot_type w).1 = false
  ∧ w_fs (get_data_from_file sf plot_type w).2 = w_fs w
  ∧ (is_Some (w_fs w !! sf) →
     get_data_from_file sf plot_type w
     = (Raise NameError, logged (logged w (EvOpen sf ModeR)) (EvClose sf))).
Proof.
  intros Hpt. apply String.eqb_neq in Hpt.
  unfold get_data_from_file, h5_open. rewrite !run_bind. cbn [get_world].
  destruct (w_fs w !! sf) as [file|] eqn:Hf.
  - rewrite run_bind, log_run, run_ret, Hpt. cbv beta iota.
    rewrite run_bind, run_ret. unfold h5_close. rewrite run_bind, log_run. cbn.
    auto.
  - cbn. split; [done|]. split; [done|]. by intros [? ?].
Qed.

(** X24: for the plot type ["1d"], what [get_data_from_file] returns is what
    the file holds: every array of the result is the dataset of that name,
    the x axis and the two training fields are always part of it, the two
    test fields whenever the file holds [test_loss]; no file is changed. *)
Theorem get_data_from_file_1d sf w data w' :
  get_data_from_file sf "1d" w = (Ok data, w') →
  w_fs w' = w_fs w
  ∧ (∀ k a, data !! k = Some a → lookup_dataset w sf k = Some (DArr a))
  ∧ (∀ k, k ∈ ["xcoordinates"; "train_loss"; "train_acc"] → is_Some (data !! k))
  ∧ (is_Some (lookup_dataset w sf "test_loss") →
     is_Some (data !! "test_loss") ∧ is_Some (data !! "test_acc")).
Proof.
  unfold get_data_from_file. rewrite run_bind.
  destruct (h5_open sf ModeR w) as [[f|e] w1] eqn:Ho; [|done].
  assert (Hfile : is_Some (w_fs w !! sf)).
  { unfold h5_open in Ho. rewrite run_bind in Ho. cbn [get_world] in Ho.
    destruct (w_fs w !! sf); [eauto|done]. }
  rewrite (h5_open_existing _ _ _ Hfile) in Ho. injection Ho as <- <-.
  set (w1 := logged w (EvOpen sf ModeR)).
  assert (Hsame : ∀ k, lookup_dataset w1 sf k = lookup_dataset w sf k) by done.
  change (String.eqb "1d" "1d") with true. cbv iota.
  rewrite !run_bind, h5_contains_run. cbn [h_path]. cbv beta iota.
  destruct (bool_decide _); cbn [py_assert]; [|done].
  rewrite run_bind, run_ret. cbv beta iota. rewrite run_bind.
  destruct (h5_read _ "xcoordinates" w1) as [[xs|e] w2] eqn:Hx; [|done].
  apply h5_read_Ok in Hx as [-> Hx].
  rewrite run_bind.
  destruct (h5_read _ "train_loss" w1) as [[tl|e] w2] eqn:Htl; [|done].
  apply h5_read_Ok in Htl as [-> Htl].
  rewrite run_bind.
  destruct (h5_read _ "train_acc" w1) as [[ta|e] w2] eqn:Hta; [|done].
  apply h5_read_Ok in Hta as [-> Hta].
  rewrite run_bind, h5_contains_run. cbn [h_path] in *.
  rewrite Hsame in Hx, Htl, Hta. rewrite Hsame.
  assert (Hbase : ∀ k a,
            (<["train_acc" := ta]> (<["train_loss" := tl]> {[ "xcoordinates" := xs ]})
               : gmap string ndarray) !! k = Some a →
            lookup_dataset w sf k = Some (DArr a)).
  { intros k a Hk.
    destruct (decide (k = "train_acc")) as [->|?];
      [rewrite lookup_insert_eq in Hk; congruence|rewrite lookup_insert_ne in Hk by done].
    destruct (decide (k = "train_loss")) as [->|?];
      [rewrite lookup_insert_eq in Hk; congruence|rewrite lookup_insert_ne in Hk by done].
    apply lookup_singleton_Some in Hk as [<- <-]. done. }
  destruct (bool_decide (is_Some (lookup_dataset w sf "test_loss"))) eqn:Htest.
  - rewrite run_bind.
    destruct (h5_read _ "test_loss" w1) as [[tel|e] w2] eqn:Htel; [|done].
    apply h5_read_Ok in Htel as [-> Htel].
    rewrite run_bind.
    destruct (h5_read _ "test_acc" w1) as [[tea|e] w2] eqn:Htea; [|done].
    apply h5_read_Ok in Htea as [-> Htea].
    cbn [h_path] in *. rewrite Hsame in Htel, Htea.
    rewrite run_ret. unfold h5_close. rewrite run_bind, log_run. cbn [of_option].
    rewrite run_ret. intros [= <- <-].
    split; [done|]. split; [|split].
    + intros k a Hk.
      destruct (decide (k = "test_acc")) as [->|?];
        [rewrite lookup_insert_eq in Hk; congruence|rewrite lookup_insert_ne in Hk by done].
      destruct (decide (k = "test_loss")) as [->|?];
        [rewrite lookup_insert_eq in Hk; congruence|rewrite lookup_insert_ne in Hk by done].
      by apply Hbase.
    + intros k Hk. repeat (apply elem_of_cons in Hk as [->|Hk]);
        [| | |by apply elem_of_nil in Hk]; vm_compute; eauto.
    + intros _. split; vm_compute; eauto.
  - rewrite run_ret. unfold h5_close. rewrite run_bind, log_run. cbn [of_option].
    rewrite run_ret. intros [= <- <-].
    split; [done|]. split; [exact Hbase|]. split.
    + intros k Hk. repeat (apply elem_of_cons in Hk as [->|Hk]);
        [| | |by apply elem_of_nil in Hk]; vm_compute; eauto.
    + intros Hsome. apply bool_decide_eq_false in Htest. done.
Qed.




End Reasoning.

(** * Runs on the sample instance *)

(** C1, as stated, fails: on a file without eigenvalue fields the code
    creates [max_eig] filled with -1 and [min_eig] filled with +1, not the
    other way round. *)
Lemma C1_eig_sentinels_are_swapped :
  ∃ min_eig max_eig w',
    load_eig_fields (MkHandle "surf.h5" ModeRW) 0 axis3 None (toy_world fs_x_only [])
      = (Ok (min_eig, max_eig), w')
    ∧ lookup_dataset (toy_world fs_x_only []) "surf.h5" "max_eig" = None
    ∧ ¬ (filled_with 1%float max_eig ∧ filled_with (-1)%float min_eig).
Proof.
  eexists _, _, _. split; [vm_compute; reflexivity|]. split; [vm_compute; reflexivity|].
  intros [H _].
  apply (f_equal (λ l, match l with x :: _ => PrimFloat.eqb x 1%float | [] => false end)) in H.
  vm_compute in H. discriminate.
Qed.

Lemma C1_created_fields_witness :
  ∃ l a,
    filled_with (-1)%float l ∧ filled_with (-1)%float a
    ∧ lookup_dataset
        (load_field_pair (MkHandle "surf.h5" ModeRW) [3] (∅, ∅) ("train_loss", "train_acc")
           (toy_world fs_x_only [])).2 "surf.h5" "train_loss" = Some (DArr l)
    ∧ lookup_dataset
        (load_field_pair (MkHandle "surf.h5" ModeRW) [3] (∅, ∅) ("train_loss", "train_acc")
           (toy_world fs_x_only [])).2 "surf.h5" "train_acc" = Some (DArr a).
Proof.
  destruct (proj1 (C1_created_fields_hold_sentinel (C := toy))
              (MkHandle "surf.h5" ModeRW) [3] ∅ ∅ "train_loss" "train_acc"
              (toy_world fs_x_only []) _ _ eq_refl eq_refl)
    as (l & a & _ & _ & Hl & Ha & _ & _ & Hfl & Hfa).
  exists l, a. auto.
Defined.

(** C5, as stated, fails: for a 2-D grid and a file that holds only the x
    axis, [setup_surface_file] returns early and leaves the file as it is,
    although the y axis that the grid requires is missing. *)
Lemma C5_noop_without_y_axis :
  ¬ ((setup_surface_file args_2d "surf.h5" "dir.h5" (toy_world fs_x_only [])).1 = Ok None
     ↔ is_Some (fs_x_only !! "surf.h5")
       ∧ required_axes_present args_2d (toy_world fs_x_only []) "surf.h5" = true).
Proof.
  intros [H _].
  assert (Hr : (setup_surface_file args_2d "surf.h5" "dir.h5" (toy_world fs_x_only [])).1
               = Ok None) by (vm_compute; reflexivity).
  destruct (H Hr) as [_ Hreq]. vm_compute in Hreq. discriminate.
Qed.

Lemma C5_setup_witness :
  lookup_dataset (setup_surface_file args_1d "surf.h5" "dir.h5" (toy_world ∅ [])).2
    "surf.h5" "xcoordinates"
  = Some (DArr (linspace_array (-1)%float 1%float 5)).
Proof.
  destruct (C5_setup_surface_file (C := toy) args_1d "surf.h5" "dir.h5" (toy_world ∅ []))
    as (_ & _ & _ & H).
  destruct (H eq_refl (-1)%float 1%float 5%Z eq_refl eq_refl eq_refl ltac:(lia) I)
    as (_ & _ & Hx & _).
  exact Hx.
Defined.

Lemma C7_malformed_witness :
  check_resolution (toy_args "-1:1" None "weights" false) (toy_world ∅ [])
  = (Raise (Exception improper_format), toy_world ∅ []).
Proof.
  exact (proj1 (C7_malformed_resolution_fails_fast (C := toy)
                  (toy_args "-1:1" None "weights" false) (toy_world ∅ [])
                  (or_introl eq_refl))).
Defined.

Lemma C9_zero_witness :
  check_resolution (toy_args "-1:1:5" (Some "0:1:51") "weights" false) (toy_world ∅ [])
  = (Raise (Exception improper_format), toy_world ∅ []).
Proof.
  exact (proj1 (C9_zero_in_y_resolution_is_rejected (C := toy)
                  (toy_args "-1:1:5" (Some "0:1:51") "weights" false) (toy_world ∅ [])
                  0%float 1%float 51%float eq_refl eq_refl (or_introl eq_refl))).
Defined.

(** The scheduler of the spec hands out no cell of a field without
    sentinel. *)
Lemma get_job_indices_spec_skips_filled vals xs ys comm :
  free_of (-1)%float vals → (get_job_indices_spec vals xs ys comm).1.1 = [].
Proof.
  intros Hfree. unfold get_job_indices_spec. cbn [fst].
  match goal with |- every_nth _ _ ?u = _ => assert (Hl : u = []) end.
  { match goal with |- ?u = _ => destruct u as [|i rest] eqn:Hl end; [done|].
    assert (Hi : i ∈ i :: rest) by left. rewrite <- Hl in Hi.
    apply list_elem_of_filter in Hi as [Hi Hin].
    apply elem_of_seq in Hin as [_ Hlt]. cbn in Hlt.
    destruct (lookup_lt_is_Some_2 (data vals) i Hlt) as [v Hv].
    rewrite Hv in Hi. cbn in Hi.
    assert (PrimFloat.eqb v (-1)%float = false); [|congruence].
    eapply (proj1 (Forall_lookup _ _) Hfree); eauto. }
  rewrite Hl. reflexivity.
Qed.

(** C2, as stated, fails: on a store whose fields are all filled,
    [crunch_2] and [crunch_hessian_eigs_2] call the evaluator again for
    every cell. *)
Lemma C2_unsynchronized_variants_evaluate_again :
  (∀ key, key ∈ ["train_loss"; "train_acc"; "max_eig"] →
     ∃ a, lookup_dataset (toy_world fs_complete []) "surf.h5" key = Some (DArr a)
          ∧ free_of (-1)%float a)
  ∧ (∃ a, lookup_dataset (toy_world fs_complete []) "surf.h5" "min_eig" = Some (DArr a)
          ∧ free_of 1%float a)
  ∧ count_events is_eval
      (emitted (crunch_2 "surf.h5" 0%float 0%float [1%float] [0.5%float]
                  ["train_loss"] ["train_acc"] None 0 args_1d)
         (toy_world fs_complete [])) = 3
  ∧ count_events is_eval
      (emitted (crunch_hessian_eigs_2 "surf.h5" 0%float 0%float [1%float] 0.5%float
                  None 0 args_1d)
         (toy_world fs_complete [])) = 3.
Proof.
  split; [|split; [|split]].
  - intros key Hkey. repeat (apply elem_of_cons in Hkey as [->|Hkey]);
      [| | |by apply elem_of_nil in Hkey];
      (eexists; split; [vm_compute; reflexivity|]);
      repeat constructor.
  - eexists. split; [vm_compute; reflexivity|]. repeat constructor.
  - vm_compute. reflexivity.
  - vm_compute. reflexivity.
Qed.

Lemma C2_rerun_witness :
  count_events is_eval
    (emitted (crunch "surf.h5" 0%float 0%float [1%float] [0.5%float]
                ["train_loss"] ["train_acc"] None 0 args_1d)
       (toy_world fs_complete [])) = 0.
Proof.
  destruct (C2_rerun_on_a_complete_store (C := toy) "surf.h5" 0%float 0%float [1%float]
              None 0 args_1d (toy_world fs_complete [])
              get_job_indices_spec_skips_filled) as [H _].
  apply (H [0.5%float] ["train_loss"] ["train_acc"]).
  intros lk Hlk. apply list_elem_of_singleton in Hlk as ->.
  eexists. split; [vm_compute; reflexivity|]. repeat constructor.
Defined.


Lemma C8_example_witness :
  ∃ a, lookup_dataset
         (crunch_2 "surf.h5" 0%float 0%float [1%float] [0.5%float]
            ["train_loss"] ["train_acc"] None 0 (args_example "weights")
            (setup_surface_file (args_example "weights") "surf.h5" "dir.h5"
               (toy_world ∅ [])).2).2
         "surf.h5" "train_loss" = Some (DArr a)
       ∧ size a = 5 ∧ free_of (-1)%float a.
Proof.
  assert (Hev : ∀ n, PrimFloat.eqb (@evaluator toy n 0.5%float).1 (-1)%float = false).
  { intros n. cbn. unfold toy_evaluator. destruct (PrimFloat.eqb n 0.5%float); reflexivity. }
  pose proof (C8_example_1d_grid (C := toy) 0%float 0%float 0%float [1%float] 0.5%float
                "weights" Hev) as H.
  cbv zeta in H. destruct H as (_ & _ & _ & H). exact H.
Defined.

(** C6, as stated, fails: on a grid of three cells [crunch_2] evaluates
    the three cells before the first commit; each field is committed once,
    not once per cell and once more at the end. *)
Lemma C6_no_commit_per_cell :
  ∃ t, emitted (crunch_2 "surf.h5" 0%float 0%float [1%float] [0.5%float]
                  ["train_loss"] ["train_acc"] None 0 args_1d)
         (toy_world fs_complete [])
       = t ++ [EvCommit "surf.h5" "train_loss"; EvCommit "surf.h5" "train_acc";
               EvFlush "surf.h5"; EvClose "surf.h5"]
       ∧ count_events is_eval t = 3
       ∧ count_events is_commit t = 0.
Proof.
  eexists (_ :: _ :: _ :: _ :: _ :: _ :: _ :: []).
  split; [vm_compute; reflexivity|]. split; vm_compute; reflexivity.
Qed.

Lemma C6_commit_once_witness :
  ∃ t, emitted (crunch_2 "surf.h5" 0%float 0%float [1%float] [0.5%float]
                  ["train_loss"] ["train_acc"] None 0 args_1d)
         (toy_world fs_complete [])
       = t ++ final_commits "surf.h5" ["train_loss"] ["train_acc"]
           ++ [EvFlush "surf.h5"; EvClose "surf.h5"]
       ∧ Forall (λ e, is_commit e = false) t.
Proof.
  destruct (C6_commit_once_after_the_loop (C := toy) "surf.h5" 0%float 0%float
              [1%float] None 0 args_1d (toy_world fs_complete [])) as [H _].
  apply (H [0.5%float] ["train_loss"] ["train_acc"]).
  vm_compute. reflexivity.
Defined.


(** C4 fails for two dataloaders: of three unfilled cells the scheduler
    gives two to rank 0 and one to rank 1.  Rank 0 enters 8 reductions (two
    per dataloader and cell); rank 1 enters 4 in its loop and only 2 more
    afterwards, 6 in all, and returns.  Rank 0, answered 6 times, never
    returns from its seventh reduction. *)
Lemma C4_straggler_enters_too_few_reductions :
  count_events is_reduce
    (emitted (crunch "surf.h5" 0%float 0%float [1%float] [0.5%float; 0.5%float]
                ["train_loss"; "test_loss"] ["train_acc"; "test_acc"]
                (Some (0, 2)) 0 args_1d)
       (toy_world fs_fresh (idle_peer 8))) = 8
  ∧ (crunch "surf.h5" 0%float 0%float [1%float] [0.5%float; 0.5%float]
       ["train_loss"; "test_loss"] ["train_acc"; "test_acc"]
       (Some (1, 2)) 1 args_1d (toy_world fs_fresh (idle_peer 8))).1 = Ok tt
  ∧ count_events is_reduce
      (emitted (crunch "surf.h5" 0%float 0%float [1%float] [0.5%float; 0.5%float]
                  ["train_loss"; "test_loss"] ["train_acc"; "test_acc"]
                  (Some (1, 2)) 1 args_1d)
         (toy_world fs_fresh (idle_peer 8))) = 6
  ∧ (crunch "surf.h5" 0%float 0%float [1%float] [0.5%float; 0.5%float]
       ["train_loss"; "test_loss"] ["train_acc"; "test_acc"]
       (Some (0, 2)) 0 args_1d (toy_world fs_fresh (idle_peer 6))).1 = Raise Blocked.
Proof. repeat split; vm_compute; reflexivity. Qed.

(** ** Runs of the further properties *)

Lemma all_coords_row_major_witness :
  all_coords axis3 (Some axis3) !! (1 * size axis3 + 2) = Some (Coord2 0%float 1%float)
  ∧ length (all_coords axis3 (Some axis3)) = size axis3 * size axis3.
Proof.
  apply (all_coords_row_major axis3 axis3 1 2 0%float 1%float); reflexivity.
Defined.

Lemma check_resolution_accepts_1d_witness :
  check_resolution (toy_args "-1:1:5" None "weights" false) (toy_world ∅ [])
  = (Ok (set_x_resolution (toy_args "-1:1:5" None "weights" false) (-1)%float 1%float 5),
     toy_world ∅ [])
  ∧ a_ynum (set_x_resolution (toy_args "-1:1:5" None "weights" false) (-1)%float 1%float 5)
    = None.
Proof.
  apply (check_resolution_accepts_1d (C := toy) (toy_args "-1:1:5" None "weights" false)
           (toy_world ∅ []) (-1)%float 1%float 5%float 5%Z); vm_compute; reflexivity.
Defined.

Lemma check_resolution_accepts_2d_witness :
  check_resolution (toy_args "-1:1:5" (Some "-1:1:3") "weights" false) (toy_world ∅ [])
  = (Ok (set_y_resolution
           (set_x_resolution (toy_args "-1:1:5" (Some "-1:1:3") "weights" false)
              (-1)%float 1%float 5) (-1)%float 1%float 3),
     toy_world ∅ []).
Proof.
  apply (check_resolution_accepts_2d (C := toy)
           (toy_args "-1:1:5" (Some "-1:1:3") "weights" false)
           (toy_world ∅ []) (-1)%float 1%float 5%float 5%Z (-1)%float 1%float 3%float 3%Z);
    vm_compute; reflexivity.
Defined.

Lemma setup_surface_file_x_axis_witness :
  ∃ xs, lookup_dataset (setup_surface_file args_1d "surf.h5" "dir.h5" (toy_world ∅ [])).2
          "surf.h5" "xcoordinates" = Some (DArr xs)
        ∧ shape xs = [Z.to_nat 5] ∧ size xs = Z.to_nat 5
        ∧ ((1 < 5)%Z → last (data xs) = Some 1%float).
Proof.
  assert (Hf : w_fs (toy_world ∅ []) !! "surf.h5" = None) by reflexivity.
  apply (setup_surface_file_x_axis (C := toy) args_1d "surf.h5" "dir.h5" (toy_world ∅ [])
           (-1)%float 1%float 5%Z Hf eq_refl eq_refl eq_refl ltac:(lia) I).
Defined.

Lemma setup_surface_file_is_idempotent_witness :
  (setup_surface_file args_1d "surf.h5" "other_dir.h5"
     (setup_surface_file args_1d "surf.h5" "dir.h5" (toy_world ∅ [])).2).1 = Ok None
  ∧ w_fs (setup_surface_file args_1d "surf.h5" "other_dir.h5"
            (setup_surface_file args_1d "surf.h5" "dir.h5" (toy_world ∅ [])).2).2
    = w_fs (setup_surface_file args_1d "surf.h5" "dir.h5" (toy_world ∅ [])).2.
Proof.
  assert (Hr : (setup_surface_file args_1d "surf.h5" "dir.h5" (toy_world ∅ [])).1
               = Ok (Some "surf.h5")) by (vm_compute; reflexivity).
  exact (proj1 (setup_surface_file_is_idempotent (C := toy) args_1d "surf.h5" "dir.h5"
                  (toy_world ∅ []) (Some "surf.h5") Hr) "other_dir.h5").
Defined.


Lemma crunch_rejects_uneven_lists_witness :
  crunch "surf.h5" 0%float 0%float [1%float] [0.5%float; 0.5%float]
    ["train_loss"] ["train_acc"] None 0 args_1d (toy_world fs_fresh [])
  = (Raise AssertionError, toy_world fs_fresh [])
  ∧ crunch_2 "surf.h5" 0%float 0%float [1%float] [0.5%float; 0.5%float]
      ["train_loss"] ["train_acc"] None 0 args_1d (toy_world fs_fresh [])
    = (Raise AssertionError, toy_world fs_fresh []).
Proof.
  apply (crunch_rejects_uneven_lists (C := toy)). left. cbn. lia.
Defined.

Lemma crunch_needs_the_surface_file_witness :
  crunch_hessian_eigs "surf.h5" 0%float 0%float [1%float] 0.5%float None 0 args_1d
    (toy_world ∅ [])
  = (Raise (FileNotFound "surf.h5"), toy_world ∅ [])
  ∧ crunch_hessian_eigs_2 "surf.h5" 0%float 0%float [1%float] 0.5%float None 0 args_1d
      (toy_world ∅ [])
    = (Raise (FileNotFound "surf.h5"), toy_world ∅ []).
Proof.
  assert (Hf : w_fs (toy_world ∅ []) !! "surf.h5" = None) by reflexivity.
  exact (proj2 (crunch_needs_the_surface_file (C := toy) "surf.h5" 0%float 0%float
                  [1%float] None 0 args_1d (toy_world ∅ []) Hf) 0.5%float).
Defined.

Lemma crunch_needs_the_x_axis_witness :
  crunch_hessian_eigs "surf.h5" 0%float 0%float [1%float] 0.5%float None 0 args_1d
    (toy_world fs_no_axes [])
  = (Raise (KeyError "xcoordinates"),
     logged (toy_world fs_no_axes []) (EvOpen "surf.h5" ModeRW))
  ∧ crunch_hessian_eigs_2 "surf.h5" 0%float 0%float [1%float] 0.5%float None 0 args_1d
      (toy_world fs_no_axes [])
    = (Raise (KeyError "xcoordinates"),
       logged (toy_world fs_no_axes []) (EvOpen "surf.h5" ModeRW)).
Proof.
  assert (Hf : is_Some (w_fs (toy_world fs_no_axes []) !! "surf.h5"))
    by (vm_compute; eauto).
  assert (Hx : lookup_dataset (toy_world fs_no_axes []) "surf.h5" "xcoordinates" = None)
    by (vm_compute; reflexivity).
  exact (proj2 (crunch_needs_the_x_axis (C := toy) "surf.h5" 0%float 0%float
                  [1%float] None 0 args_1d (toy_world fs_no_axes []) Hf Hx) 0.5%float).
Defined.

Lemma crunch_enters_reductions_witness :
  count_events is_reduce
    (emitted (crunch "surf.h5" 0%float 0%float [1%float] [0.5%float; 0.5%float]
                ["train_loss"; "test_loss"] ["train_acc"; "test_acc"]
                (Some (1, 2)) 1 args_1d)
       (toy_world fs_fresh (idle_peer 8)))
  = 2 * length [0.5%float; 0.5%float] * length [1] + 2 * (max_list [2; 1] - length [1]).
Proof.
  apply (crunch_enters_reductions (C := toy) "surf.h5" 0%float 0%float [1%float]
           [0.5%float; 0.5%float] ["train_loss"; "test_loss"] ["train_acc"; "test_acc"]
           (1, 2) 1 args_1d (toy_world fs_fresh (idle_peer 8)) axis3 None
           "train_loss" unfilled3 [1] [Coord1 0%float] [2; 1]).
  - split; vm_compute; reflexivity.
  - intros lk Hlk. repeat (apply elem_of_cons in Hlk as [->|Hlk]);
      [| |by apply elem_of_nil in Hlk]; eexists; vm_compute; reflexivity.
  - reflexivity.
  - vm_compute. reflexivity.
  - vm_compute. reflexivity.
  - vm_compute. reflexivity.
Defined.

Lemma crunch_hessian_eigs_enters_reductions_witness :
  count_events is_reduce
    (emitted (crunch_hessian_eigs "surf.h5" 0%float 0%float [1%float] 0.5%float
                (Some (1, 2)) 1 args_1d)
       (toy_world fs_fresh_eigs (idle_peer 8)))
  = 2 * (length [1] `max` max_list [2; 1]).
Proof.
  apply (crunch_hessian_eigs_enters_reductions (C := toy) "surf.h5" 0%float 0%float
           [1%float] 0.5%float (1, 2) 1 args_1d (toy_world fs_fresh_eigs (idle_peer 8))
           axis3 None (NdArray [3] [1%float; 1%float; 1%float]) unfilled3
           [1] [Coord1 0%float] [2; 1]).
  - split; vm_compute; reflexivity.
  - vm_compute. reflexivity.
  - vm_compute. reflexivity.
  - vm_compute. reflexivity.
  - vm_compute. reflexivity.
Defined.

Lemma follower_changes_no_file_witness :
  w_fs (crunch_hessian_eigs "surf.h5" 0%float 0%float [1%float] 0.5%float
          (Some (1, 2)) 1 args_1d (toy_world fs_x_only (idle_peer 4))).2
  = w_fs (toy_world fs_x_only (idle_peer 4))
  ∧ w_fs (crunch_hessian_eigs_2 "surf.h5" 0%float 0%float [1%float] 0.5%float
            (Some (1, 2)) 1 args_1d (toy_world fs_x_only (idle_peer 4))).2
    = w_fs (toy_world fs_x_only (idle_peer 4)).
Proof.
  assert (Hr : 1 ≠ 0) by lia.
  exact (proj2 (follower_changes_no_file (C := toy) "surf.h5" 0%float 0%float [1%float]
                  (Some (1, 2)) 1 args_1d (toy_world fs_x_only (idle_peer 4)) Hr)
           0.5%float).
Defined.

Lemma follower_plots_change_no_file_witness :
  w_fs (@plot_hessian_eigen toy_follower (toy_args "-1:1:5" None "weights" true) 0.5%float
          (@MkWorld toy_follower fs_x_only 0%float (idle_peer 4) [])).2
  = w_fs (@MkWorld toy_follower fs_x_only 0%float (idle_peer 4) []).
Proof.
  assert (Hr : (@setup_MPI toy_follower).1 ≠ 0) by (cbn; lia).
  exact (proj2 (@follower_plots_change_no_file toy_follower
                  (toy_args "-1:1:5" None "weights" true)
                  (@MkWorld toy_follower fs_x_only 0%float (idle_peer 4) []) eq_refl Hr)
           0.5%float).
Defined.

Lemma crunch_commits_cell_by_cell_witness :
  count_events is_commit
    (emitted (crunch "surf.h5" 0%float 0%float [1%float] [0.5%float; 0.5%float]
                ["train_loss"; "test_loss"] ["train_acc"; "test_acc"] None 0 args_1d)
       (toy_world fs_fresh []))
  = 2 * length [0.5%float; 0.5%float] * length [0; 1; 2]
  ∧ count_events is_flush
      (emitted (crunch "surf.h5" 0%float 0%float [1%float] [0.5%float; 0.5%float]
                  ["train_loss"; "test_loss"] ["train_acc"; "test_acc"] None 0 args_1d)
         (toy_world fs_fresh []))
    = length [0; 1; 2].
Proof.
  apply (crunch_commits_cell_by_cell (C := toy) "surf.h5" 0%float 0%float [1%float]
           [0.5%float; 0.5%float] ["train_loss"; "test_loss"] ["train_acc"; "test_acc"]
           None args_1d (toy_world fs_fresh []) axis3 None
           "train_loss" unfilled3 [0; 1; 2]
           [Coord1 (-1)%float; Coord1 0%float; Coord1 1%float] [3]).
  - split; vm_compute; reflexivity.
  - intros lk Hlk. repeat (apply elem_of_cons in Hlk as [->|Hlk]);
      [| |by apply elem_of_nil in Hlk]; eexists; vm_compute; reflexivity.
  - reflexivity.
  - vm_compute. reflexivity.
  - vm_compute. reflexivity.
  - vm_compute. reflexivity.
Defined.

Lemma synchronized_variants_evaluate_their_cells_witness :
  count_events is_eval
    (emitted (crunch_hessian_eigs "surf.h5" 0%float 0%float [1%float] 0.5%float
                (Some (1, 2)) 1 args_1d)
       (toy_world fs_fresh_eigs (idle_peer 8)))
  = length [1].
Proof.
  assert (Hg : stored_grid (toy_world fs_fresh_eigs (idle_peer 8)) "surf.h5" axis3 None)
    by (split; vm_compute; reflexivity).
  apply (proj2 (synchronized_variants_evaluate_their_cells (C := toy) "surf.h5" 0%float
                  0%float [1%float] (Some (1, 2)) 1 args_1d
                  (toy_world fs_fresh_eigs (idle_peer 8)) axis3 None Hg)
           0.5%float (NdArray [3] [1%float; 1%float; 1%float]) unfilled3
           [1] [Coord1 0%float] [2; 1]);
    vm_compute; reflexivity.
Defined.

Lemma crunch_hessian_eigs_commits_without_flush_witness :
  count_events is_commit
    (emitted (crunch_hessian_eigs "surf.h5" 0%float 0%float [1%float] 0.5%float
                None 0 args_1d)
       (toy_world fs_fresh_eigs []))
  = 2 * length [0; 1; 2]
  ∧ count_events is_flush
      (emitted (crunch_hessian_eigs "surf.h5" 0%float 0%float [1%float] 0.5%float
                  None 0 args_1d)
         (toy_world fs_fresh_eigs [])) = 0.
Proof.
  apply (crunch_hessian_eigs_commits_without_flush (C := toy) "surf.h5" 0%float 0%float
           [1%float] 0.5%float None args_1d (toy_world fs_fresh_eigs [])
           axis3 None (NdArray [3] [1%float; 1%float; 1%float]) unfilled3
           [0; 1; 2] [Coord1 (-1)%float; Coord1 0%float; Coord1 1%float] [3]).
  - split; vm_compute; reflexivity.
  - vm_compute. reflexivity.
  - vm_compute. reflexivity.
  - vm_compute. reflexivity.
  - vm_compute. reflexivity.
Defined.

Lemma crunch_hessian_eigs_2_stores_the_eigenvalues_witness :
  ∃ min_eig max_eig,
    lookup_dataset
      (crunch_hessian_eigs_2 "surf.h5" 0%float 0%float [1%float] 0.5%float None 0 args_1d
         (toy_world fs_x_only [])).2 "surf.h5" "min_eig" = Some (DArr min_eig)
    ∧ lookup_dataset
        (crunch_hessian_eigs_2 "surf.h5" 0%float 0%float [1%float] 0.5%float None 0 args_1d
           (toy_world fs_x_only [])).2 "surf.h5" "max_eig" = Some (DArr max_eig)
    ∧ ∀ i, i < size max_eig →
        data max_eig !! i
        = Some (@min_max_hessian_eigs toy
                  (@net_at toy args_1d 0%float 0%float [1%float] 0%float
                     (all_coords axis3 None) i) 0.5%float).1.1
        ∧ data min_eig !! i
          = Some (@min_max_hessian_eigs toy
                    (@net_at toy args_1d 0%float 0%float [1%float] 0%float
                       (all_coords axis3 None) i) 0.5%float).1.2.
Proof.
  destruct (@crunch_hessian_eigs_2 toy "surf.h5" 0%float 0%float [1%float] 0.5%float
              None 0 args_1d (toy_world fs_x_only [])) as [[[]|e] w'] eqn:Hr.
  - apply (crunch_hessian_eigs_2_stores_the_eigenvalues (C := toy) "surf.h5" 0%float
             0%float [1%float] 0.5%float None 0 args_1d (toy_world fs_x_only [])
             axis3 None w'); [|exact Hr].
    split; vm_compute; reflexivity.
  - vm_compute in Hr. discriminate.
Defined.

Lemma crunch_2_stores_the_surface_witness :
  ∃ key0 first,
    ["train_loss"; "test_loss"] !! 0 = Some key0
    ∧ lookup_dataset
        (crunch_2 "surf.h5" 0%float 0%float [1%float] [0.5%float; 1%float]
           ["train_loss"; "test_loss"] ["train_acc"; "test_acc"] None 0 args_1d
           (toy_world fs_x_only [])).2 "surf.h5" key0 = Some (DArr first)
    ∧ ∀ j dl lk ak,
        [0.5%float; 1%float] !! j = Some dl →
        ["train_loss"; "test_loss"] !! j = Some lk →
        ["train_acc"; "test_acc"] !! j = Some ak →
        ∃ la aa,
          lookup_dataset
            (crunch_2 "surf.h5" 0%float 0%float [1%float] [0.5%float; 1%float]
               ["train_loss"; "test_loss"] ["train_acc"; "test_acc"] None 0 args_1d
               (toy_world fs_x_only [])).2 "surf.h5" lk = Some (DArr la)
          ∧ lookup_dataset
              (crunch_2 "surf.h5" 0%float 0%float [1%float] [0.5%float; 1%float]
                 ["train_loss"; "test_loss"] ["train_acc"; "test_acc"] None 0 args_1d
                 (toy_world fs_x_only [])).2 "surf.h5" ak = Some (DArr aa)
          ∧ ∀ i, i < size first →
              data la !! i
              = Some (@evaluator toy
                        (@net_at toy args_1d 0%float 0%float [1%float] 0%float
                           (all_coords axis3 None) i) dl).1
              ∧ data aa !! i
                = Some (@evaluator toy
                          (@net_at toy args_1d 0%float 0%float [1%float] 0%float
                             (all_coords axis3 None) i) dl).2.
Proof.
  destruct (@crunch_2 toy "surf.h5" 0%float 0%float [1%float] [0.5%float; 1%float]
              ["train_loss"; "test_loss"] ["train_acc"; "test_acc"] None 0 args_1d
              (toy_world fs_x_only [])) as [[[]|e] w'] eqn:Hr.
  - apply (crunch_2_stores_the_surface (C := toy) "surf.h5" 0%float 0%float [1%float]
             [0.5%float; 1%float] ["train_loss"; "test_loss"] ["train_acc"; "test_acc"]
             None 0 args_1d (toy_world fs_x_only []) axis3 None w'); [| |exact Hr].
    + split; vm_compute; reflexivity.
    + compute_done.
  - vm_compute in Hr. discriminate.
Defined.

Lemma select_previous_wraps_around_witness :
  ∃ model_file2,
    select_model_files "i-1" ["epoch=0.ckpt"; "epoch=1.ckpt"; "epoch=2.ckpt"] 0
    = Selected "epoch=0.ckpt" model_file2
    ∧ ["epoch=0.ckpt"; "epoch=1.ckpt"; "epoch=2.ckpt"]
        !! Z.to_nat ((0 - 1) `mod` Z.of_nat (length ["epoch=0.ckpt"; "epoch=1.ckpt"; "epoch=2.ckpt"]))
      = Some model_file2
    ∧ (0%Z = 0%Z → last ["epoch=0.ckpt"; "epoch=1.ckpt"; "epoch=2.ckpt"] = Some model_file2).
Proof.
  apply (select_previous_wraps_around
           ["epoch=0.ckpt"; "epoch=1.ckpt"; "epoch=2.ckpt"] 0 "epoch=0.ckpt");
    [lia|reflexivity].
Defined.

Lemma select_next_fails_at_the_end_witness :
  select_model_files "i+1" ["epoch=0.ckpt"; "epoch=1.ckpt"; "epoch=2.ckpt"] 2
  = SelectionIndexError.
Proof.
  apply (select_next_fails_at_the_end
           ["epoch=0.ckpt"; "epoch=1.ckpt"; "epoch=2.ckpt"] 2 "epoch=2.ckpt");
    [lia|reflexivity|reflexivity].
Defined.

Lemma get_data_from_file_only_1d_witness :
  get_data_from_file "surf.h5" "2d" (toy_world fs_complete [])
  = (Raise NameError,
     logged (logged (toy_world fs_complete []) (EvOpen "surf.h5" ModeR)) (EvClose "surf.h5")).
Proof.
  assert (Hpt : "2d" ≠ "1d") by discriminate.
  assert (Hf : is_Some (w_fs (toy_world fs_complete []) !! "surf.h5"))
    by (vm_compute; eauto).
  exact (proj2 (proj2 (get_data_from_file_only_1d (C := toy) "surf.h5" "2d"
                         (toy_world fs_complete []) Hpt)) Hf).
Defined.

Lemma get_data_from_file_1d_witness :
  ∃ data, (get_data_from_file "surf.h5" "1d" (toy_world fs_complete [])).1 = Ok data
          ∧ ∀ k a, data !! k = Some a →
                   lookup_dataset (toy_world fs_complete []) "surf.h5" k = Some (DArr a).
Proof.
  destruct (get_data_from_file "surf.h5" "1d" (toy_world fs_complete []))
    as [[data|e] w'] eqn:Hr.
  - exists data. split; [reflexivity|].
    exact (proj1 (proj2 (get_data_from_file_1d (C := toy) "surf.h5"
                           (toy_world fs_complete []) data w' Hr))).
  - vm_compute in Hr. discriminate.
Defined.
